(** * deriv-ascend-pro: indicator library, venue connection, trade queue,
      signal engine and market scanner

    A shallow embedding of the TypeScript sources
    [src/lib/indicators.ts], [src/lib/deriv-websocket.ts],
    [src/lib/trading-engine.ts], of the module that defines the class
    [TradeQueue] and of the tick handler of the component [MarketScanner].

    Conventions of the embedding:
    - a JavaScript [number] that carries a price, a score or an amount is an
      exact rational: the type [number] is [Q], and [===] on it is
      [Qeq_bool].  The four operations put their result in lowest terms
      ([Qred]), which leaves the rational they denote unchanged and keeps
      the definitions executable on long price series.  Rounding, [NaN]
      and the infinities of IEEE doubles are outside the model, and a
      division by zero yields [0] as it does in [Q];
    - where rounding decides a statement, for the sum [currentAdj + 0.02]
      that the engine builds up after losses, the same expression is also
      evaluated on IEEE 754 doubles ([PrimFloat]);
    - array lengths, window sizes and counters are [nat]; wall-clock
      instants ([Date.now()]) are [Z] milliseconds, and every call to
      [Date.now()] made by one synchronous handler returns the instant
      [now] that the handler receives;
    - [Map<string, _>] is [gmap string _], [Set<string>] is [gset string];
    - an [async] method is split at its [await]: the part before it is one
      transition, the continuation after it is another one that receives
      the awaited outcome;
    - callbacks registered by observers are not run; what would be passed
      to them is appended to a trace kept in the state. *)

From Stdlib Require Import PrimFloat.
From Stdlib Require Import QArith Qabs Qminmax Lqa Ascii.
From stdpp Require Import gmap strings list fin_maps pretty.


(** ** Numbers *)

Definition number : Type := Q.

Definition qadd (x y : number) : number := Qred (Qplus x y).
Definition qsub (x y : number) : number := Qred (Qminus x y).
Definition qmul (x y : number) : number := Qred (Qmult x y).
Definition qdiv (x y : number) : number := Qred (Qdiv x y).

Declare Scope js_scope.
Delimit Scope js_scope with js.
Bind Scope js_scope with number.
Infix "+" := qadd : js_scope.
Infix "-" := qsub : js_scope.
Infix "*" := qmul : js_scope.
Infix "/" := qdiv : js_scope.

#[local] Set Warnings "-inexact-float".

Local Open Scope Q_scope.
Local Open Scope js_scope.

Definition Math_abs (x : number) : number := Qabs x.
Definition Math_max (x y : number) : number := Qmax x y.
Definition Math_min (x y : number) : number := Qmin x y.

Definition Qltb (x y : number) : bool := negb (Qle_bool y x).

Definition QofNat (n : nat) : number := inject_Z (Z.of_nat n).

(** [xs.reduce((a, b) => a + b, 0)] *)
Definition sum (xs : list number) : number := fold_left qadd xs 0.

(** [xs.slice(-n)] for [1 <= n <= xs.length]; every call is guarded by
    [xs.length < n]. *)
Definition lastN {A} (n : nat) (xs : list A) : list A :=
  drop (length xs - n) xs.

(** [x || null] on a number: [0] is falsy. *)
Definition orNull (x : number) : option number :=
  if Qeq_bool x 0 then None else Some x.

(** [x || 0] on an optional number. *)
Definition orZero (o : option number) : number :=
  match o with
  | Some x => if Qeq_bool x 0 then 0 else x
  | None => 0
  end.

(** ** indicators.ts *)
Module Indicators.

Record IndicatorResult := {
  rsi : option number;
  adx : option number;
  bollingerUpper : option number;
  bollingerMiddle : option number;
  bollingerLower : option number;
  sma : option number;
  ema : option number;
  macd : option (number * number * number);   (* macd, signal, histogram *)
  atr : option number;
}.

Definition calculateSMA (data : list number) (period : nat) : option number :=
  if (length data <? period)%nat then None
  else Some (sum (lastN period data) / QofNat period).

Definition emaStep (multiplier ema x : number) : number := (x - ema) * multiplier + ema.

Definition calculateEMA (data : list number) (period : nat) : option number :=
  if (length data <? period)%nat then None
  else
    let multiplier := 2 / (QofNat period + 1) in
    let ema := sum (take period data) / QofNat period in
    Some (fold_left (emaStep multiplier) (drop period data) ema).

(** [changes[i-1] = data[i] - data[i-1]] for [1 <= i < data.length]. *)
Fixpoint changes (data : list number) : list number :=
  match data with
  | a :: (b :: _) as rest => (b - a) :: changes rest
  | _ => []
  end.

(** One iteration of the "initial average" loop, on [(avgGain, avgLoss)]. *)
Definition rsiSeed (acc : number * number) (c : number) : number * number :=
  if Qltb 0 c then (fst acc + c, snd acc) else (fst acc, snd acc + Math_abs c).

(** One iteration of the "smoothed average" loop. *)
Definition rsiSmooth (period : nat) (acc : number * number) (c : number) : number * number :=
  let p := QofNat period in
  if Qltb 0 c
  then ((fst acc * (p - 1) + c) / p, (snd acc * (p - 1)) / p)
  else ((fst acc * (p - 1)) / p, (snd acc * (p - 1) + Math_abs c) / p).

(** The pair [(avgGain, avgLoss)] held when the two loops are over. *)
Definition rsiAverages (data : list number) (period : nat) : number * number :=
  let cs := changes data in
  let seed := fold_left rsiSeed (take period cs) (0, 0) in
  let seed := (fst seed / QofNat period, snd seed / QofNat period) in
  fold_left (rsiSmooth period) (drop period cs) seed.

Definition calculateRSI (data : list number) (period : nat) : option number :=
  if (length data <? period + 1)%nat then None
  else
    let '(avgGain, avgLoss) := rsiAverages data period in
    if Qeq_bool avgLoss 0 then Some 100
    else
      let rs := avgGain / avgLoss in
      Some (100 - 100 / (1 + rs)).

(** [Math.max(h - l, |h - c|, |l - c|)] *)
Definition trueRange (h l cPrev : number) : number :=
  Math_max (Math_max (h - l) (Math_abs (h - cPrev))) (Math_abs (l - cPrev)).

(** The first loop of [calculateADX]: for [1 <= i < highs.length] it pushes
    onto [trueRanges], [plusDM] and [minusDM] in lockstep; one triple
    [(tr, plusDM, minusDM)] per index here. *)
Definition adxBar (highs lows closes : list number) (i : nat) : number * number * number :=
  let highDiff := nth i highs 0 - nth (i - 1) highs 0 in
  let lowDiff := nth (i - 1) lows 0 - nth i lows 0 in
  let pdm := if Qltb lowDiff highDiff && Qltb 0 highDiff then highDiff else 0 in
  let mdm := if Qltb highDiff lowDiff && Qltb 0 lowDiff then lowDiff else 0 in
  (trueRange (nth i highs 0) (nth i lows 0) (nth (i - 1) closes 0), pdm, mdm).

Definition adxBars (highs lows closes : list number) : list (number * number * number) :=
  map (adxBar highs lows closes) (seq 1 (length highs - 1)).

(** State of the smoothing loop: the three smoothed sums and [dx]. *)
Record AdxState := {
  smoothedTR : number;
  smoothedPlusDM : number;
  smoothedMinusDM : number;
  dx : list number;
}.

Definition wilderSum (period : nat) (s x : number) : number := s - s / QofNat period + x.

Definition diSumOf (sTR sP sM : number) : number := sP / sTR * 100 + sM / sTR * 100.

Definition adxStep (period : nat) (st : AdxState) (bar : number * number * number) : AdxState :=
  let '(tr, pdm, mdm) := bar in
  let sTR := wilderSum period (smoothedTR st) tr in
  let sP := wilderSum period (smoothedPlusDM st) pdm in
  let sM := wilderSum period (smoothedMinusDM st) mdm in
  let plusDI := sP / sTR * 100 in
  let minusDI := sM / sTR * 100 in
  let diDiff := Math_abs (plusDI - minusDI) in
  let diSum := plusDI + minusDI in
  {| smoothedTR := sTR; smoothedPlusDM := sP; smoothedMinusDM := sM;
     dx := if Qltb 0 diSum then dx st ++ [diDiff / diSum * 100] else dx st |}.

Definition adxInit (period : nat) (bars : list (number * number * number)) : AdxState :=
  let first := take period bars in
  {| smoothedTR := sum (map (fun b => fst (fst b)) first);
     smoothedPlusDM := sum (map (fun b => snd (fst b)) first);
     smoothedMinusDM := sum (map snd first);
     dx := [] |}.

Definition adxLoop (period : nat) (bars : list (number * number * number)) : AdxState :=
  fold_left (adxStep period) (drop period bars) (adxInit period bars).

(** The value of [diSum] at each iteration of the smoothing loop, in order. *)
Fixpoint diSumsFrom (period : nat) (st : AdxState) (bars : list (number * number * number)) : list number :=
  match bars with
  | [] => []
  | bar :: rest =>
      let st' := adxStep period st bar in
      diSumOf (smoothedTR st') (smoothedPlusDM st') (smoothedMinusDM st')
        :: diSumsFrom period st' rest
  end.

Definition diSums (highs lows closes : list number) (period : nat) : list number :=
  let bars := adxBars highs lows closes in
  diSumsFrom period (adxInit period bars) (drop period bars).

Definition adxSmooth (period : nat) (adx x : number) : number :=
  (adx * (QofNat period - 1) + x) / QofNat period.

Definition calculateADX (highs lows closes : list number) (period : nat) : option number :=
  if (length highs <? period * 2)%nat then None
  else
    let st := adxLoop period (adxBars highs lows closes) in
    if (length (dx st) <? period)%nat then None
    else
      let adx := sum (take period (dx st)) / QofNat period in
      Some (fold_left (adxSmooth period) (drop period (dx st)) adx).

Record Bands := { upper : number; middle : number; lower : number }.

Section WithSqrt.
(** [Math.sqrt], which has no rational counterpart, is a parameter;
    [Math.pow(x, 2)] is [x * x]. *)
Context (sqrt : number -> number).

Definition calculateBollingerBands (data : list number) (period : nat) (stdDev : number)
  : option Bands :=
  if (length data <? period)%nat then None
  else
    let slice := lastN period data in
    let middle := sum slice / QofNat period in
    let squaredDiffs := map (fun val => (val - middle) * (val - middle)) slice in
    let variance := sum squaredDiffs / QofNat period in
    let standardDeviation := sqrt variance in
    Some {| upper := middle + standardDeviation * stdDev;
            middle := middle;
            lower := middle - standardDeviation * stdDev |}.

End WithSqrt.

(** The [macdValues] array: one entry per prefix length
    [slowPeriod <= i <= data.length]. *)
Definition macdValues (data : list number) (fastPeriod slowPeriod : nat) : list number :=
  omap (fun i =>
          match calculateEMA (take i data) fastPeriod,
                calculateEMA (take i data) slowPeriod with
          | Some fast, Some slow => Some (fast - slow)
          | _, _ => None
          end)
       (seq slowPeriod (length data + 1 - slowPeriod)).

Definition calculateMACD (data : list number) (fastPeriod slowPeriod signalPeriod : nat)
  : option (number * number * number) :=
  if (length data <? slowPeriod + signalPeriod)%nat then None
  else
    match calculateEMA data fastPeriod, calculateEMA data slowPeriod with
    | Some fastEMA, Some slowEMA =>
        let macdLine := fastEMA - slowEMA in
        match calculateEMA (macdValues data fastPeriod slowPeriod) signalPeriod with
        | Some signalLine => Some (macdLine, signalLine, macdLine - signalLine)
        | None => None
        end
    | _, _ => None
    end.

Definition calculateATR (highs lows closes : list number) (period : nat) : option number :=
  if (length highs <? period + 1)%nat then None
  else
    let trueRanges :=
      map (fun i => trueRange (nth i highs 0) (nth i lows 0) (nth (i - 1) closes 0))
          (seq 1 (length highs - 1)) in
    if (length trueRanges <? period)%nat then None
    else
      let atr := sum (take period trueRanges) / QofNat period in
      Some (fold_left (adxSmooth period) (drop period trueRanges) atr).

(** [calculateAllIndicators(prices)]: the engine passes neither [highs] nor
    [lows], so both default to [prices]. *)
Definition calculateAllIndicators (sqrt : number -> number) (prices : list number)
    (highs lows : option (list number)) : IndicatorResult :=
  let h := default prices highs in
  let l := default prices lows in
  let bollinger := calculateBollingerBands sqrt prices 20 2 in
  {| rsi := calculateRSI prices 14;
     adx := calculateADX h l prices 14;
     bollingerUpper := b ← bollinger; orNull (upper b);
     bollingerMiddle := b ← bollinger; orNull (middle b);
     bollingerLower := b ← bollinger; orNull (lower b);
     sma := calculateSMA prices 20;
     ema := calculateEMA prices 12;
     macd := calculateMACD prices 12 26 9;
     atr := calculateATR h l prices 14 |}.

(** *** Vocabulary of the statements *)

(** A price series that never falls. *)
Fixpoint nonDecreasing (data : list number) : Prop :=
  match data with
  | a :: (b :: _) as rest => a <= b /\ nonDecreasing rest
  | _ => True
  end.

(** Both running averages of the RSI are non-negative. *)
Definition avgOk (acc : number * number) : Prop := 0 <= fst acc /\ 0 <= snd acc.

(** The running average loss is zero. *)
Definition noLoss (acc : number * number) : Prop := snd acc == 0.

(** The series 1, 2, ..., [n]. *)
Definition rising (n : nat) : list number := map QofNat (seq 1 n).

(** The smoothed sums of the ADX loop are non-negative and every directional
    index pushed onto [dx] lies between 0 and 100. *)
Definition adxOk (st : AdxState) : Prop :=
  0 <= smoothedTR st /\ 0 <= smoothedPlusDM st /\ 0 <= smoothedMinusDM st
  /\ Forall (fun d : number => 0 <= d /\ d <= 100) (dx st).

(** State of the ADX loop over a series that never moves. *)
Definition adxIdle (st : AdxState) : Prop :=
  smoothedTR st == 0 /\ smoothedPlusDM st == 0 /\ smoothedMinusDM st == 0
  /\ dx st = [].

End Indicators.

(** ** Strings *)

Definition lowerAscii (c : ascii) : ascii :=
  let n := nat_of_ascii c in
  if (65 <=? n)%nat && (n <=? 90)%nat then ascii_of_nat (n + 32) else c.

(** [s.toLowerCase()], on the ASCII letters. *)
Fixpoint toLowerCase (s : string) : string :=
  match s with
  | EmptyString => EmptyString
  | String c rest => String (lowerAscii c) (toLowerCase rest)
  end.

(** [s.includes(sub)] *)
Definition includes (s sub : string) : bool :=
  match String.index 0 sub s with Some _ => true | None => false end.

(** Truthiness of a string: the empty string is falsy. *)
Definition nonEmpty (s : string) : bool := negb (String.eqb s "").

(** ** Shared vocabulary *)

Inductive ContractType := CALL | PUT.

Definition contractTypeName (ct : ContractType) : string :=
  match ct with CALL => "CALL" | PUT => "PUT" end.

(** ['t' | 's' | 'm' | 'h' | 'd'] *)
Inductive DurationUnit := unit_t | unit_s | unit_m | unit_h | unit_d.

(** ** deriv-websocket.ts *)
Module Venue.

Record TradeResult := {
  success : bool;
  contractId : option string;
  buyPrice : option number;
  error : option string;
  profit : option number;
}.

Definition failure (msg : string) : TradeResult :=
  {| success := false; contractId := None; buyPrice := None;
     error := Some msg; profit := None |}.

(** The fields of an inbound message that the request handlers read.
    [contract_id] is kept as the text [String(contract_id)] yields. *)
Record BuyPayload := { buy_contract_id : string; buy_buy_price : number }.
Record SellPayload := {
  sell_contract_id : string;
  sold_for : number;
  sell_buy_price : option number;
}.
Record Message := {
  msg_type : option string;
  buy : option BuyPayload;
  sell : option SellPayload;
  error_message : option string;   (* [data.error.message], when [data.error] *)
}.

(** A registered message handler is one of the two closures the class
    creates.  [promise] names the [resolve] it captured; since every call
    allocates a fresh promise it also stands for the closure's identity. *)
Inductive Handler :=
| BuyHandler (reqId : Z) (promise : nat)
| SellHandler (reqId : Z) (promise : nat).

Definition handlerPromise (h : Handler) : nat :=
  match h with BuyHandler _ p | SellHandler _ p => p end.

Definition sameHandler (h1 h2 : Handler) : bool :=
  (handlerPromise h1 =? handlerPromise h2)%nat.

Inductive Request :=
| BuyRequest (symbol : string) (contractType : ContractType)
             (amount duration : number) (durationUnit : DurationUnit)
             (currency : string) (reqId : Z)
| SellRequest (contractId : string) (price : number) (reqId : Z).

Record Connection := {
  wsOpen : bool;
  accountCurrency : string;
  messageHandlers : gmap string (list Handler);
  promises : gmap nat TradeResult;      (* settled promises *)
  nextPromise : nat;
  timeouts : list (Z * nat * string);   (* due instant, promise, message *)
  sent : list Request;                  (* what [ws.send] received *)
  fired : list Handler;                 (* every handler invocation, in order *)
}.

Definition initial : Connection :=
  {| wsOpen := true; accountCurrency := "USD"; messageHandlers := ∅;
     promises := ∅; nextPromise := 0; timeouts := []; sent := [];
     fired := [] |}.

Definition withHandlers (f : gmap string (list Handler) -> gmap string (list Handler))
    (c : Connection) : Connection :=
  {| wsOpen := wsOpen c; accountCurrency := accountCurrency c;
     messageHandlers := f (messageHandlers c); promises := promises c;
     nextPromise := nextPromise c; timeouts := timeouts c; sent := sent c;
     fired := fired c |}.

(** Calling a promise's [resolve]: only the first call settles it. *)
Definition resolve (p : nat) (r : TradeResult) (c : Connection) : Connection :=
  {| wsOpen := wsOpen c; accountCurrency := accountCurrency c;
     messageHandlers := messageHandlers c;
     promises := match promises c !! p with
                 | Some _ => promises c
                 | None => <[p := r]> (promises c)
                 end;
     nextPromise := nextPromise c; timeouts := timeouts c; sent := sent c;
     fired := fired c |}.

Definition send (r : Request) (c : Connection) : Connection :=
  {| wsOpen := wsOpen c; accountCurrency := accountCurrency c;
     messageHandlers := messageHandlers c; promises := promises c;
     nextPromise := nextPromise c; timeouts := timeouts c;
     sent := if wsOpen c then sent c ++ [r] else sent c;
     fired := fired c |}.

(** [onMessage(msgType, handler)]: push onto the array stored under
    [msgType], creating it when absent. *)
Definition onMessage (msgType : string) (h : Handler) (c : Connection) : Connection :=
  withHandlers (fun m => <[msgType := default [] (m !! msgType) ++ [h]]> m) c.

(** [idx = handlers.indexOf(h); if (idx > -1) handlers.splice(idx, 1)] *)
Fixpoint spliceOut (h : Handler) (hs : list Handler) : list Handler :=
  match hs with
  | [] => []
  | x :: rest => if sameHandler x h then rest else x :: spliceOut h rest
  end.

(** Registration, request and timer of [buyContract] / [sellContract]: the
    body of the [new Promise] executor.  Returns the promise. *)
Definition register (now : Z) (msgType : string) (h : Handler) (req : Request)
    (timeoutMsg : string) (c : Connection) : nat * Connection :=
  let p := nextPromise c in
  let c := onMessage msgType h c in
  let c := send req c in
  (p, {| wsOpen := wsOpen c; accountCurrency := accountCurrency c;
         messageHandlers := messageHandlers c; promises := promises c;
         nextPromise := S p;
         timeouts := timeouts c ++ [(now + 10000, p, timeoutMsg)%Z];
         sent := sent c; fired := fired c |}).

Definition buyContract (now : Z) (symbol : string) (contractType : ContractType)
    (amount duration : number) (durationUnit : DurationUnit) (c : Connection)
    : nat * Connection :=
  let reqId := now in
  register now "buy" (BuyHandler reqId (nextPromise c))
    (BuyRequest symbol contractType amount duration durationUnit
                (accountCurrency c) reqId)
    "Trade execution timeout" c.

Definition sellContract (now : Z) (contractId : string) (price : number)
    (c : Connection) : nat * Connection :=
  let reqId := now in
  register now "sell" (SellHandler reqId (nextPromise c))
    (SellRequest contractId price reqId) "Sell contract timeout" c.

Definition recordFired (h : Handler) (c : Connection) : Connection :=
  {| wsOpen := wsOpen c; accountCurrency := accountCurrency c;
     messageHandlers := messageHandlers c; promises := promises c;
     nextPromise := nextPromise c; timeouts := timeouts c; sent := sent c;
     fired := fired c ++ [h] |}.

(** The body of the closure [handler] of [buyContract] / [sellContract],
    applied to the message [data]. *)
Definition runHandler (h : Handler) (data : Message) (c : Connection) : Connection :=
  let c := recordFired h c in
  match h with
  | BuyHandler reqId p =>
      let c :=
        match buy data, error_message data with
        | Some b, _ =>
            resolve p {| success := true; contractId := Some (buy_contract_id b);
                         buyPrice := Some (buy_buy_price b); error := None;
                         profit := None |} c
        | None, Some msg => resolve p (failure msg) c
        | None, None => c
        end in
      withHandlers (delete ("buy_" +:+ pretty reqId)) c
  | SellHandler reqId p =>
      let c :=
        match sell data, error_message data with
        | Some s, _ =>
            resolve p {| success := true; contractId := Some (sell_contract_id s);
                         buyPrice := None; error := None;
                         profit := Some (sold_for s - orZero (sell_buy_price s)) |} c
        | None, Some msg => resolve p (failure msg) c
        | None, None => c
        end in
      withHandlers (alter (spliceOut h) "sell") c
  end.

(** [handlers.forEach(handler => handler(data))] on the array object that
    was stored under [key] when the iteration began: the callback runs for
    the indices [k < len] that are still present when [k] is reached, so an
    element that moves down after a [splice] is passed over.  [arr] is the
    array as the iteration found it; it is the one stored under [key] as long
    as that key is in the table. *)
Fixpoint forEachFrom (key : string) (arr : list Handler) (data : Message)
    (k len : nat) (c : Connection) : Connection :=
  match len with
  | O => c
  | S len' =>
      let cur := default arr (messageHandlers c !! key) in
      match cur !! k with
      | Some h => forEachFrom key arr data (S k) len' (runHandler h data c)
      | None => forEachFrom key arr data (S k) len' c
      end
  end.

Definition dispatch (key : string) (data : Message) (c : Connection) : Connection :=
  match messageHandlers c !! key with
  | Some arr => forEachFrom key arr data 0 (length arr) c
  | None => c
  end.

(** [handleMessage(data)], the "call message handlers" part: the branches
    for [authorize], [tick] and [proposal_open_contract] neither read nor
    write [messageHandlers]. *)
Definition handleMessage (data : Message) (c : Connection) : Connection :=
  match msg_type data with
  | Some msgType =>
      if nonEmpty msgType then dispatch "*" data (dispatch msgType data c) else c
  | None => c
  end.

(** The [setTimeout] callback of the oldest pending request, once due. *)
Definition fireTimeout (now : Z) (c : Connection) : Connection :=
  match timeouts c with
  | (due, p, msg) :: rest =>
      if (due <=? now)%Z then
        resolve p (failure msg)
          {| wsOpen := wsOpen c; accountCurrency := accountCurrency c;
             messageHandlers := messageHandlers c; promises := promises c;
             nextPromise := nextPromise c; timeouts := rest; sent := sent c;
             fired := fired c |}
      else c
  | [] => c
  end.

(** Number of handlers held under a message type. *)
Definition handlerCount (msgType : string) (c : Connection) : nat :=
  length (default [] (messageHandlers c !! msgType)).

(** Number of times the handler of promise [p] has been invoked. *)
Definition firedCount (p : nat) (c : Connection) : nat :=
  length (filter (fun h => handlerPromise h = p) (fired c)).

(** *** Scenarios *)

Definition buyReply (contract : string) : Message :=
  {| msg_type := Some "buy";
     buy := Some {| buy_contract_id := contract; buy_buy_price := 1 |};
     sell := None; error_message := None |}.

(** Two orders placed one after the other, each answered by the venue
    before its timeout. *)
Definition twoBuys : Connection :=
  let c := (buyContract 1000 "R_10" CALL 1 5 unit_t initial).2 in
  let c := handleMessage (buyReply "C1") c in
  let c := (buyContract 2000 "R_10" CALL 1 5 unit_t c).2 in
  handleMessage (buyReply "C2") c.

(** A close request that the venue never answers. *)
Definition sellTimedOut : Connection :=
  fireTimeout 11000 (sellContract 1000 "C1" 0 initial).2.

(** *** Contract updates

    The [proposal_open_contract] branch of [handleMessage].  Of the payload
    the flags are kept as the tests [=== 1] see them, and an optional number
    is [None] when the field is missing. *)
Inductive ContractStatus :=
  status_open | status_sold | status_expired | status_won | status_lost.

Record OpenContract := {
  poc_contract_id : string;
  underlying : option string;
  poc_buy_price : option number;
  bid_price : option number;
  poc_profit : option number;
  poc_payout : option number;
  is_sold : bool;          (* [poc.is_sold === 1] *)
  is_expired : bool;       (* [poc.is_expired === 1] *)
  is_settleable : bool;    (* [poc.is_settleable === 1] *)
  sell_price : option number;
  sell_time : option Z;
}.

Record ContractUpdate := {
  cu_contractId : string;
  cu_symbol : string;
  cu_buyPrice : number;
  cu_bidPrice : number;
  cu_profit : number;
  cu_payout : number;
  isSold : bool;
  isExpired : bool;
  isSettled : bool;
  sellPrice : option number;
  sellTime : option Z;
  cu_status : ContractStatus;
}.

(** [poc.profit >= 0]: false when the field is missing. *)
Definition profitNonNegative (poc : OpenContract) : bool :=
  match poc_profit poc with Some p => negb (Qltb p 0) | None => false end.

Definition determineContractStatus (poc : OpenContract) : ContractStatus :=
  if is_sold poc then status_sold
  else if is_expired poc then
    (if profitNonNegative poc then status_won else status_lost)
  else status_open.

Definition contractUpdate (poc : OpenContract) : ContractUpdate :=
  {| cu_contractId := poc_contract_id poc;
     cu_symbol := match underlying poc with
                  | Some s => if nonEmpty s then s else ""
                  | None => ""
                  end;
     cu_buyPrice := orZero (poc_buy_price poc);
     cu_bidPrice := orZero (bid_price poc);
     cu_profit := orZero (poc_profit poc);
     cu_payout := orZero (poc_payout poc);
     isSold := is_sold poc;
     isExpired := is_expired poc;
     isSettled := is_settleable poc || is_sold poc || is_expired poc;
     sellPrice := sell_price poc;
     sellTime := sell_time poc;
     cu_status := determineContractStatus poc |}.

(** *** Reconnection

    [attemptReconnect] and the [onopen] callback, on the two fields they
    touch; [scheduled] lists the delays handed to [setTimeout]. *)
Record Reconnect := {
  reconnectAttempts : nat;
  scheduled : list Z;
}.

Definition maxReconnectAttempts : nat := 5.
Definition reconnectDelay : Z := 1000.

Definition attemptReconnect (r : Reconnect) : Reconnect :=
  if (maxReconnectAttempts <=? reconnectAttempts r)%nat then r
  else
    let attempts := S (reconnectAttempts r) in
    let delay := (reconnectDelay * 2 ^ (Z.of_nat attempts - 1))%Z in
    {| reconnectAttempts := attempts; scheduled := scheduled r ++ [delay] |}.

Definition onopen (r : Reconnect) : Reconnect :=
  {| reconnectAttempts := 0; scheduled := scheduled r |}.

(** *** Tick subscriptions

    [subscribeTicks] and [unsubscribeTicks], on the set of subscribed
    symbols (a JavaScript [Set] keeps no duplicates and iterates in
    insertion order) and the requests handed to [send]. *)
Inductive TickRequest :=
| SubscribeTicks (symbol : string)   (* [{ ticks: symbol, subscribe: 1 }] *)
| ForgetAllTicks.                    (* [{ forget_all: 'ticks' }] *)

Record Feed := {
  feedOpen : bool;                   (* [ws.readyState === WebSocket.OPEN] *)
  subscriptions : list string;
  requested : list TickRequest;
}.

Definition sendTick (r : TickRequest) (f : Feed) : Feed :=
  {| feedOpen := feedOpen f; subscriptions := subscriptions f;
     requested := if feedOpen f then requested f ++ [r] else requested f |}.

Definition subscribeTicks (symbol : string) (f : Feed) : Feed :=
  let f := {| feedOpen := feedOpen f;
              subscriptions := if bool_decide (symbol ∈ subscriptions f)
                               then subscriptions f
                               else subscriptions f ++ [symbol];
              requested := requested f |} in
  sendTick (SubscribeTicks symbol) f.

Definition unsubscribeTicks (symbol : string) (f : Feed) : Feed :=
  let f := {| feedOpen := feedOpen f;
              subscriptions := filter (fun s => s ≠ symbol) (subscriptions f);
              requested := requested f |} in
  let f := sendTick ForgetAllTicks f in
  fold_left (fun f s => sendTick (SubscribeTicks s) f) (subscriptions f) f.

(** *** Runs of the connection *)

Inductive Event :=
| Buy (now : Z) (symbol : string) (contractType : ContractType)
      (amount duration : number) (durationUnit : DurationUnit)
| Sell (now : Z) (contractId : string) (price : number)
| Receive (data : Message)
| Timer (now : Z).

Definition step (c : Connection) (e : Event) : Connection :=
  match e with
  | Buy now symbol contractType amount duration durationUnit =>
      (buyContract now symbol contractType amount duration durationUnit c).2
  | Sell now contractId price => (sellContract now contractId price c).2
  | Receive data => handleMessage data c
  | Timer now => fireTimeout now c
  end.

Definition run (events : list Event) (c : Connection) : Connection :=
  fold_left step events c.

(** *** Vocabulary of the statements about pending requests *)

Definition isBuy (h : Handler) : Prop :=
  match h with BuyHandler _ _ => True | SellHandler _ _ => False end.

Definition isSell (h : Handler) : Prop :=
  match h with SellHandler _ _ => True | BuyHandler _ _ => False end.

(** What a buy handler resolves its promise with on [data.buy]. *)
Definition bought (b : BuyPayload) : TradeResult :=
  {| success := true; contractId := Some (buy_contract_id b);
     buyPrice := Some (buy_buy_price b); error := None; profit := None |}.

(** What a sell handler resolves its promise with on [data.sell]. *)
Definition sold (s : SellPayload) : TradeResult :=
  {| success := true; contractId := Some (sell_contract_id s);
     buyPrice := None; error := None;
     profit := Some (sold_for s - orZero (sell_buy_price s)) |}.

(** The elements at positions 0, 2, 4, ... and at positions 1, 3, 5, ... *)
Fixpoint evens {A} (l : list A) : list A :=
  match l with
  | [] => []
  | x :: rest => x :: match rest with [] => [] | _ :: rest' => evens rest' end
  end.

Fixpoint odds {A} (l : list A) : list A :=
  match l with
  | [] => []
  | _ :: rest => match rest with [] => [] | y :: rest' => y :: odds rest' end
  end.

(** No promise of the connection has been allocated past [nextPromise]. *)
Definition fresh (c : Connection) : Prop :=
  forall p, (nextPromise c <= p)%nat -> promises c !! p = None.

(** Two orders placed and not answered yet. *)
Definition twoPendingBuys : Connection :=
  (buyContract 2000 "R_25" PUT 1 5 unit_t
     (buyContract 1000 "R_10" CALL 1 5 unit_t initial).2).2.

(** Three close requests placed and not answered yet. *)
Definition threePendingSells : Connection :=
  (sellContract 3000 "C3" 0
     (sellContract 2000 "C2" 0 (sellContract 1000 "C1" 0 initial).2).2).2.

Definition sellReply (contract : string) : Message :=
  {| msg_type := Some "sell"; buy := None;
     sell := Some {| sell_contract_id := contract; sold_for := 2;
                     sell_buy_price := Some 1 |};
     error_message := None |}.

(** The delays of [n] reconnection attempts in a row. *)
Definition backoff (n : nat) : list Z :=
  map (fun i => (reconnectDelay * 2 ^ Z.of_nat i)%Z) (seq 0 n).

(** The requests that unsubscribing from the symbols of a list, one after
    the other, sends when exactly those symbols are subscribed: each call
    forgets every tick stream and subscribes again to what is left. *)
Fixpoint unsubscribeTraffic (symbols : list string) : list TickRequest :=
  match symbols with
  | [] => []
  | _ :: rest => ForgetAllTicks :: map SubscribeTicks rest ++ unsubscribeTraffic rest
  end.

End Venue.

(** ** The trade execution queue (class [TradeQueue]) *)
Module Queue.

Import Venue.

Inductive Status := pending | executing | completed | failed | cancelled.

(** A queued intent.  [resolver] names the promise whose [resolve] the
    object carries; [reject] is never called by the class. *)
Record QueuedTrade := {
  id : string;
  symbol : string;
  contractType : ContractType;
  amount : number;
  duration : number;
  durationUnit : DurationUnit;
  priority : number;
  addedAt : Z;
  status : Status;
  resolver : nat;
}.

Definition withStatus (s : Status) (t : QueuedTrade) : QueuedTrade :=
  {| id := id t; symbol := symbol t; contractType := contractType t;
     amount := amount t; duration := duration t;
     durationUnit := durationUnit t; priority := priority t;
     addedAt := addedAt t; status := s; resolver := resolver t |}.

Record QueueStats := {
  queueSize : nat;
  stats_pendingSymbols : list string;
  stats_isThrottled : bool;
  stats_throttleEndsAt : option Z;
  stats_lastExecutionTime : option Z;
}.

(** A call to some [resolve]: either the early one of [addTrade], before
    any intent exists, or [trade.resolve(result)] with the intent as it is
    at the call. *)
Inductive Resolution :=
| Rejected (promise : nat) (result : TradeResult)
| Settled (trade : QueuedTrade) (result : TradeResult).

Record State := {
  queue : list QueuedTrade;
  pendingSymbols : gset string;
  symbolCooldowns : gmap string Z;
  isProcessing : bool;
  isThrottled : bool;
  throttleEndsAt : option Z;
  lastExecutionTime : option Z;
  inFlight : option QueuedTrade;     (* [trade] of [processLoop], during the await *)
  nextPromise : nat;
  throttleNotes : list string;       (* messages given to [notifyThrottle] *)
  statsNotes : list QueueStats;      (* snapshots given to [updateStats] *)
  resolutions : list Resolution;
  venueCalls : list QueuedTrade;     (* calls to [derivWS.buyContract] *)
}.

Definition set_queue (v : list QueuedTrade) (q : State) : State :=
  {| queue := v; pendingSymbols := pendingSymbols q; symbolCooldowns :=
     symbolCooldowns q; isProcessing := isProcessing q; isThrottled :=
     isThrottled q; throttleEndsAt := throttleEndsAt q; lastExecutionTime
     := lastExecutionTime q; inFlight := inFlight q; nextPromise :=
     nextPromise q; throttleNotes := throttleNotes q; statsNotes :=
     statsNotes q; resolutions := resolutions q; venueCalls := venueCalls
     q |}.

Definition set_pendingSymbols (v : gset string) (q : State) : State :=
  {| queue := queue q; pendingSymbols := v; symbolCooldowns :=
     symbolCooldowns q; isProcessing := isProcessing q; isThrottled :=
     isThrottled q; throttleEndsAt := throttleEndsAt q; lastExecutionTime
     := lastExecutionTime q; inFlight := inFlight q; nextPromise :=
     nextPromise q; throttleNotes := throttleNotes q; statsNotes :=
     statsNotes q; resolutions := resolutions q; venueCalls := venueCalls
     q |}.

Definition set_symbolCooldowns (v : gmap string Z) (q : State) : State :=
  {| queue := queue q; pendingSymbols := pendingSymbols q; symbolCooldowns
     := v; isProcessing := isProcessing q; isThrottled := isThrottled q;
     throttleEndsAt := throttleEndsAt q; lastExecutionTime :=
     lastExecutionTime q; inFlight := inFlight q; nextPromise :=
     nextPromise q; throttleNotes := throttleNotes q; statsNotes :=
     statsNotes q; resolutions := resolutions q; venueCalls := venueCalls
     q |}.

Definition set_isProcessing (v : bool) (q : State) : State :=
  {| queue := queue q; pendingSymbols := pendingSymbols q; symbolCooldowns
     := symbolCooldowns q; isProcessing := v; isThrottled := isThrottled
     q; throttleEndsAt := throttleEndsAt q; lastExecutionTime :=
     lastExecutionTime q; inFlight := inFlight q; nextPromise :=
     nextPromise q; throttleNotes := throttleNotes q; statsNotes :=
     statsNotes q; resolutions := resolutions q; venueCalls := venueCalls
     q |}.

Definition set_isThrottled (v : bool) (q : State) : State :=
  {| queue := queue q; pendingSymbols := pendingSymbols q; symbolCooldowns
     := symbolCooldowns q; isProcessing := isProcessing q; isThrottled :=
     v; throttleEndsAt := throttleEndsAt q; lastExecutionTime :=
     lastExecutionTime q; inFlight := inFlight q; nextPromise :=
     nextPromise q; throttleNotes := throttleNotes q; statsNotes :=
     statsNotes q; resolutions := resolutions q; venueCalls := venueCalls
     q |}.

Definition set_throttleEndsAt (v : option Z) (q : State) : State :=
  {| queue := queue q; pendingSymbols := pendingSymbols q; symbolCooldowns
     := symbolCooldowns q; isProcessing := isProcessing q; isThrottled :=
     isThrottled q; throttleEndsAt := v; lastExecutionTime :=
     lastExecutionTime q; inFlight := inFlight q; nextPromise :=
     nextPromise q; throttleNotes := throttleNotes q; statsNotes :=
     statsNotes q; resolutions := resolutions q; venueCalls := venueCalls
     q |}.

Definition set_lastExecutionTime (v : option Z) (q : State) : State :=
  {| queue := queue q; pendingSymbols := pendingSymbols q; symbolCooldowns
     := symbolCooldowns q; isProcessing := isProcessing q; isThrottled :=
     isThrottled q; throttleEndsAt := throttleEndsAt q; lastExecutionTime
     := v; inFlight := inFlight q; nextPromise := nextPromise q;
     throttleNotes := throttleNotes q; statsNotes := statsNotes q;
     resolutions := resolutions q; venueCalls := venueCalls q |}.

Definition set_inFlight (v : option QueuedTrade) (q : State) : State :=
  {| queue := queue q; pendingSymbols := pendingSymbols q; symbolCooldowns
     := symbolCooldowns q; isProcessing := isProcessing q; isThrottled :=
     isThrottled q; throttleEndsAt := throttleEndsAt q; lastExecutionTime
     := lastExecutionTime q; inFlight := v; nextPromise := nextPromise q;
     throttleNotes := throttleNotes q; statsNotes := statsNotes q;
     resolutions := resolutions q; venueCalls := venueCalls q |}.

Definition set_nextPromise (v : nat) (q : State) : State :=
  {| queue := queue q; pendingSymbols := pendingSymbols q; symbolCooldowns
     := symbolCooldowns q; isProcessing := isProcessing q; isThrottled :=
     isThrottled q; throttleEndsAt := throttleEndsAt q; lastExecutionTime
     := lastExecutionTime q; inFlight := inFlight q; nextPromise := v;
     throttleNotes := throttleNotes q; statsNotes := statsNotes q;
     resolutions := resolutions q; venueCalls := venueCalls q |}.

Definition set_throttleNotes (v : list string) (q : State) : State :=
  {| queue := queue q; pendingSymbols := pendingSymbols q; symbolCooldowns
     := symbolCooldowns q; isProcessing := isProcessing q; isThrottled :=
     isThrottled q; throttleEndsAt := throttleEndsAt q; lastExecutionTime
     := lastExecutionTime q; inFlight := inFlight q; nextPromise :=
     nextPromise q; throttleNotes := v; statsNotes := statsNotes q;
     resolutions := resolutions q; venueCalls := venueCalls q |}.

Definition set_statsNotes (v : list QueueStats) (q : State) : State :=
  {| queue := queue q; pendingSymbols := pendingSymbols q; symbolCooldowns
     := symbolCooldowns q; isProcessing := isProcessing q; isThrottled :=
     isThrottled q; throttleEndsAt := throttleEndsAt q; lastExecutionTime
     := lastExecutionTime q; inFlight := inFlight q; nextPromise :=
     nextPromise q; throttleNotes := throttleNotes q; statsNotes := v;
     resolutions := resolutions q; venueCalls := venueCalls q |}.

Definition set_resolutions (v : list Resolution) (q : State) : State :=
  {| queue := queue q; pendingSymbols := pendingSymbols q; symbolCooldowns
     := symbolCooldowns q; isProcessing := isProcessing q; isThrottled :=
     isThrottled q; throttleEndsAt := throttleEndsAt q; lastExecutionTime
     := lastExecutionTime q; inFlight := inFlight q; nextPromise :=
     nextPromise q; throttleNotes := throttleNotes q; statsNotes :=
     statsNotes q; resolutions := v; venueCalls := venueCalls q |}.

Definition set_venueCalls (v : list QueuedTrade) (q : State) : State :=
  {| queue := queue q; pendingSymbols := pendingSymbols q; symbolCooldowns
     := symbolCooldowns q; isProcessing := isProcessing q; isThrottled :=
     isThrottled q; throttleEndsAt := throttleEndsAt q; lastExecutionTime
     := lastExecutionTime q; inFlight := inFlight q; nextPromise :=
     nextPromise q; throttleNotes := throttleNotes q; statsNotes :=
     statsNotes q; resolutions := resolutions q; venueCalls := v |}.

Definition MIN_EXECUTION_INTERVAL_MS : Z := 2000.
Definition COOLDOWN_PER_ASSET_MS : Z := 60000.
Definition RATE_LIMIT_BACKOFF_MS : Z := 5000.

Definition initial : State :=
  {| queue := []; pendingSymbols := ∅; symbolCooldowns := ∅;
     isProcessing := false; isThrottled := false; throttleEndsAt := None;
     lastExecutionTime := None; inFlight := None; nextPromise := 0;
     throttleNotes := []; statsNotes := []; resolutions := [];
     venueCalls := [] |}.

Definition notifyThrottle (message : string) (q : State) : State :=
  set_throttleNotes (throttleNotes q ++ [message]) q.

Definition getStats (q : State) : QueueStats :=
  {| queueSize := length (queue q);
     stats_pendingSymbols := elements (pendingSymbols q);
     stats_isThrottled := isThrottled q;
     stats_throttleEndsAt := throttleEndsAt q;
     stats_lastExecutionTime := lastExecutionTime q |}.

Definition updateStats (q : State) : State :=
  set_statsNotes (statsNotes q ++ [getStats q]) q.

Definition resolveTrade (t : QueuedTrade) (r : TradeResult) (q : State) : State :=
  set_resolutions (resolutions q ++ [Settled t r]) q.

(** The comparator given to [queue.sort]. *)
Definition compareTrades (a b : QueuedTrade) : number :=
  if negb (Qeq_bool (priority b) (priority a)) then priority b - priority a
  else inject_Z (addedAt a - addedAt b).

(** [Array.prototype.sort] is stable; insertion from the right is. *)
Fixpoint insertSorted (x : QueuedTrade) (l : list QueuedTrade) : list QueuedTrade :=
  match l with
  | [] => [x]
  | y :: rest =>
      if Qle_bool (compareTrades x y) 0 then x :: y :: rest
      else y :: insertSorted x rest
  end.

Definition sortQueue (l : list QueuedTrade) : list QueuedTrade :=
  foldr insertSorted [] l.

(** [Math.ceil(remainingMs / 1000)] *)
Definition ceilSeconds (remainingMs : Z) : Z := (- ((- remainingMs) / 1000))%Z.

Definition addTrade (now : Z) (symbol : string) (contractType : ContractType)
    (amount duration : number) (durationUnit : DurationUnit) (priority : number)
    (q : State) : State :=
  let p := nextPromise q in
  let q := set_nextPromise (S p) q in
  let tradeId := symbol +:+ "_" +:+ contractTypeName contractType +:+ "_" +:+ pretty now in
  if decide (symbol ∈ pendingSymbols q) then
    let q := notifyThrottle
               ("Signal debounced: " +:+ symbol +:+ " already has pending request") q in
    set_resolutions
      (resolutions q ++ [Rejected p (failure "Trade already pending for this symbol")]) q
  else
    let onCooldown :=
      match symbolCooldowns q !! symbol with
      | Some cooldownEnd => negb (cooldownEnd =? 0)%Z && (now <? cooldownEnd)%Z
      | None => false
      end in
    if onCooldown then
      let remainingMs := (default 0%Z (symbolCooldowns q !! symbol) - now)%Z in
      let secs := pretty (ceilSeconds remainingMs) in
      let q := notifyThrottle
                 ("Cooldown active: " +:+ symbol +:+ " blocked for " +:+ secs +:+ "s") q in
      set_resolutions
        (resolutions q
           ++ [Rejected p (failure ("Asset on cooldown. " +:+ secs +:+ "s remaining"))]) q
    else
      let trade :=
        {| id := tradeId; symbol := symbol; contractType := contractType;
           amount := amount; duration := duration; durationUnit := durationUnit;
           priority := priority; addedAt := now; status := pending;
           resolver := p |} in
      let q := set_queue (sortQueue (queue q ++ [trade])) q in
      let q := set_pendingSymbols ({[symbol]} ∪ pendingSymbols q) q in
      updateStats q.

(** [throttleEndsAt || 0] *)
Definition throttleEnd (q : State) : Z := default 0%Z (throttleEndsAt q).

(** One turn of [processLoop] after its [sleep], up to the [await] inside
    [executeTrade]: the head intent is taken, marked executing and handed to
    [derivWS.buyContract]. *)
Definition processLoop (now : Z) (q : State) : State :=
  if isProcessing q || bool_decide (queue q = []) then q
  else if isThrottled q && (now <? throttleEnd q)%Z then q
  else
    let q :=
      if isThrottled q && (throttleEnd q <=? now)%Z then
        updateStats
          (notifyThrottle "Throttle ended. Resuming execution..."
             (set_throttleEndsAt None (set_isThrottled false q)))
      else q in
    let tooSoon :=
      match lastExecutionTime q with
      | Some last => negb (last =? 0)%Z && (now - last <? MIN_EXECUTION_INTERVAL_MS)%Z
      | None => false
      end in
    if tooSoon then q
    else
      match queue q with
      | [] => q
      | trade :: rest =>
          let q := set_queue rest q in
          let q := set_isProcessing true q in
          let trade := withStatus executing trade in
          set_venueCalls (venueCalls q ++ [trade]) (set_inFlight (Some trade) q)
      end.

(** What the awaited [derivWS.buyContract] call produced. *)
Inductive VenueOutcome :=
| Returned (result : TradeResult)
| Threw (errorMessage : string).

Definition isRateLimitMessage (err : string) : bool :=
  let errorLower := toLowerCase err in
  includes errorLower "rate limit" || includes errorLower "too many"
  || includes errorLower "throttle".

Definition cancelResult : TradeResult :=
  failure "Trade cancelled due to rate limit backoff".

(** The [forEach] over [cancelledTrades] in [handleRateLimitError]. *)
Definition cancelOne (q : State) (trade : QueuedTrade) : State :=
  let trade := withStatus cancelled trade in
  let q := set_pendingSymbols (pendingSymbols q ∖ {[symbol trade]}) q in
  resolveTrade trade cancelResult q.

Definition handleRateLimitError (now : Z) (q : State) : State :=
  let q := notifyThrottle
             "API THROTTLING: Rate limit detected. Backing off for 5 seconds..." q in
  let q := set_isThrottled true q in
  let q := set_throttleEndsAt (Some (now + RATE_LIMIT_BACKOFF_MS)%Z) q in
  let cancelledTrades := queue q in
  let q := set_queue [] q in
  let q := fold_left cancelOne cancelledTrades q in
  let q := notifyThrottle
             ("Queue cleared: " +:+ pretty (length cancelledTrades)
                +:+ " trades cancelled") q in
  updateStats q.

(** The test [!result.success && result.error] followed by the three
    [includes] on the lower-cased message. *)
Definition rateLimited (result : TradeResult) : bool :=
  negb (success result)
  && match error result with
     | Some e => nonEmpty e && isRateLimitMessage e
     | None => false
     end.

(** [executeTrade(trade)] from the point where the awaited call settles. *)
Definition executeTrade (now : Z) (outcome : VenueOutcome) (trade : QueuedTrade)
    (q : State) : State :=
  match outcome with
  | Returned result =>
      let q := set_lastExecutionTime (Some now) q in
      if rateLimited result then
        let q := handleRateLimitError now q in
        resolveTrade (withStatus failed trade) result q
      else
        let q := set_symbolCooldowns
                   (<[symbol trade := (now + COOLDOWN_PER_ASSET_MS)%Z]> (symbolCooldowns q)) q in
        resolveTrade
          (withStatus (if success result then completed else failed) trade) result q
  | Threw errorMessage =>
      let q := if includes (toLowerCase errorMessage) "rate limit"
               then handleRateLimitError now q else q in
      resolveTrade (withStatus failed trade) (failure errorMessage) q
  end.

(** The rest of the [processLoop] turn: [executeTrade] resumes with the
    outcome, then the [finally] block runs. *)
Definition completeExecution (now : Z) (outcome : VenueOutcome) (q : State) : State :=
  match inFlight q with
  | None => q
  | Some trade =>
      let q := executeTrade now outcome trade q in
      let q := set_isProcessing false q in
      let q := set_pendingSymbols (pendingSymbols q ∖ {[symbol trade]}) q in
      updateStats (set_inFlight None q)
  end.

(** *** Vocabulary of the statements and scenarios *)

Definition throttleMessage : string :=
  "API THROTTLING: Rate limit detected. Backing off for 5 seconds...".

Definition tradeA : QueuedTrade :=
  {| id := "R_10_CALL_1000"; symbol := "R_10"; contractType := CALL; amount := 1;
     duration := 5; durationUnit := unit_t; priority := 0; addedAt := 1000;
     status := executing; resolver := 0 |}.

Definition tradeB : QueuedTrade :=
  {| id := "R_25_PUT_1200"; symbol := "R_25"; contractType := PUT; amount := 1;
     duration := 5; durationUnit := unit_t; priority := 0; addedAt := 1200;
     status := pending; resolver := 1 |}.

(** [tradeA] is being executed while [tradeB] waits in the queue. *)
Definition executingA : State :=
  set_inFlight (Some tradeA)
    (set_isProcessing true
       (set_pendingSymbols {[ "R_10"; "R_25" ]}
          (set_queue [tradeB] (set_nextPromise 2 initial)))).

(** *** The public queries and [clearQueue] *)

Definition getQueueSize (q : State) : nat := length (queue q).

(** [cooldownEnd ? Date.now() < cooldownEnd : false] *)
Definition isInCooldown (now : Z) (symbol : string) (q : State) : bool :=
  match symbolCooldowns q !! symbol with
  | Some cooldownEnd => negb (cooldownEnd =? 0)%Z && (now <? cooldownEnd)%Z
  | None => false
  end.

Definition getCooldownRemaining (now : Z) (symbol : string) (q : State) : Z :=
  match symbolCooldowns q !! symbol with
  | Some cooldownEnd =>
      if (cooldownEnd =? 0)%Z then 0%Z else Z.max 0 (cooldownEnd - now)
  | None => 0%Z
  end.

Definition manualCancelResult : TradeResult := failure "Trade cancelled manually".

(** The [forEach] over [cancelledTrades] in [clearQueue]. *)
Definition cancelManually (q : State) (trade : QueuedTrade) : State :=
  let trade := withStatus cancelled trade in
  let q := set_pendingSymbols (pendingSymbols q ∖ {[symbol trade]}) q in
  resolveTrade trade manualCancelResult q.

Definition clearQueue (q : State) : State :=
  let cancelledTrades := queue q in
  let q := set_queue [] q in
  let q := fold_left cancelManually cancelledTrades q in
  updateStats q.

(** *** Runs of the queue

    The entry points of the class: a call of [addTrade], one turn of
    [processLoop] after its [sleep], the settling of the awaited venue call,
    and [clearQueue]. *)
Inductive Event :=
| Add (now : Z) (symbol : string) (contractType : ContractType)
      (amount duration : number) (durationUnit : DurationUnit) (priority : number)
| Turn (now : Z)
| Complete (now : Z) (outcome : VenueOutcome)
| Clear.

Definition step (q : State) (e : Event) : State :=
  match e with
  | Add now symbol contractType amount duration durationUnit priority =>
      addTrade now symbol contractType amount duration durationUnit priority q
  | Turn now => processLoop now q
  | Complete now outcome => completeExecution now outcome q
  | Clear => clearQueue q
  end.

Definition run (events : list Event) (q : State) : State := fold_left step events q.

(** *** Vocabulary of the statements about runs *)

(** The intents the queue is answerable for: the one being executed, if
    any, and the queued ones. *)
Definition waiting (q : State) : list QueuedTrade :=
  option_list (inFlight q) ++ queue q.

(** The promise a call of [resolve] settles. *)
Definition resolvedPromise (r : Resolution) : nat :=
  match r with Rejected p _ => p | Settled t _ => resolver t end.

(** The order the comparator of [addTrade] asks for: higher priority first,
    and among equal priorities the older intent first. *)
Definition goesBefore (a b : QueuedTrade) : Prop :=
  priority b < priority a \/ (priority a == priority b /\ (addedAt a <= addedAt b)%Z).

(** Every intent of the list goes before all those behind it. *)
Fixpoint ordered (l : list QueuedTrade) : Prop :=
  match l with
  | [] => True
  | a :: rest => Forall (goesBefore a) rest /\ ordered rest
  end.

(** What holds of the queue between any two entry points. *)
Record Consistent (q : State) : Prop := {
  pending_exact : pendingSymbols q = list_to_set (symbol <$> waiting q);
  symbols_apart : NoDup (symbol <$> waiting q);
  promises_once :
    (resolvedPromise <$> resolutions q) ++ (resolver <$> waiting q)
    ≡ₚ seq 0 (nextPromise q);
  queue_ordered : ordered (queue q);
  idle_empty : isProcessing q = false -> inFlight q = None;
}.

(** The intent that an accepted [addTrade] call queues. *)
Definition newTrade (now : Z) (symbol : string) (contractType : ContractType)
    (amount duration : number) (durationUnit : DurationUnit) (priority : number)
    (q : State) : QueuedTrade :=
  {| id := symbol +:+ "_" +:+ contractTypeName contractType +:+ "_" +:+ pretty now;
     symbol := symbol; contractType := contractType; amount := amount;
     duration := duration; durationUnit := durationUnit; priority := priority;
     addedAt := now; status := pending; resolver := nextPromise q |}.

(** The result an [addTrade] call is resolved with during a cooldown that
    has [remainingMs] left. *)
Definition cooldownResult (remainingMs : Z) : TradeResult :=
  failure ("Asset on cooldown. " +:+ pretty (ceilSeconds remainingMs) +:+ "s remaining").

(** Every turn of the loop among the events comes before [limit]. *)
Definition turnsBefore (limit : Z) (e : Event) : Prop :=
  match e with Turn now => (now < limit)%Z | _ => True end.

(** What a run keeps while the throttle set at [T] is in force. *)
Definition throttledSince (T : Z) (calls : list QueuedTrade) (q : State) : Prop :=
  isThrottled q = true /\ throttleEndsAt q = Some (T + RATE_LIMIT_BACKOFF_MS)%Z
  /\ inFlight q = None /\ isProcessing q = false
  /\ venueCalls q = calls /\ lastExecutionTime q = Some T.

(** The same intent but for its status: every other field agrees. *)
Definition sameIntent (a b : QueuedTrade) : Prop :=
  id a = id b /\ symbol a = symbol b /\ contractType a = contractType b
  /\ amount a = amount b /\ duration a = duration b
  /\ durationUnit a = durationUnit b /\ priority a = priority b
  /\ addedAt a = addedAt b /\ resolver a = resolver b.

(** *** The two halves of [completeExecution]

    [trade.resolve] settles the caller's promise inside [executeTrade]; the
    caller's reaction to it runs before [processLoop] resumes after its own
    [await] and enters the [finally] block.  [resumeExecution] is the
    continuation of [executeTrade] for the intent in flight, [finishTurn]
    the [finally] block. *)
Definition resumeExecution (now : Z) (outcome : VenueOutcome) (q : State) : State :=
  match inFlight q with
  | None => q
  | Some trade => executeTrade now outcome trade q
  end.

Definition finishTurn (q : State) : State :=
  match inFlight q with
  | None => q
  | Some trade =>
      let q := set_isProcessing false q in
      let q := set_pendingSymbols (pendingSymbols q ∖ {[symbol trade]}) q in
      updateStats (set_inFlight None q)
  end.

(** The result an [addTrade] call is resolved with while a request for the
    same instrument is pending. *)
Definition debounceResult : TradeResult :=
  failure "Trade already pending for this symbol".

End Queue.

(** ** config/deriv.ts *)
Module DERIV_CONFIG.
Definition DEFAULT_STAKE : number := 1.
Definition MAX_STAKE : number := 100.
Definition MIN_PROBABILITY : number := 0.75.
Definition WIN_RATE_FLOOR : number := 0.65.
Definition CALIBRATION_PAUSE_MS : Z := 60000.
Definition RSI_OVERBOUGHT : number := 70.
Definition RSI_OVERSOLD : number := 30.
Definition ADX_TREND_THRESHOLD : number := 25.
Definition SYMBOLS : list string :=
  ["R_10"; "R_25"; "R_50"; "R_75"; "R_100"; "1HZ100V"].
End DERIV_CONFIG.

(** ** trading-engine.ts *)
Module Engine.

Import Indicators.

Inductive Direction := LONG | SHORT.

Definition directionName (d : Direction) : string :=
  match d with LONG => "LONG" | SHORT => "SHORT" end.

Inductive TradeStatus := open | closed | pending.
Inductive TradeOutcome := win | loss.

Record Trade := {
  id : string;
  symbol : string;
  direction : Direction;
  entryPrice : number;
  currentPrice : number;
  stake : number;
  profit : number;
  status : TradeStatus;
  openTime : Z;
  closeTime : option Z;
  result : option TradeOutcome;
}.

Definition trade_entryPrice (v : number) (t : Trade) : Trade :=
  {| id := id t; symbol := symbol t; direction := direction t; entryPrice
     := v; currentPrice := currentPrice t; stake := stake t; profit :=
     profit t; status := status t; openTime := openTime t; closeTime :=
     closeTime t; result := result t |}.

Definition trade_currentPrice (v : number) (t : Trade) : Trade :=
  {| id := id t; symbol := symbol t; direction := direction t; entryPrice
     := entryPrice t; currentPrice := v; stake := stake t; profit :=
     profit t; status := status t; openTime := openTime t; closeTime :=
     closeTime t; result := result t |}.

Definition trade_profit (v : number) (t : Trade) : Trade :=
  {| id := id t; symbol := symbol t; direction := direction t; entryPrice
     := entryPrice t; currentPrice := currentPrice t; stake := stake t;
     profit := v; status := status t; openTime := openTime t; closeTime :=
     closeTime t; result := result t |}.

Definition trade_status (v : TradeStatus) (t : Trade) : Trade :=
  {| id := id t; symbol := symbol t; direction := direction t; entryPrice
     := entryPrice t; currentPrice := currentPrice t; stake := stake t;
     profit := profit t; status := v; openTime := openTime t; closeTime :=
     closeTime t; result := result t |}.

Definition trade_closeTime (v : option Z) (t : Trade) : Trade :=
  {| id := id t; symbol := symbol t; direction := direction t; entryPrice
     := entryPrice t; currentPrice := currentPrice t; stake := stake t;
     profit := profit t; status := status t; openTime := openTime t;
     closeTime := v; result := result t |}.

Definition trade_result (v : option TradeOutcome) (t : Trade) : Trade :=
  {| id := id t; symbol := symbol t; direction := direction t; entryPrice
     := entryPrice t; currentPrice := currentPrice t; stake := stake t;
     profit := profit t; status := status t; openTime := openTime t;
     closeTime := closeTime t; result := v |}.

Record TradingStats := {
  totalTrades : nat;
  wins : nat;
  losses : nat;
  winRate : number;
  totalProfit : number;
  activeTradesCount : nat;
  isPaused : bool;
  pauseReason : option string;
}.

Definition stats_totalTrades (v : nat) (s : TradingStats) : TradingStats :=
  {| totalTrades := v; wins := wins s; losses := losses s; winRate :=
     winRate s; totalProfit := totalProfit s; activeTradesCount :=
     activeTradesCount s; isPaused := isPaused s; pauseReason :=
     pauseReason s |}.

Definition stats_wins (v : nat) (s : TradingStats) : TradingStats :=
  {| totalTrades := totalTrades s; wins := v; losses := losses s; winRate
     := winRate s; totalProfit := totalProfit s; activeTradesCount :=
     activeTradesCount s; isPaused := isPaused s; pauseReason :=
     pauseReason s |}.

Definition stats_losses (v : nat) (s : TradingStats) : TradingStats :=
  {| totalTrades := totalTrades s; wins := wins s; losses := v; winRate :=
     winRate s; totalProfit := totalProfit s; activeTradesCount :=
     activeTradesCount s; isPaused := isPaused s; pauseReason :=
     pauseReason s |}.

Definition stats_winRate (v : number) (s : TradingStats) : TradingStats :=
  {| totalTrades := totalTrades s; wins := wins s; losses := losses s;
     winRate := v; totalProfit := totalProfit s; activeTradesCount :=
     activeTradesCount s; isPaused := isPaused s; pauseReason :=
     pauseReason s |}.

Definition stats_totalProfit (v : number) (s : TradingStats) : TradingStats :=
  {| totalTrades := totalTrades s; wins := wins s; losses := losses s;
     winRate := winRate s; totalProfit := v; activeTradesCount :=
     activeTradesCount s; isPaused := isPaused s; pauseReason :=
     pauseReason s |}.

Definition stats_activeTradesCount (v : nat) (s : TradingStats) : TradingStats :=
  {| totalTrades := totalTrades s; wins := wins s; losses := losses s;
     winRate := winRate s; totalProfit := totalProfit s; activeTradesCount
     := v; isPaused := isPaused s; pauseReason := pauseReason s |}.

Definition stats_isPaused (v : bool) (s : TradingStats) : TradingStats :=
  {| totalTrades := totalTrades s; wins := wins s; losses := losses s;
     winRate := winRate s; totalProfit := totalProfit s; activeTradesCount
     := activeTradesCount s; isPaused := v; pauseReason := pauseReason s |}.

Definition stats_pauseReason (v : option string) (s : TradingStats) : TradingStats :=
  {| totalTrades := totalTrades s; wins := wins s; losses := losses s;
     winRate := winRate s; totalProfit := totalProfit s; activeTradesCount
     := activeTradesCount s; isPaused := isPaused s; pauseReason := v |}.

(** The rule that contributed a line to the rationale; the rendered text
    (which formats numbers) is not kept. *)
Inductive Reason :=
| RsiOversold (rsi : number)
| RsiOverbought (rsi : number)
| StrongTrend (adx : number)
| LowerBand
| UpperBand
| MacdBullish
| MacdBearish
| AboveSma
| BelowSma.

Record TradeSignal := {
  sig_symbol : string;
  sig_direction : Direction;
  probability : number;
  reasoning : list Reason;
  indicators : IndicatorResult;
  timestamp : Z;
}.

Inductive LogType :=
  log_info | log_signal | log_trade | log_warning | log_error | log_ai.

(** A log entry without its message text. *)
Record LogEntry := {
  log_timestamp : Z;
  log_type : LogType;
  log_symbol : option string;
}.

Record TickUpdate := { tick_symbol : string; quote : number; epoch : Z }.

(** A call [derivWS.buyContract(symbol, contractType, stake, 5, 't')];
    [order_trade] is the [Trade] object its continuation holds. *)
Record Order := {
  order_trade : nat;
  order_symbol : string;
  order_contractType : ContractType;
  order_amount : number;
}.

(** [trades] is the store of [Trade] objects, by address: the map of active
    trades, the journal and the pending continuations of [executeTrade] all
    refer to the same objects. *)
Record State := {
  priceHistory : gmap string (list number);
  trades : list Trade;
  activeTrades : gmap string nat;
  tradeJournal : list nat;
  stats : TradingStats;
  isRunning : bool;
  currentStake : number;                 (* the field [stake] *)
  symbolAdjustments : gmap string number;
  tickRegistrations : nat;          (* [handleTick] handlers given to [onTick] *)
  pauseTimers : list Z;             (* due instants of the calibration timeouts *)
  logs : list LogEntry;
  statsNotes : list TradingStats;   (* copies given to the stats handlers *)
  signals : list TradeSignal;       (* signals given to the signal handlers *)
  orders : list Order;
}.

Definition set_priceHistory (v : gmap string (list number)) (e : State) : State :=
  {| priceHistory := v; trades := trades e; activeTrades := activeTrades
     e; tradeJournal := tradeJournal e; stats := stats e; isRunning :=
     isRunning e; currentStake := currentStake e; symbolAdjustments :=
     symbolAdjustments e; tickRegistrations := tickRegistrations e;
     pauseTimers := pauseTimers e; logs := logs e; statsNotes :=
     statsNotes e; signals := signals e; orders := orders e |}.

Definition set_trades (v : list Trade) (e : State) : State :=
  {| priceHistory := priceHistory e; trades := v; activeTrades :=
     activeTrades e; tradeJournal := tradeJournal e; stats := stats e;
     isRunning := isRunning e; currentStake := currentStake e;
     symbolAdjustments := symbolAdjustments e; tickRegistrations :=
     tickRegistrations e; pauseTimers := pauseTimers e; logs := logs e;
     statsNotes := statsNotes e; signals := signals e; orders := orders e |}.

Definition set_activeTrades (v : gmap string nat) (e : State) : State :=
  {| priceHistory := priceHistory e; trades := trades e; activeTrades :=
     v; tradeJournal := tradeJournal e; stats := stats e; isRunning :=
     isRunning e; currentStake := currentStake e; symbolAdjustments :=
     symbolAdjustments e; tickRegistrations := tickRegistrations e;
     pauseTimers := pauseTimers e; logs := logs e; statsNotes :=
     statsNotes e; signals := signals e; orders := orders e |}.

Definition set_tradeJournal (v : list nat) (e : State) : State :=
  {| priceHistory := priceHistory e; trades := trades e; activeTrades :=
     activeTrades e; tradeJournal := v; stats := stats e; isRunning :=
     isRunning e; currentStake := currentStake e; symbolAdjustments :=
     symbolAdjustments e; tickRegistrations := tickRegistrations e;
     pauseTimers := pauseTimers e; logs := logs e; statsNotes :=
     statsNotes e; signals := signals e; orders := orders e |}.

Definition set_stats (v : TradingStats) (e : State) : State :=
  {| priceHistory := priceHistory e; trades := trades e; activeTrades :=
     activeTrades e; tradeJournal := tradeJournal e; stats := v; isRunning
     := isRunning e; currentStake := currentStake e; symbolAdjustments :=
     symbolAdjustments e; tickRegistrations := tickRegistrations e;
     pauseTimers := pauseTimers e; logs := logs e; statsNotes :=
     statsNotes e; signals := signals e; orders := orders e |}.

Definition set_isRunning (v : bool) (e : State) : State :=
  {| priceHistory := priceHistory e; trades := trades e; activeTrades :=
     activeTrades e; tradeJournal := tradeJournal e; stats := stats e;
     isRunning := v; currentStake := currentStake e; symbolAdjustments :=
     symbolAdjustments e; tickRegistrations := tickRegistrations e;
     pauseTimers := pauseTimers e; logs := logs e; statsNotes :=
     statsNotes e; signals := signals e; orders := orders e |}.

Definition set_currentStake (v : number) (e : State) : State :=
  {| priceHistory := priceHistory e; trades := trades e; activeTrades :=
     activeTrades e; tradeJournal := tradeJournal e; stats := stats e;
     isRunning := isRunning e; currentStake := v; symbolAdjustments :=
     symbolAdjustments e; tickRegistrations := tickRegistrations e;
     pauseTimers := pauseTimers e; logs := logs e; statsNotes :=
     statsNotes e; signals := signals e; orders := orders e |}.

Definition set_symbolAdjustments (v : gmap string number) (e : State) : State :=
  {| priceHistory := priceHistory e; trades := trades e; activeTrades :=
     activeTrades e; tradeJournal := tradeJournal e; stats := stats e;
     isRunning := isRunning e; currentStake := currentStake e;
     symbolAdjustments := v; tickRegistrations := tickRegistrations e;
     pauseTimers := pauseTimers e; logs := logs e; statsNotes :=
     statsNotes e; signals := signals e; orders := orders e |}.

Definition set_tickRegistrations (v : nat) (e : State) : State :=
  {| priceHistory := priceHistory e; trades := trades e; activeTrades :=
     activeTrades e; tradeJournal := tradeJournal e; stats := stats e;
     isRunning := isRunning e; currentStake := currentStake e;
     symbolAdjustments := symbolAdjustments e; tickRegistrations := v;
     pauseTimers := pauseTimers e; logs := logs e; statsNotes :=
     statsNotes e; signals := signals e; orders := orders e |}.

Definition set_pauseTimers (v : list Z) (e : State) : State :=
  {| priceHistory := priceHistory e; trades := trades e; activeTrades :=
     activeTrades e; tradeJournal := tradeJournal e; stats := stats e;
     isRunning := isRunning e; currentStake := currentStake e;
     symbolAdjustments := symbolAdjustments e; tickRegistrations :=
     tickRegistrations e; pauseTimers := v; logs := logs e; statsNotes :=
     statsNotes e; signals := signals e; orders := orders e |}.

Definition set_logs (v : list LogEntry) (e : State) : State :=
  {| priceHistory := priceHistory e; trades := trades e; activeTrades :=
     activeTrades e; tradeJournal := tradeJournal e; stats := stats e;
     isRunning := isRunning e; currentStake := currentStake e;
     symbolAdjustments := symbolAdjustments e; tickRegistrations :=
     tickRegistrations e; pauseTimers := pauseTimers e; logs := v;
     statsNotes := statsNotes e; signals := signals e; orders := orders e |}.

Definition set_statsNotes (v : list TradingStats) (e : State) : State :=
  {| priceHistory := priceHistory e; trades := trades e; activeTrades :=
     activeTrades e; tradeJournal := tradeJournal e; stats := stats e;
     isRunning := isRunning e; currentStake := currentStake e;
     symbolAdjustments := symbolAdjustments e; tickRegistrations :=
     tickRegistrations e; pauseTimers := pauseTimers e; logs := logs e;
     statsNotes := v; signals := signals e; orders := orders e |}.

Definition set_signals (v : list TradeSignal) (e : State) : State :=
  {| priceHistory := priceHistory e; trades := trades e; activeTrades :=
     activeTrades e; tradeJournal := tradeJournal e; stats := stats e;
     isRunning := isRunning e; currentStake := currentStake e;
     symbolAdjustments := symbolAdjustments e; tickRegistrations :=
     tickRegistrations e; pauseTimers := pauseTimers e; logs := logs e;
     statsNotes := statsNotes e; signals := v; orders := orders e |}.

Definition set_orders (v : list Order) (e : State) : State :=
  {| priceHistory := priceHistory e; trades := trades e; activeTrades :=
     activeTrades e; tradeJournal := tradeJournal e; stats := stats e;
     isRunning := isRunning e; currentStake := currentStake e;
     symbolAdjustments := symbolAdjustments e; tickRegistrations :=
     tickRegistrations e; pauseTimers := pauseTimers e; logs := logs e;
     statsNotes := statsNotes e; signals := signals e; orders := v |}.

Definition HISTORY_SIZE : nat := 100.

(** The engine as constructed: an empty history for every symbol. *)
Definition initial : State :=
  {| priceHistory := list_to_map (map (fun s => (s, [])) DERIV_CONFIG.SYMBOLS);
     trades := []; activeTrades := ∅; tradeJournal := [];
     stats := {| totalTrades := 0; wins := 0; losses := 0; winRate := 0;
                 totalProfit := 0; activeTradesCount := 0; isPaused := false;
                 pauseReason := None |};
     isRunning := false; currentStake := DERIV_CONFIG.DEFAULT_STAKE;
     symbolAdjustments := ∅; tickRegistrations := 0; pauseTimers := [];
     logs := []; statsNotes := []; signals := []; orders := [] |}.

Definition log (now : Z) (type : LogType) (symbol : option string) (e : State) : State :=
  set_logs (logs e ++ [{| log_timestamp := now; log_type := type;
                          log_symbol := symbol |}]) e.

Definition updateStats (e : State) : State :=
  let st := stats_activeTradesCount (size (activeTrades e)) (stats e) in
  set_statsNotes (statsNotes e ++ [st]) (set_stats st e).

Definition start (now : Z) (e : State) : State :=
  if isRunning e then e
  else
    let e := set_isRunning true e in
    let e := log now log_info None e in
    let e := fold_left (fun e s => log now log_info (Some s) e) DERIV_CONFIG.SYMBOLS e in
    set_tickRegistrations (S (tickRegistrations e)) e.

Definition stop (now : Z) (e : State) : State :=
  if negb (isRunning e) then e
  else log now log_info None (set_isRunning false e).

(** The body of the [forEach] callback of [updateActiveTrades], on the
    object a map entry refers to. *)
Definition markToMarket (tick : TickUpdate) (trade : Trade) : Trade :=
  if String.eqb (symbol trade) (tick_symbol tick)
     && match status trade with open => true | _ => false end then
    let priceDiff := quote tick - entryPrice trade in
    let direction := match direction trade with LONG => 1 | SHORT => -1 end in
    trade_profit (priceDiff * direction * 100)
      (trade_currentPrice (quote tick) trade)
  else trade.

Definition updateActiveTrades (tick : TickUpdate) (e : State) : State :=
  let e := fold_left
             (fun e entry => set_trades (alter (markToMarket tick) entry.2 (trades e)) e)
             (map_to_list (activeTrades e)) e in
  updateStats e.

(** [a / b < c] and [a / b > c] as IEEE doubles decide them when [b] may be
    zero: the quotient is then an infinity, or [NaN], which compares false. *)
Definition divLt (a b c : number) : bool :=
  if Qeq_bool b 0 then Qltb a 0 else Qltb (a / b) c.
Definition divGt (a b c : number) : bool :=
  if Qeq_bool b 0 then Qltb 0 a else Qltb c (a / b).

Record Score := { longScore : number; shortScore : number; reasons : list Reason }.

Definition addLong (x : number) (rs : list Reason) (sc : Score) : Score :=
  {| longScore := longScore sc + x; shortScore := shortScore sc;
     reasons := reasons sc ++ rs |}.
Definition addShort (x : number) (rs : list Reason) (sc : Score) : Score :=
  {| longScore := longScore sc; shortScore := shortScore sc + x;
     reasons := reasons sc ++ rs |}.

Definition scoreRSI (ind : IndicatorResult) (sc : Score) : Score :=
  match rsi ind with
  | Some r =>
      if Qltb r DERIV_CONFIG.RSI_OVERSOLD then addLong 0.25 [RsiOversold r] sc
      else if Qltb DERIV_CONFIG.RSI_OVERBOUGHT r then addShort 0.25 [RsiOverbought r] sc
      else if Qltb 50 r then addLong 0.1 [] sc
      else addShort 0.1 [] sc
  | None => sc
  end.

Definition scoreADX (ind : IndicatorResult) (sc : Score) : Score :=
  match adx ind with
  | Some a =>
      if Qltb DERIV_CONFIG.ADX_TREND_THRESHOLD a then
        let trendBonus := Math_min 0.2 ((a - 25) / 100) in
        if Qltb (shortScore sc) (longScore sc)
        then addLong trendBonus [StrongTrend a] sc
        else addShort trendBonus [StrongTrend a] sc
      else sc
  | None => sc
  end.

Definition scoreBollinger (price : number) (ind : IndicatorResult) (sc : Score) : Score :=
  match bollingerUpper ind, bollingerLower ind with
  | Some up, Some low =>
      let bandwidth := up - low in
      if divLt (price - low) bandwidth 0.1 then addLong 0.2 [LowerBand] sc
      else if divGt (price - low) bandwidth 0.9 then addShort 0.2 [UpperBand] sc
      else sc
  | _, _ => sc
  end.

Definition scoreMACD (ind : IndicatorResult) (sc : Score) : Score :=
  match macd ind with
  | Some (macdLine, signalLine, histogram) =>
      if Qltb 0 histogram && Qltb signalLine macdLine
      then addLong 0.15 [MacdBullish] sc
      else if Qltb histogram 0 && Qltb macdLine signalLine
      then addShort 0.15 [MacdBearish] sc
      else sc
  | None => sc
  end.

Definition scoreAverages (price : number) (ind : IndicatorResult) (sc : Score) : Score :=
  match sma ind, ema ind with
  | Some sm, Some em =>
      if Qltb sm price && Qltb sm em then addLong 0.1 [AboveSma] sc
      else if Qltb price sm && Qltb em sm then addShort 0.1 [BelowSma] sc
      else sc
  | _, _ => sc
  end.

(** Returns [(probability, direction, reasons)]; the argument [symbol] of
    the source only feeds the text of the rationale. *)
Definition calculateTradeProbability (price : number) (ind : IndicatorResult)
  : number * Direction * list Reason :=
  let sc := {| longScore := 0; shortScore := 0; reasons := [] |} in
  let sc := scoreRSI ind sc in
  let sc := scoreADX ind sc in
  let sc := scoreBollinger price ind sc in
  let sc := scoreMACD ind sc in
  let sc := scoreAverages price ind sc in
  let direction := if Qle_bool (shortScore sc) (longScore sc) then LONG else SHORT in
  let maxScore := Math_max (longScore sc) (shortScore sc) in
  let probability := Math_min 0.95 (maxScore + 0.4) in
  (probability, direction, reasons sc).

(** [executeTrade(signal)] up to its [await]: the pending position is
    created and stored, and the order is handed to the venue. *)
Definition executeTrade (now : Z) (sg : TradeSignal) (e : State) : State :=
  let tradeId := sig_symbol sg +:+ "_" +:+ directionName (sig_direction sg)
                   +:+ "_" +:+ pretty now in
  let trade :=
    {| id := tradeId; symbol := sig_symbol sg; direction := sig_direction sg;
       entryPrice := 0; currentPrice := 0; stake := currentStake e; profit := 0;
       status := pending; openTime := now; closeTime := None; result := None |} in
  let ref := length (trades e) in
  let e := set_trades (trades e ++ [trade]) e in
  let e := set_activeTrades (<[tradeId := ref]> (activeTrades e)) e in
  let e := log now log_trade (Some (sig_symbol sg)) e in
  let contractType := match sig_direction sg with LONG => CALL | SHORT => PUT end in
  set_orders (orders e ++ [{| order_trade := ref; order_symbol := sig_symbol sg;
                              order_contractType := contractType;
                              order_amount := currentStake e |}]) e.

Section WithSqrt.
Context (sqrt : number -> number).

Definition analyzeSymbol (now : Z) (symbol : string) (currentPrice : number)
    (e : State) : State :=
  if isPaused (stats e) then e
  else
    let history := default [] (priceHistory e !! symbol) in
    let ind := calculateAllIndicators sqrt history None None in
    let '(probability, direction, reasoning) :=
      calculateTradeProbability currentPrice ind in
    let adjustment := orZero (symbolAdjustments e !! symbol) in
    let adjustedProbability := Math_max 0 (Math_min 1 (probability - adjustment)) in
    if Qle_bool DERIV_CONFIG.MIN_PROBABILITY adjustedProbability then
      let sg := {| sig_symbol := symbol; sig_direction := direction;
                   probability := adjustedProbability; reasoning := reasoning;
                   indicators := ind; timestamp := now |} in
      let e := log now log_signal (Some symbol) e in
      let e := set_signals (signals e ++ [sg]) e in
      match activeTrades e !! (symbol +:+ "_" +:+ directionName direction) with
      | Some _ => e
      | None => executeTrade now sg e
      end
    else e.

Definition handleTick (now : Z) (tick : TickUpdate) (e : State) : State :=
  if negb (isRunning e) then e
  else
    let history := default [] (priceHistory e !! tick_symbol tick) ++ [quote tick] in
    let history := if (HISTORY_SIZE <? length history)%nat then drop 1 history
                   else history in
    let e := set_priceHistory (<[tick_symbol tick := history]> (priceHistory e)) e in
    let e := updateActiveTrades tick e in
    if (30 <=? length history)%nat
    then analyzeSymbol now (tick_symbol tick) (quote tick) e
    else e.

End WithSqrt.

(** What the awaited [derivWS.buyContract] produced for [executeTrade]. *)
Inductive BuyOutcome :=
| Returned (result : Venue.TradeResult)
| Threw.

(** [executeTrade] from its [await] on; [ref] is the [trade] object the
    suspended call holds, whose [id] is the key it stored it under. *)
Definition executeTradeResume (now : Z) (ref : nat) (outcome : BuyOutcome)
    (e : State) : State :=
  match trades e !! ref with
  | None => e
  | Some tr =>
      let succeeded :=
        match outcome with Returned r => Venue.success r | Threw => false end in
      let e :=
        if succeeded then
          let entry := orZero (priceHistory e !! symbol tr ≫= last) in
          let e := set_trades
                     (alter (fun t => trade_entryPrice entry (trade_status open t))
                            ref (trades e)) e in
          log now log_trade (Some (symbol tr)) e
        else
          let e := set_trades (alter (trade_status closed) ref (trades e)) e in
          let e := set_activeTrades (delete (id tr) (activeTrades e)) e in
          log now log_error (Some (symbol tr)) e in
      updateStats e
  end.

Definition pauseForCalibration (now : Z) (e : State) : State :=
  let e := set_stats
             (stats_pauseReason (Some "Market Calibration - Win rate below threshold")
                (stats_isPaused true (stats e))) e in
  let e := log now log_warning None e in
  let e := set_symbolAdjustments ∅ e in
  let e := set_pauseTimers
             (pauseTimers e ++ [(now + DERIV_CONFIG.CALIBRATION_PAUSE_MS)%Z]) e in
  updateStats e.

(** The callback given to [setTimeout] by [pauseForCalibration]. *)
Definition calibrationComplete (now : Z) (e : State) : State :=
  let e := set_stats (stats_pauseReason None (stats_isPaused false (stats e))) e in
  let e := log now log_info None e in
  updateStats e.

(** The oldest calibration timeout fires once it is due. *)
Definition runTimer (now : Z) (e : State) : State :=
  match pauseTimers e with
  | due :: rest =>
      if (due <=? now)%Z then calibrationComplete now (set_pauseTimers rest e) else e
  | [] => e
  end.

(** The test that guards [pauseForCalibration] in [closeTrade]. *)
Definition belowFloor (s : TradingStats) : bool :=
  (10 <=? totalTrades s)%nat && Qltb (winRate s) DERIV_CONFIG.WIN_RATE_FLOOR.

(** [closeTrade] from the lookup of the position to the update of the win
    rate; [ref] is the object found under [tradeId]. *)
Definition recordOutcome (now : Z) (tradeId : string) (ref : nat) (res : TradeOutcome)
    (pnl : number) (e : State) : State :=
  let sym := default "" (symbol <$> trades e !! ref) in
  let e := set_trades
             (alter (fun t => trade_profit pnl
                                (trade_result (Some res)
                                   (trade_closeTime (Some now)
                                      (trade_status closed t))))
                    ref (trades e)) e in
  let e := set_tradeJournal (tradeJournal e ++ [ref]) e in
  let e := set_activeTrades (delete tradeId (activeTrades e)) e in
  let e := set_stats (stats_totalTrades (S (totalTrades (stats e))) (stats e)) e in
  let e :=
    match res with
    | win =>
        let e := set_stats (stats_wins (S (wins (stats e))) (stats e)) e in
        log now log_trade (Some sym) e
    | loss =>
        let e := set_stats (stats_losses (S (losses (stats e))) (stats e)) e in
        let e := log now log_trade (Some sym) e in
        let currentAdj := orZero (symbolAdjustments e !! sym) in
        let e := set_symbolAdjustments
                   (<[sym := currentAdj + 0.02]> (symbolAdjustments e)) e in
        log now log_ai (Some sym) e
    end in
  let e := set_stats (stats_totalProfit (totalProfit (stats e) + pnl) (stats e)) e in
  let rate := if (0 <? totalTrades (stats e))%nat
              then QofNat (wins (stats e)) / QofNat (totalTrades (stats e))
              else 0 in
  set_stats (stats_winRate rate (stats e)) e.

Definition closeTrade (now : Z) (tradeId : string) (res : TradeOutcome) (pnl : number)
    (e : State) : State :=
  match activeTrades e !! tradeId with
  | None => e
  | Some ref =>
      let e := recordOutcome now tradeId ref res pnl e in
      let e := if belowFloor (stats e) then pauseForCalibration now e else e in
      updateStats e
  end.

Definition setStake (now : Z) (stake : number) (e : State) : State :=
  let e := set_currentStake
             (Math_max DERIV_CONFIG.DEFAULT_STAKE (Math_min DERIV_CONFIG.MAX_STAKE stake)) e in
  log now log_info None e.

(** [symbolAdjustments.get(symbol) || 0] *)
Definition adjustmentOf (symbol : string) (e : State) : number :=
  orZero (symbolAdjustments e !! symbol).

(** Everything that makes the engine move.  A tick reaches [handleTick] once
    per handler that [start] has registered.  [EBuySettled ref outcome] is
    the settlement of the order submitted for the position object [ref];
    the model accepts it for any [ref], which only adds behaviours. *)
Inductive Event :=
| EStart
| EStop
| ETick (tick : TickUpdate)
| EBuySettled (ref : nat) (outcome : BuyOutcome)
| ECloseTrade (tradeId : string) (res : TradeOutcome) (pnl : number)
| ETimer
| ESetStake (stake : number).

Definition step (sqrt : number -> number) (now : Z) (ev : Event) (e : State) : State :=
  match ev with
  | EStart => start now e
  | EStop => stop now e
  | ETick tick => Nat.iter (tickRegistrations e) (handleTick sqrt now tick) e
  | EBuySettled ref outcome => executeTradeResume now ref outcome e
  | ECloseTrade tradeId res pnl => closeTrade now tradeId res pnl e
  | ETimer => runTimer now e
  | ESetStake stake => setStake now stake e
  end.

(** Runs a timed script of events from a state. *)
Definition run (sqrt : number -> number) (script : list (Z * Event)) (e : State) : State :=
  fold_left (fun e '(now, ev) => step sqrt now ev e) script e.

Inductive reachable (sqrt : number -> number) : State -> Prop :=
| reachable_initial : reachable sqrt initial
| reachable_step now ev e :
    reachable sqrt e -> reachable sqrt (step sqrt now ev e).

(** *** Vocabulary of the statements *)

(** [+1] for a long position, [-1] for a short one. *)
Definition directionSign (d : Direction) : number :=
  match d with LONG => 1 | SHORT => -1 end.

(** The objects a [forEach] over the map entries has visited. *)
Definition touchAll (tick : TickUpdate) (refs : list nat) (ts : list Trade) : list Trade :=
  fold_left (fun ts r => alter (markToMarket tick) r ts) refs ts.

(** The position [executeTrade] creates. *)
Definition pendingTrade (sym : string) (d : Direction) (now : Z) (stk : number) : Trade :=
  {| id := sym +:+ "_" +:+ directionName d +:+ "_" +:+ pretty now; symbol := sym;
     direction := d; entryPrice := 0; currentPrice := 0; stake := stk; profit := 0;
     status := pending; openTime := now; closeTime := None; result := None |}.

(** The order [executeTrade] hands to the venue for the position at [ref]. *)
Definition orderOf (ref : nat) (sym : string) (d : Direction) (stk : number) : Order :=
  {| order_trade := ref; order_symbol := sym;
     order_contractType := match d with LONG => CALL | SHORT => PUT end;
     order_amount := stk |}.

(** What [handleTick] reads of the state besides the positions. *)
Definition core (e : State) :=
  (priceHistory e, stats e, isRunning e, currentStake e, symbolAdjustments e,
   tickRegistrations e).

(** A calibration pause begins between [e] and [e']. *)
Definition pauseBegins (now : Z) (e e' : State) : Prop :=
  isPaused (stats e') = true
  /\ pauseTimers e' = pauseTimers e ++ [(now + DERIV_CONFIG.CALIBRATION_PAUSE_MS)%Z].


(** Every adjustment is non-negative. *)
Definition adjustmentsOk (e : State) : Prop :=
  forall sym, 0 <= adjustmentOf sym e.

(** *** Scenarios *)

(** A running engine holding one open long position on [R_10], entered
    at 100. *)
Definition openLong100 : State :=
  set_activeTrades {[ "R_10_LONG_1000" := 0%nat ]}
    (set_trades
       [{| id := "R_10_LONG_1000"; symbol := "R_10"; direction := LONG;
           entryPrice := 100; currentPrice := 100; stake := 1; profit := 0;
           status := open; openTime := 1000; closeTime := None; result := None |}]
       (set_isRunning true initial)).

Definition tick103 : TickUpdate :=
  {| tick_symbol := "R_10"; quote := 103; epoch := 2 |}.


(** The engine is started at instant 1000, then ticks arrive on [R_10], one
    per millisecond, the quote falling by one each time: 199, 198, ... *)
Definition fallingTick (i : nat) : Z * Event :=
  (Z.of_nat (1000 + i),
   ETick {| tick_symbol := "R_10"; quote := QofNat (200 - i); epoch := Z.of_nat i |}).

Definition fallingScript (n : nat) : list (Z * Event) :=
  (1000%Z, EStart) :: map fallingTick (seq 1 n).

(** *** Vocabulary of the statements about runs *)

(** The history [handleTick] stores for the instrument of a tick: the quote
    is appended and the list cut back to the newest [HISTORY_SIZE]. *)
Definition pushed (tick : TickUpdate) (e : State) : list number :=
  let history := default [] (priceHistory e !! tick_symbol tick) ++ [quote tick] in
  if (HISTORY_SIZE <? length history)%nat then drop 1 history else history.

(** Between the smallest and the largest stake of the configuration. *)
Definition withinLimits (x : number) : Prop :=
  DERIV_CONFIG.DEFAULT_STAKE <= x /\ x <= DERIV_CONFIG.MAX_STAKE.

(** The counters of the statistics agree with each other and with the
    journal, and the win rate is the quotient of two of them. *)
Definition tallied (e : State) : Prop :=
  totalTrades (stats e) = (wins (stats e) + losses (stats e))%nat
  /\ totalTrades (stats e) = length (tradeJournal e)
  /\ winRate (stats e)
     = if (0 <? totalTrades (stats e))%nat
       then (QofNat (wins (stats e)) / QofNat (totalTrades (stats e)))%js
       else 0.

(** What holds of the engine between any two events. *)
Record Sound (e : State) : Prop := {
  history_bounded :
    forall sym h, priceHistory e !! sym = Some h -> (length h <= HISTORY_SIZE)%nat;
  stake_limited : withinLimits (currentStake e);
  orders_limited : Forall (fun o => withinLimits (order_amount o)) (orders e);
  signals_bounded :
    Forall (fun sg => DERIV_CONFIG.MIN_PROBABILITY <= probability sg
                      /\ probability sg <= 0.95) (signals e);
  stats_tallied : tallied e;
  adjustments_ok : adjustmentsOk e;
}.

(** Runs of the engine are reachable states. *)
Definition after (sqrt : number -> number) (script : list (Z * Event)) : State :=
  run sqrt script initial.

(** The awaited order came back as a success. *)
Definition succeeded (outcome : BuyOutcome) : bool :=
  match outcome with Returned r => Venue.success r | Threw => false end.

(** [start], [stop] and [start] again. *)
Definition restarted (t1 t2 t3 : Z) (e : State) : State :=
  start t3 (stop t2 (start t1 e)).

(** *** Overlapping calibration pauses *)





(** *** The adjustment on IEEE doubles *)






(** *** Positions as the settlement of their order leaves them *)


End Engine.

(** ** The market scanner (component [MarketScanner]) *)
Module Scanner.

Import Indicators.

Inductive Signal := long | short | neutral.

Record MarketData := {
  symbol : string;
  name : string;
  price : number;
  change : number;
  changePercent : number;
  rsi : option number;
  adx : option number;
  signal : Signal;
  strength : number;
  history : list number;
}.

Section WithSqrt.
Context (sqrt : number -> number).

(** The signal and strength read off the RSI. *)
Definition rsiSignal (rsi : option number) : Signal * number :=
  match rsi with
  | Some r =>
      if Qltb r 30 then (long, Math_min 100 ((30 - r) * 3))
      else if Qltb 70 r then (short, Math_min 100 ((r - 70) * 3))
      else (neutral, 0)
  | None => (neutral, 0)
  end.

(** The override by the Bollinger bands. *)
Definition bandSignal (quote : number) (bollinger : option Bands)
    (current : Signal * number) : Signal * number :=
  match bollinger with
  | Some b =>
      if Qle_bool quote (lower b) then (long, Math_max current.2 70)
      else if Qle_bool (upper b) quote then (short, Math_max current.2 70)
      else current
  | None => current
  end.

(** The card the tick handler stores for a symbol it knows. *)
Definition refresh (quote : number) (existing : MarketData) : MarketData :=
  let history := lastN 50 (history existing ++ [quote]) in
  let prevPrice := if Qeq_bool (price existing) 0 then quote else price existing in
  let change := quote - prevPrice in
  let changePercent := if Qltb 0 prevPrice then change / prevPrice * 100 else 0 in
  let rsi := if (15 <=? length history)%nat then calculateRSI history 14 else None in
  let adx := if (28 <=? length history)%nat
             then calculateADX history history history 14 else None in
  let bollinger := if (20 <=? length history)%nat
                   then calculateBollingerBands sqrt history 20 2 else None in
  let result := bandSignal quote bollinger (rsiSignal rsi) in
  {| symbol := symbol existing; name := name existing; price := quote;
     change := change; changePercent := changePercent; rsi := rsi; adx := adx;
     signal := result.1; strength := result.2; history := history |}.

(** The updater the tick handler gives to [setMarkets]. *)
Definition handler (tickSymbol : string) (quote : number)
    (markets : gmap string MarketData) : gmap string MarketData :=
  match markets !! tickSymbol with
  | Some existing => <[tickSymbol := refresh quote existing]> markets
  | None => markets
  end.

End WithSqrt.

End Scanner.

(** * Properties *)

(** ** Numbers *)

Lemma Qltb_lt (x y : Q) : Qltb x y = true <-> x < y.
Proof.
  unfold Qltb. rewrite negb_true_iff. split.
  - intros H. apply Qnot_le_lt. intros Hle. apply Qle_bool_iff in Hle. congruence.
  - intros H. destruct (Qle_bool y x) eqn:E; [|done].
    apply Qle_bool_iff in E. exfalso. apply (Qlt_not_le _ _ H E).
Qed.

Lemma Qltb_ge (x y : Q) : Qltb x y = false <-> y <= x.
Proof. unfold Qltb. rewrite negb_false_iff. apply Qle_bool_iff. Qed.

(** The operations of [number] denote the rational operations. *)
Lemma qadd_spec x y : qadd x y == (x + y)%Q.
Proof. apply Qred_correct. Qed.
Lemma qsub_spec x y : qsub x y == (x - y)%Q.
Proof. apply Qred_correct. Qed.
Lemma qmul_spec x y : qmul x y == (x * y)%Q.
Proof. apply Qred_correct. Qed.
Lemma qdiv_spec x y : qdiv x y == (x / y)%Q.
Proof. apply Qred_correct. Qed.

#[global] Instance qadd_wd : Proper (Qeq ==> Qeq ==> Qeq) qadd.
Proof. intros a b H c d H'. by rewrite !qadd_spec, H, H'. Qed.
#[global] Instance qsub_wd : Proper (Qeq ==> Qeq ==> Qeq) qsub.
Proof. intros a b H c d H'. by rewrite !qsub_spec, H, H'. Qed.
#[global] Instance qmul_wd : Proper (Qeq ==> Qeq ==> Qeq) qmul.
Proof. intros a b H c d H'. by rewrite !qmul_spec, H, H'. Qed.
#[global] Instance qdiv_wd : Proper (Qeq ==> Qeq ==> Qeq) qdiv.
Proof. intros a b H c d H'. by rewrite !qdiv_spec, H, H'. Qed.

Ltac unjs :=
  unfold number, Math_abs, Math_max, Math_min in *;
  rewrite ?qadd_spec, ?qsub_spec, ?qmul_spec, ?qdiv_spec in *.

Lemma QofNat_pos (n : nat) : (1 <= n)%nat -> 1 <= QofNat n.
Proof. intros H. unfold QofNat, Qle. simpl. lia. Qed.

Lemma Qdiv_nonneg (a p : Q) : 0 <= a -> 0 < p -> 0 <= (a / p)%Q.
Proof. intros Ha Hp. apply Qle_shift_div_l; [done|]. lra. Qed.

Lemma qdiv_nonneg (a p : Q) : 0 <= a -> 0 < p -> 0 <= qdiv a p.
Proof. intros. rewrite qdiv_spec. by apply Qdiv_nonneg. Qed.

Lemma orZero_Some (x : number) : orZero (Some x) == x.
Proof.
  unfold orZero. destruct (Qeq_bool x 0) eqn:E; [|reflexivity].
  apply Qeq_bool_iff in E. by rewrite E.
Qed.

Lemma orNull_zero (x : number) : x == 0 -> orNull x = None.
Proof. intros H. unfold orNull. apply Qeq_bool_iff in H. by rewrite H. Qed.

(** Loop invariants of a [for] loop written as [fold_left]. *)
Lemma fold_left_inv {A B} (P : A -> Prop) (f : A -> B -> A) (l : list B) (a : A) :
  (forall a b, P a -> P (f a b)) -> P a -> P (fold_left f l a).
Proof. intros Hf. revert a. induction l as [|b l IH]; simpl; auto. Qed.

Lemma fold_left_Forall_inv {A B} (P : A -> Prop) (R : B -> Prop) (f : A -> B -> A)
    (l : list B) (a : A) :
  (forall a b, R b -> P a -> P (f a b)) -> Forall R l -> P a -> P (fold_left f l a).
Proof.
  intros Hf Hl. revert a. induction Hl as [|b l Hb Hl IH]; simpl; auto.
Qed.

Lemma sum_zero (xs : list number) : Forall (fun x => x == 0) xs -> sum xs == 0.
Proof.
  unfold sum. intros H.
  apply (fold_left_Forall_inv (fun a => a == 0) (fun x => x == 0)); [|done|reflexivity].
  intros a b Hb Ha. rewrite qadd_spec, Ha, Hb. reflexivity.
Qed.

Lemma app_singleton_neq {A} (l : list A) (x : A) : l ≠ l ++ [x].
Proof.
  intros H. apply (f_equal length) in H. rewrite length_app in H. simpl in H. lia.
Qed.

(** ** Indicator library *)
Module IndicatorFacts.

Import Indicators.

Lemma rsiSeed_ok acc c : avgOk acc -> avgOk (rsiSeed acc c).
Proof.
  intros [Hg Hl]. unfold rsiSeed.
  destruct (Qltb 0 c) eqn:E; split; cbn [fst snd]; try done; unjs.
  - apply Qltb_lt in E. lra.
  - pose proof (Qabs_nonneg c). lra.
Qed.

Lemma rsiSmooth_ok period acc c :
  (1 <= period)%nat -> avgOk acc -> avgOk (rsiSmooth period acc c).
Proof.
  intros Hp [Hg Hl]. apply QofNat_pos in Hp.
  pose proof (Qabs_nonneg c) as Habs.
  unfold rsiSmooth.
  destruct (Qltb 0 c) eqn:E; split; cbn [fst snd]; apply qdiv_nonneg; try lra; unjs.
  - apply Qltb_lt in E. nra.
  - nra.
  - nra.
  - nra.
Qed.

Lemma rsiAverages_ok data period :
  (1 <= period)%nat -> avgOk (rsiAverages data period).
Proof.
  intros Hp. unfold rsiAverages.
  apply fold_left_inv; [intros; by apply rsiSmooth_ok|].
  assert (avgOk (fold_left rsiSeed (take period (changes data)) (0, 0))) as [Hg Hl].
  { apply fold_left_inv; [intros; by apply rsiSeed_ok|]. split; simpl; lra. }
  apply QofNat_pos in Hp.
  split; cbn [fst snd]; (apply qdiv_nonneg; [assumption|lra]).
Qed.

Lemma rsi_formula_range (g l : Q) :
  0 <= g -> 0 < l ->
  0 <= qsub 100 (qdiv 100 (qadd 1 (qdiv g l)))
  /\ qsub 100 (qdiv 100 (qadd 1 (qdiv g l))) <= 100.
Proof.
  intros Hg Hl. unjs.
  assert (0 <= g / l)%Q as Hrs by (apply Qdiv_nonneg; done).
  assert (0 <= 100 / (1 + g / l))%Q by (apply Qdiv_nonneg; lra).
  assert (100 / (1 + g / l) <= 100)%Q by (apply Qle_shift_div_r; lra).
  lra.
Qed.

Lemma changes_nonneg data : nonDecreasing data -> Forall (fun c => 0 <= c) (changes data).
Proof.
  induction data as [|a [|b rest] IH]; simpl; try constructor.
  - rewrite qsub_spec. lra.
  - apply IH. tauto.
Qed.

Lemma rsiSeed_noLoss acc c : 0 <= c -> noLoss acc -> noLoss (rsiSeed acc c).
Proof.
  unfold noLoss, rsiSeed. intros Hc Hl.
  destruct (Qltb 0 c) eqn:E; cbn [fst snd]; [done|]. unjs.
  apply Qltb_ge in E. assert (c == 0) as -> by lra. rewrite Hl. reflexivity.
Qed.

Lemma rsiSmooth_noLoss period acc c :
  0 <= c -> noLoss acc -> noLoss (rsiSmooth period acc c).
Proof.
  unfold noLoss, rsiSmooth. intros Hc Hl.
  destruct (Qltb 0 c) eqn:E; cbn [fst snd]; unjs.
  - rewrite Hl. unfold Qdiv. ring.
  - apply Qltb_ge in E. assert (c == 0) as -> by lra. rewrite Hl.
    change (Qabs 0) with 0. unfold Qdiv. ring.
Qed.

Lemma rsiAverages_noLoss data period :
  nonDecreasing data -> snd (rsiAverages data period) == 0.
Proof.
  intros Hnd. apply changes_nonneg in Hnd.
  unfold rsiAverages.
  apply (fold_left_Forall_inv noLoss (fun c => 0 <= c)).
  - intros; by apply rsiSmooth_noLoss.
  - by apply Forall_drop.
  - assert (noLoss (fold_left rsiSeed (take period (changes data)) (0, 0))) as H.
    { apply (fold_left_Forall_inv noLoss (fun c => 0 <= c)).
      - intros; by apply rsiSeed_noLoss.
      - by apply Forall_take.
      - reflexivity. }
    unfold noLoss in *. cbn [fst snd]. unjs. rewrite H. unfold Qdiv. ring.
Qed.

(** C8: for a window of at least one change and a series of at least
    [period + 1] prices, [calculateRSI] returns a number between 0 and 100;
    it returns exactly 100 whenever the smoothed average loss is zero, which
    is the case of every series that never falls. *)
Theorem calculateRSI_range (data : list number) (period : nat) :
  (1 <= period)%nat -> (period + 1 <= length data)%nat ->
  (exists r, calculateRSI data period = Some r /\ 0 <= r /\ r <= 100)
  /\ (snd (rsiAverages data period) == 0 -> calculateRSI data period = Some 100)
  /\ (nonDecreasing data -> calculateRSI data period = Some 100).
Proof.
  intros Hp Hlen.
  assert (snd (rsiAverages data period) == 0 -> calculateRSI data period = Some 100)
    as Hzero.
  { intros Hz. unfold calculateRSI.
    destruct (Nat.ltb_spec (length data) (period + 1)); [lia|].
    destruct (rsiAverages data period) as [g l]. cbn [snd] in Hz.
    apply Qeq_bool_iff in Hz. cbn beta iota. by rewrite Hz. }
  split; [|split; [done|]].
  - pose proof (rsiAverages_ok data period Hp) as [Hg Hl].
    unfold calculateRSI.
    destruct (Nat.ltb_spec (length data) (period + 1)); [lia|].
    destruct (rsiAverages data period) as [g l]. cbn [fst snd] in Hg, Hl.
    cbn beta iota. destruct (Qeq_bool l 0) eqn:E.
    + eexists; split; [done|]. lra.
    + apply Qeq_bool_neq in E.
      eexists; split; [done|]. apply rsi_formula_range; [done|].
      destruct (Qlt_le_dec 0 l); [done|]. exfalso. apply E. lra.
  - intros Hnd. by apply Hzero, rsiAverages_noLoss.
Qed.

Lemma calculateRSI_range_witness : calculateRSI (rising 15) 14 = Some 100.
Proof.
  apply (calculateRSI_range (rising 15) 14).
  - lia.
  - unfold rising. rewrite length_map, length_seq. lia.
  - vm_compute. repeat split; discriminate.
Defined.

Lemma adxStep_dx_positive period st bar :
  0 < diSumOf (smoothedTR (adxStep period st bar))
              (smoothedPlusDM (adxStep period st bar))
              (smoothedMinusDM (adxStep period st bar)) ->
  length (dx (adxStep period st bar)) = S (length (dx st)).
Proof.
  destruct bar as [[tr pdm] mdm]. unfold adxStep, diSumOf.
  cbn [smoothedTR smoothedPlusDM smoothedMinusDM dx].
  intros H. apply Qltb_lt in H. rewrite H. rewrite length_app. simpl. lia.
Qed.

Lemma adxStep_dx_skip period st bar :
  ~ 0 < diSumOf (smoothedTR (adxStep period st bar))
                (smoothedPlusDM (adxStep period st bar))
                (smoothedMinusDM (adxStep period st bar)) ->
  dx (adxStep period st bar) = dx st.
Proof.
  destruct bar as [[tr pdm] mdm]. unfold adxStep, diSumOf.
  cbn [smoothedTR smoothedPlusDM smoothedMinusDM dx].
  intros H. destruct (Qltb 0 _) eqn:E; [|done]. apply Qltb_lt in E. contradiction.
Qed.

Lemma adxStep_dx_le period st bar :
  (length (dx (adxStep period st bar)) <= S (length (dx st)))%nat.
Proof.
  destruct bar as [[tr pdm] mdm]. unfold adxStep. cbn [dx].
  destruct (Qltb 0 _); [rewrite length_app; simpl|]; lia.
Qed.

Lemma adxFold_dx_length period bars : forall st,
  Forall (fun s => 0 < s) (diSumsFrom period st bars) ->
  length (dx (fold_left (adxStep period) bars st)) = (length (dx st) + length bars)%nat.
Proof.
  induction bars as [|bar bars IH]; intros st H; simpl in *; [lia|].
  inversion H as [|? ? Hpos Hrest]; subst.
  rewrite IH by done. rewrite adxStep_dx_positive by done. lia.
Qed.

Lemma adxFold_dx_le period bars : forall st,
  (length (dx (fold_left (adxStep period) bars st)) <= length (dx st) + length bars)%nat.
Proof.
  induction bars as [|bar bars IH]; intros st; simpl; [lia|].
  specialize (IH (adxStep period st bar)).
  pose proof (adxStep_dx_le period st bar). lia.
Qed.

Lemma adxBars_length highs lows closes :
  length (adxBars highs lows closes) = (length highs - 1)%nat.
Proof. unfold adxBars. by rewrite length_map, length_seq. Qed.

(** C9, as amended: [calculateADX] is unavailable below [2 * period] bars
    and still unavailable at exactly [2 * period] bars, since the smoothing
    loop then yields at most [period - 1] directional indices; from
    [2 * period + 1] bars on, equal-length inputs whose DI sums are all
    positive get a value; and a step whose DI sum is not positive pushes
    nothing onto [dx]. *)
Theorem calculateADX_window (highs lows closes : list number) (period : nat) :
  length lows = length highs -> length closes = length highs ->
  ((length highs < period * 2)%nat -> calculateADX highs lows closes period = None)
  /\ ((1 <= period)%nat -> length highs = (period * 2)%nat ->
      calculateADX highs lows closes period = None)
  /\ ((1 <= period)%nat -> (period * 2 + 1 <= length highs)%nat ->
      Forall (fun s => 0 < s) (diSums highs lows closes period) ->
      is_Some (calculateADX highs lows closes period))
  /\ (forall st bar,
        ~ 0 < diSumOf (smoothedTR (adxStep period st bar))
                      (smoothedPlusDM (adxStep period st bar))
                      (smoothedMinusDM (adxStep period st bar)) ->
        dx (adxStep period st bar) = dx st).
Proof.
  intros _ _. repeat split.
  - intros Hlt. unfold calculateADX.
    destruct (Nat.ltb_spec (length highs) (period * 2)); [done|lia].
  - intros Hp Hlen. unfold calculateADX.
    destruct (Nat.ltb_spec (length highs) (period * 2)); [done|].
    pose proof (adxFold_dx_le period (drop period (adxBars highs lows closes))
                  (adxInit period (adxBars highs lows closes))) as Hle.
    rewrite length_drop, adxBars_length in Hle. cbn [adxInit dx length] in Hle.
    unfold adxLoop.
    destruct (Nat.ltb_spec
      (length (dx (fold_left (adxStep period) (drop period (adxBars highs lows closes))
                     (adxInit period (adxBars highs lows closes))))) period); [done|lia].
  - intros Hp Hlen Hpos. unfold calculateADX.
    destruct (Nat.ltb_spec (length highs) (period * 2)); [lia|].
    unfold diSums in Hpos. apply adxFold_dx_length in Hpos.
    rewrite length_drop, adxBars_length in Hpos. cbn [adxInit dx length] in Hpos.
    unfold adxLoop.
    destruct (Nat.ltb_spec
      (length (dx (fold_left (adxStep period) (drop period (adxBars highs lows closes))
                     (adxInit period (adxBars highs lows closes))))) period); [lia|done].
  - apply adxStep_dx_skip.
Qed.

Lemma calculateADX_window_witness :
  is_Some (calculateADX (rising 29) (rising 29) (rising 29) 14).
Proof.
  apply (calculateADX_window (rising 29) (rising 29) (rising 29) 14 eq_refl eq_refl).
  - lia.
  - unfold rising. rewrite length_map, length_seq. lia.
  - vm_compute. repeat constructor.
Defined.

(** C9 as stated fails: 28 rising bars are [2 * 14] bars of equal length
    whose DI sums are all 100, and [calculateADX] is unavailable on them. *)
Lemma calculateADX_two_periods_unavailable :
  ~ (forall (highs lows closes : list number) (period : nat),
       length lows = length highs -> length closes = length highs ->
       (period * 2 <= length highs)%nat ->
       Forall (fun s => ~ s == 0) (diSums highs lows closes period) ->
       is_Some (calculateADX highs lows closes period)).
Proof.
  intros H.
  assert (calculateADX (rising 28) (rising 28) (rising 28) 14 = None) as E
    by (vm_compute; reflexivity).
  assert (Forall (fun s => ~ s == 0) (diSums (rising 28) (rising 28) (rising 28) 14))
    as Hnz.
  { assert (diSums (rising 28) (rising 28) (rising 28) 14 = replicate 13 (100 # 1)) as ->.
    { vm_compute. reflexivity. }
    apply Forall_replicate. discriminate. }
  specialize (H (rising 28) (rising 28) (rising 28) 14%nat eq_refl eq_refl).
  rewrite E in H. apply (is_Some_None (A:=number)), H; [|done].
  unfold rising. rewrite length_map, length_seq. lia.
Qed.

(** C10: a band that [calculateBollingerBands] computes as 0 is reported as
    absent by [calculateAllIndicators]; in particular, when the last 20
    prices are all 0 the middle band is 0 and the snapshot has no middle
    band, although the history is long enough. *)
Theorem zero_band_is_absent (sqrt : number -> number) (prices : list number) :
  (forall b, calculateBollingerBands sqrt prices 20 2 = Some b ->
     (upper b == 0 -> bollingerUpper (calculateAllIndicators sqrt prices None None) = None)
     /\ (middle b == 0 ->
         bollingerMiddle (calculateAllIndicators sqrt prices None None) = None)
     /\ (lower b == 0 ->
         bollingerLower (calculateAllIndicators sqrt prices None None) = None))
  /\ ((20 <= length prices)%nat -> Forall (fun p => p == 0) (lastN 20 prices) ->
      exists b, calculateBollingerBands sqrt prices 20 2 = Some b
                /\ middle b == 0
                /\ bollingerMiddle (calculateAllIndicators sqrt prices None None) = None).
Proof.
  split.
  - intros b Hb. unfold calculateAllIndicators.
    cbn [bollingerUpper bollingerMiddle bollingerLower]. rewrite Hb.
    cbn [mbind option_bind].
    repeat split; apply orNull_zero.
  - intros Hlen Hzero.
    assert (exists b, calculateBollingerBands sqrt prices 20 2 = Some b /\ middle b == 0)
      as (b & Hb & Hmid).
    { unfold calculateBollingerBands.
      destruct (Nat.ltb_spec (length prices) 20); [lia|].
      eexists; split; [done|]. cbn [middle].
      rewrite qdiv_spec, (sum_zero _ Hzero). reflexivity. }
    exists b. repeat split; try done.
    unfold calculateAllIndicators. cbn [bollingerMiddle]. rewrite Hb.
    by apply orNull_zero.
Qed.

Lemma zero_band_is_absent_witness :
  exists b, calculateBollingerBands (fun x => x) (replicate 20 0) 20 2 = Some b
            /\ middle b == 0
            /\ bollingerMiddle
                 (calculateAllIndicators (fun x => x) (replicate 20 0) None None) = None.
Proof.
  apply (zero_band_is_absent (fun x => x) (replicate 20 0)).
  - simpl. lia.
  - vm_compute. repeat constructor.
Defined.

End IndicatorFacts.

(** ** Venue connection *)
Module VenueFacts.

Import Venue.

Lemma buy_key_differs (s : string) : "buy_" +:+ s ≠ "buy".
Proof. discriminate. Qed.

(** C2: the handler of [buyContract] deletes the key [buy_<reqId>], which
    is never the key [buy] it was registered under, so it stays in the
    table.  After two orders, each answered before its timeout, both
    promises are settled, two handlers are held under [buy] and the first
    one has fired twice.  The handler of [sellContract] is still held after
    the timeout of an unanswered request has settled its promise. *)
Theorem buy_handlers_accumulate :
  (forall reqId p data c,
     messageHandlers (runHandler (BuyHandler reqId p) data c) !! "buy"
     = messageHandlers c !! "buy")
  /\ is_Some (promises twoBuys !! 0%nat) /\ is_Some (promises twoBuys !! 1%nat)
  /\ handlerCount "buy" twoBuys = 2%nat
  /\ firedCount 0 twoBuys = 2%nat
  /\ is_Some (promises sellTimedOut !! 0%nat)
  /\ handlerCount "sell" sellTimedOut = 1%nat.
Proof.
  split.
  - intros reqId p data c. unfold runHandler.
    destruct (buy data), (error_message data); cbn;
      apply lookup_delete_ne, buy_key_differs.
  - repeat split; vm_compute; eauto.
Qed.

End VenueFacts.

(** ** Trade execution queue *)
Module QueueFacts.

Import Venue Queue.

Lemma cancelAll_fold (ts : list QueuedTrade) : forall q,
  let q' := fold_left cancelOne ts q in
  resolutions q' = resolutions q
                   ++ map (fun t => Settled (withStatus cancelled t) cancelResult) ts
  /\ queue q' = queue q
  /\ symbolCooldowns q' = symbolCooldowns q
  /\ isThrottled q' = isThrottled q
  /\ throttleEndsAt q' = throttleEndsAt q
  /\ throttleNotes q' = throttleNotes q
  /\ statsNotes q' = statsNotes q
  /\ lastExecutionTime q' = lastExecutionTime q.
Proof.
  induction ts as [|t ts IH]; intros q; cbn.
  - by rewrite app_nil_r.
  - destruct (IH (cancelOne q t)) as (H1 & H2 & H3 & H4 & H5 & H6 & H7 & H8).
    rewrite H1, H2, H3, H4, H5, H6, H7, H8. cbn. by rewrite <- app_assoc.
Qed.

Lemma handleRateLimitError_spec now q :
  let q' := handleRateLimitError now q in
  isThrottled q' = true
  /\ throttleEndsAt q' = Some (now + RATE_LIMIT_BACKOFF_MS)%Z
  /\ queue q' = []
  /\ resolutions q' = resolutions q
                      ++ map (fun t => Settled (withStatus cancelled t) cancelResult) (queue q)
  /\ throttleNotes q' = throttleNotes q
       ++ [throttleMessage;
           "Queue cleared: " +:+ pretty (length (queue q)) +:+ " trades cancelled"]
  /\ symbolCooldowns q' = symbolCooldowns q
  /\ last (statsNotes q') =
       Some {| queueSize := 0;
               stats_pendingSymbols := elements (pendingSymbols q');
               stats_isThrottled := true;
               stats_throttleEndsAt := Some (now + RATE_LIMIT_BACKOFF_MS)%Z;
               stats_lastExecutionTime := lastExecutionTime q |}.
Proof.
  unfold handleRateLimitError. cbn zeta.
  match goal with
  | |- context [fold_left cancelOne ?ts ?q0] =>
      pose proof (cancelAll_fold ts q0) as (H1 & H2 & H3 & H4 & H5 & H6 & H7 & H8);
      remember (fold_left cancelOne ts q0) as q1 eqn:Eq1; clear Eq1;
      cbn in H1, H2, H3, H4, H5, H6, H7, H8
  end.
  unfold updateStats, getStats, notifyThrottle. cbn.
  rewrite H1, H2, H3, H4, H5, H6, H8, <- app_assoc. repeat split; try done.
  by rewrite last_snoc.
Qed.

Lemma cancelled_marks (ts : list QueuedTrade) :
  Forall2 (fun t t' => sameIntent t t' /\ status t' = cancelled)
    ts (map (withStatus cancelled) ts).
Proof. induction ts as [|t ts IH]; constructor; [by repeat split|done]. Qed.

Lemma cancelAll_pending (ts : list QueuedTrade) : forall q,
  pendingSymbols (fold_left cancelOne ts q)
  = pendingSymbols q ∖ list_to_set (symbol <$> ts).
Proof.
  induction ts as [|t ts IH]; intros q; cbn [fold_left].
  - cbn. by rewrite difference_empty_L.
  - rewrite IH. cbn. by rewrite difference_difference_l_L.
Qed.

Lemma handleRateLimitError_pending now q :
  pendingSymbols (handleRateLimitError now q)
  = pendingSymbols q ∖ list_to_set (symbol <$> queue q).
Proof.
  unfold handleRateLimitError. cbn zeta.
  match goal with
  | |- context [fold_left cancelOne ?ts ?q0] =>
      pose proof (cancelAll_pending ts q0) as H;
      remember (fold_left cancelOne ts q0) as q1 eqn:Eq1; clear Eq1
  end.
  cbn in *. exact H.
Qed.

Lemma rateLimited_spec r :
  rateLimited r = true <->
  success r = false /\ exists e, error r = Some e /\ isRateLimitMessage e = true.
Proof.
  unfold rateLimited. rewrite andb_true_iff, negb_true_iff. split.
  - intros [Hs He]. split; [done|]. destruct (error r) as [e|]; [|done].
    apply andb_true_iff in He as [_ He]. by exists e.
  - intros [Hs (e & -> & He)]. split; [done|]. rewrite He, andb_true_r.
    destruct e; [done|reflexivity].
Qed.

(** C4: when the venue answers the intent in flight with a failure whose
    message indicates rate limiting, the queue is throttled until
    [now + 5000] and emptied; for every intent that was queued, in order,
    [resolve] is called with a failure on that intent with its status now
    [cancelled] and every other field as it was; the intent in flight is
    resolved with the venue's result, its status now [failed]; and the
    throttle observers receive the throttle message and a count equal to
    the queue depth just before the flush. *)
Theorem rate_limit_flushes_queue (now : Z) (q : State) (A : QueuedTrade)
    (r : TradeResult) (e : string) :
  inFlight q = Some A ->
  success r = false -> error r = Some e -> isRateLimitMessage e = true ->
  let q' := completeExecution now (Returned r) q in
  isThrottled q' = true
  /\ throttleEndsAt q' = Some (now + RATE_LIMIT_BACKOFF_MS)%Z
  /\ queue q' = []
  /\ (exists (flushed : list QueuedTrade) (A' : QueuedTrade),
        resolutions q' =
          resolutions q ++ map (fun t => Settled t cancelResult) flushed
          ++ [Settled A' r]
        /\ Forall2 (fun t t' => sameIntent t t' /\ status t' = cancelled)
             (queue q) flushed
        /\ sameIntent A A' /\ status A' = failed)
  /\ success cancelResult = false
  /\ (forall t, t ∈ queue q -> symbol t ∉ pendingSymbols q')
  /\ throttleNotes q' =
       throttleNotes q
       ++ [throttleMessage;
           "Queue cleared: " +:+ pretty (length (queue q)) +:+ " trades cancelled"].
Proof.
  intros Hin Hs He Hrl q'. subst q'.
  assert (rateLimited r = true) as Hr by (apply rateLimited_spec; eauto).
  unfold completeExecution. rewrite Hin. unfold executeTrade. rewrite Hr.
  match goal with
  | |- context [handleRateLimitError now ?q0] =>
      pose proof (handleRateLimitError_spec now q0) as (H1 & H2 & H3 & H4 & H5 & _);
      pose proof (handleRateLimitError_pending now q0) as H6;
      remember (handleRateLimitError now q0) as q1 eqn:Eq1; clear Eq1;
      cbn in H1, H2, H3, H4, H5, H6
  end.
  cbn.
  rewrite H1, H2, H3, H4, H5, <- app_assoc. repeat split; try done.
  - exists (map (withStatus cancelled) (queue q)), (withStatus failed A).
    rewrite map_map. repeat split; try done. apply cancelled_marks.
  - intros t Ht Hx. apply elem_of_difference in Hx as [Hx _].
    rewrite H6 in Hx. apply elem_of_difference in Hx as [_ Hx].
    apply Hx, elem_of_list_to_set, list_elem_of_fmap. eauto.
Qed.

Lemma rate_limit_flushes_queue_witness :
  queue (completeExecution 3000 (Returned (failure "Rate limit exceeded")) executingA) = []
  /\ throttleEndsAt
       (completeExecution 3000 (Returned (failure "Rate limit exceeded")) executingA)
     = Some 8000%Z.
Proof.
  destruct (rate_limit_flushes_queue 3000 executingA tradeA
              (failure "Rate limit exceeded") "Rate limit exceeded"
              eq_refl eq_refl eq_refl eq_refl) as (_ & Ht & Hq & _).
  split; [exact Hq|exact Ht].
Defined.

(** C3, as amended: when the venue call of the intent in flight returns a
    result that is not a rate-limit error, success or failure alike, the
    cooldown entry of the intent's instrument is set to [now + 60000]; when
    the result is a rate-limit error the cooldown table is left as it
    was. *)
Theorem cooldown_after_attempt (now : Z) (q : State) (A : QueuedTrade) (r : TradeResult) :
  inFlight q = Some A ->
  let q' := completeExecution now (Returned r) q in
  (rateLimited r = false ->
     symbolCooldowns q' = <[symbol A := (now + COOLDOWN_PER_ASSET_MS)%Z]> (symbolCooldowns q)
     /\ symbolCooldowns q' !! symbol A = Some (now + COOLDOWN_PER_ASSET_MS)%Z)
  /\ (rateLimited r = true -> symbolCooldowns q' = symbolCooldowns q).
Proof.
  intros Hin q'. subst q'. unfold completeExecution. rewrite Hin. unfold executeTrade.
  split; intros Hr; rewrite Hr.
  - cbn. split; [done|]. by rewrite lookup_insert_eq.
  - match goal with
    | |- context [handleRateLimitError now ?q0] =>
        pose proof (handleRateLimitError_spec now q0) as (_ & _ & _ & _ & _ & H6 & _);
        remember (handleRateLimitError now q0) as q1 eqn:Eq1; clear Eq1; cbn in H6
    end.
    cbn. done.
Qed.

Lemma cooldown_after_attempt_witness :
  symbolCooldowns (completeExecution 3000 (Returned (failure "Market is closed")) executingA)
    !! "R_10" = Some 63000%Z.
Proof.
  apply (cooldown_after_attempt 3000 executingA tradeA (failure "Market is closed") eq_refl).
  reflexivity.
Defined.

(** C3 as stated fails: a rate-limit answer for the intent in flight on
    [R_10] leaves [R_10] without a cooldown entry. *)
Lemma cooldown_skipped_on_rate_limit :
  ~ (forall (now : Z) (q : State) (A : QueuedTrade) (outcome : VenueOutcome),
       inFlight q = Some A ->
       symbolCooldowns (completeExecution now outcome q) !! symbol A
       = Some (now + COOLDOWN_PER_ASSET_MS)%Z).
Proof.
  intros H.
  specialize (H 3000%Z executingA tradeA (Returned (failure "Rate limit exceeded")) eq_refl).
  vm_compute in H. discriminate.
Qed.

End QueueFacts.

(** ** Signal engine *)
Module EngineFacts.

Import Indicators Engine.

Lemma markToMarket_idem tick t :
  markToMarket tick (markToMarket tick t) = markToMarket tick t.
Proof.
  unfold markToMarket.
  destruct (String.eqb (symbol t) (tick_symbol tick)) eqn:Es; cbn [andb]; [|by rewrite Es].
  destruct (status t) eqn:Est; cbn.
  - by rewrite Es, Est.
  - by rewrite Es, Est.
  - by rewrite Es, Est.
Qed.

Lemma markToMarket_open tick t :
  symbol t = tick_symbol tick -> status t = open ->
  markToMarket tick t =
    trade_profit ((quote tick - entryPrice t) * directionSign (direction t) * 100)%js
      (trade_currentPrice (quote tick) t).
Proof.
  intros Hs Hst. unfold markToMarket. rewrite Hs, String.eqb_refl, Hst.
  by destruct (direction t).
Qed.

Lemma touchAll_lookup tick refs : forall ts r t,
  ts !! r = Some t ->
  (touchAll tick refs ts !! r = Some t /\ r ∉ refs)
  \/ touchAll tick refs ts !! r = Some (markToMarket tick t).
Proof.
  induction refs as [|r0 refs IH]; intros ts r t Hr; cbn.
  - left. split; [done|]. apply not_elem_of_nil.
  - destruct (decide (r0 = r)) as [->|Hne].
    + right.
      assert (alter (markToMarket tick) r ts !! r = Some (markToMarket tick t)) as H1.
      { by rewrite list_lookup_alter_eq, Hr. }
      destruct (IH _ _ _ H1) as [[H2 _]|H2]; [done|].
      by rewrite markToMarket_idem in H2.
    + assert (alter (markToMarket tick) r0 ts !! r = Some t) as H1.
      { by rewrite list_lookup_alter_ne. }
      destruct (IH _ _ _ H1) as [[H2 Hnot]|H2]; [left|by right].
      split; [done|]. rewrite elem_of_cons. intros [?|?]; congruence.
Qed.

Lemma touchAll_length tick refs : forall ts, length (touchAll tick refs ts) = length ts.
Proof.
  induction refs as [|r refs IH]; intros ts; [done|].
  unfold touchAll in *. cbn [fold_left]. rewrite IH. apply length_alter.
Qed.

Lemma updateActiveTrades_fold tick (l : list (string * nat)) : forall e,
  let e' := fold_left
              (fun e entry => set_trades (alter (markToMarket tick) entry.2 (trades e)) e)
              l e in
  trades e' = touchAll tick (l.*2) (trades e)
  /\ activeTrades e' = activeTrades e.
Proof.
  induction l as [|[k r] l IH]; intros e; cbn; [done|].
  destruct (IH (set_trades (alter (markToMarket tick) r (trades e)) e)) as [H1 H2].
  cbn in *. by rewrite H1, H2.
Qed.

Lemma updateActiveTrades_trades tick e :
  trades (updateActiveTrades tick e)
  = touchAll tick ((map_to_list (activeTrades e)).*2) (trades e).
Proof.
  unfold updateActiveTrades, updateStats. cbn.
  apply updateActiveTrades_fold.
Qed.

Lemma updateActiveTrades_object tick e key ref t :
  activeTrades e !! key = Some ref -> trades e !! ref = Some t ->
  trades (updateActiveTrades tick e) !! ref = Some (markToMarket tick t).
Proof.
  intros Hk Ht. rewrite updateActiveTrades_trades.
  destruct (touchAll_lookup tick ((map_to_list (activeTrades e)).*2) _ _ _ Ht)
    as [[_ Hnot]|H]; [|done].
  exfalso. apply Hnot. apply list_elem_of_fmap. exists (key, ref). split; [done|].
  by apply elem_of_map_to_list.
Qed.

(** [updateActiveTrades] writes to the position objects and to the count of
    active positions only. *)
Lemma updateActiveTrades_quiet tick e :
  let e' := updateActiveTrades tick e in
  signals e' = signals e /\ orders e' = orders e /\ activeTrades e' = activeTrades e
  /\ isPaused (stats e') = isPaused (stats e)
  /\ symbolAdjustments e' = symbolAdjustments e /\ pauseTimers e' = pauseTimers e.
Proof.
  unfold updateActiveTrades, updateStats. cbn.
  generalize (map_to_list (activeTrades e)). intros l. revert e.
  induction l as [|x l IH]; intros e; [done|]. cbn.
  specialize (IH (set_trades (alter (markToMarket tick) x.2 (trades e)) e)).
  apply IH.
Qed.

Lemma updateActiveTrades_core tick e :
  core (updateActiveTrades tick e)
  = (priceHistory e, stats_activeTradesCount (size (activeTrades e)) (stats e),
     isRunning e, currentStake e, symbolAdjustments e, tickRegistrations e).
Proof.
  unfold updateActiveTrades, updateStats, core. cbn.
  generalize (map_to_list (activeTrades e)). intros l. revert e.
  induction l as [|x l IH]; intros e; [done|]. cbn.
  specialize (IH (set_trades (alter (markToMarket tick) x.2 (trades e)) e)).
  cbn in IH. exact IH.
Qed.

Lemma analyzeSymbol_trades sqrt now sym price e :
  exists extra, trades (analyzeSymbol sqrt now sym price e) = trades e ++ extra.
Proof.
  unfold analyzeSymbol.
  destruct (isPaused (stats e)); [exists []; by rewrite app_nil_r|].
  destruct (calculateTradeProbability _ _) as [[p d] r].
  destruct (Qle_bool _ _); [|exists []; by rewrite app_nil_r].
  destruct (activeTrades _ !! _); [exists []; by rewrite app_nil_r|].
  eexists. cbn. reflexivity.
Qed.


(** C5, as amended: a tick sets, on every open position of its instrument,
    the current price to the quote and the running profit to
    [(current - entry) * sign * 100], with [sign] +1 for a long position and
    -1 for a short one; this holds after [updateActiveTrades] and after the
    whole [handleTick] of a running engine. *)
Theorem tick_marks_open_positions (sqrt : number -> number) (now : Z)
    (tick : TickUpdate) (e : State) (key : string) (ref : nat) (t : Trade) :
  activeTrades e !! key = Some ref -> trades e !! ref = Some t ->
  symbol t = tick_symbol tick -> status t = open ->
  let t' := trade_profit
              ((quote tick - entryPrice t) * directionSign (direction t) * 100)%js
              (trade_currentPrice (quote tick) t) in
  trades (updateActiveTrades tick e) !! ref = Some t'
  /\ (isRunning e = true -> trades (handleTick sqrt now tick e) !! ref = Some t')
  /\ currentPrice t' = quote tick
  /\ profit t' == ((quote tick - entryPrice t) * directionSign (direction t) * 100)%Q.
Proof.
  intros Hk Ht Hs Hst t'.
  assert (forall e0, activeTrades e0 = activeTrades e -> trades e0 = trades e ->
            trades (updateActiveTrades tick e0) !! ref = Some t') as Hupd.
  { intros e0 Ha Htr. subst t'. rewrite <- markToMarket_open by done.
    apply (updateActiveTrades_object tick e0 key); congruence. }
  split; [by apply Hupd|]. split; [|split].
  - intros Hrun. unfold handleTick. rewrite Hrun. cbn [negb].
    match goal with
    | |- context [updateActiveTrades tick ?e0] =>
        specialize (Hupd e0 eq_refl eq_refl); set (e1 := updateActiveTrades tick e0) in *
    end.
    destruct (_ <=? _)%nat; [|done].
    destruct (analyzeSymbol_trades sqrt now (tick_symbol tick) (quote tick) e1)
      as [extra ->].
    by apply lookup_app_l_Some.
  - reflexivity.
  - subst t'. cbn. by rewrite !qmul_spec, qsub_spec.
Qed.

Lemma tick_marks_open_positions_witness :
  trades (updateActiveTrades tick103 openLong100) !! 0%nat
  = Some {| id := "R_10_LONG_1000"; symbol := "R_10"; direction := LONG;
            entryPrice := 100; currentPrice := 103; stake := 1; profit := 300;
            status := open; openTime := 1000; closeTime := None; result := None |}.
Proof.
  apply (tick_marks_open_positions (fun x => x) 2000 tick103 openLong100
           "R_10_LONG_1000" 0
           {| id := "R_10_LONG_1000"; symbol := "R_10"; direction := LONG;
              entryPrice := 100; currentPrice := 100; stake := 1; profit := 0;
              status := open; openTime := 1000; closeTime := None; result := None |});
    reflexivity.
Defined.

(** C5 as stated fails: a long position entered at 100 and marked at 103
    shows a running profit of 300, not [(103 - 100) * 1 = 3]. *)
Lemma profit_unscaled_counterexample :
  ~ (forall (tick : TickUpdate) (e : State) (key : string) (ref : nat) (t : Trade),
       activeTrades e !! key = Some ref -> trades e !! ref = Some t ->
       symbol t = tick_symbol tick -> status t = open ->
       exists t', trades (updateActiveTrades tick e) !! ref = Some t'
                  /\ currentPrice t' = quote tick
                  /\ profit t' == ((quote tick - entryPrice t)
                                   * directionSign (direction t))%Q).
Proof.
  intros H.
  destruct (H tick103 openLong100 "R_10_LONG_1000" 0%nat _ eq_refl eq_refl eq_refl eq_refl)
    as (t' & Ht' & _ & Hp).
  vm_compute in Ht'. injection Ht' as <-. vm_compute in Hp. discriminate.
Qed.


Lemma recordOutcome_timers now tradeId ref res pnl e :
  pauseTimers (recordOutcome now tradeId ref res pnl e) = pauseTimers e.
Proof. by destruct res. Qed.

Lemma recordOutcome_adjustments now tradeId ref res pnl e :
  symbolAdjustments (recordOutcome now tradeId ref res pnl e)
  = match res with
    | win => symbolAdjustments e
    | loss =>
        let sym := default "" (symbol <$> trades e !! ref) in
        <[sym := (orZero (symbolAdjustments e !! sym) + 0.02)%js]> (symbolAdjustments e)
    end.
Proof. by destruct res. Qed.

Lemma closeTrade_paused now tradeId ref res pnl e :
  activeTrades e !! tradeId = Some ref ->
  belowFloor (stats (recordOutcome now tradeId ref res pnl e)) = true ->
  closeTrade now tradeId res pnl e
  = updateStats (pauseForCalibration now (recordOutcome now tradeId ref res pnl e)).
Proof. intros H Hb. unfold closeTrade. by rewrite H, Hb. Qed.

Lemma closeTrade_not_paused now tradeId ref res pnl e :
  activeTrades e !! tradeId = Some ref ->
  belowFloor (stats (recordOutcome now tradeId ref res pnl e)) = false ->
  closeTrade now tradeId res pnl e
  = updateStats (recordOutcome now tradeId ref res pnl e).
Proof. intros H Hb. unfold closeTrade. by rewrite H, Hb. Qed.

(** The test sees the counters that [closeTrade] leaves behind. *)
Lemma closeTrade_belowFloor now tradeId ref res pnl e :
  activeTrades e !! tradeId = Some ref ->
  belowFloor (stats (closeTrade now tradeId res pnl e))
  = belowFloor (stats (recordOutcome now tradeId ref res pnl e)).
Proof.
  intros H. unfold closeTrade. rewrite H. cbn zeta.
  by destruct (belowFloor (stats (recordOutcome now tradeId ref res pnl e))) eqn:Hb.
Qed.

Lemma closeTrade_pauseBegins now tradeId ref res pnl e :
  activeTrades e !! tradeId = Some ref ->
  belowFloor (stats (closeTrade now tradeId res pnl e)) = true
  <-> pauseBegins now e (closeTrade now tradeId res pnl e).
Proof.
  intros Hk. rewrite (closeTrade_belowFloor _ _ ref) by done.
  destruct (belowFloor (stats (recordOutcome now tradeId ref res pnl e))) eqn:Hb.
  - rewrite (closeTrade_paused _ _ ref) by done. split; [intros _|done].
    split; [done|]. cbn. by destruct res.
  - rewrite (closeTrade_not_paused _ _ ref) by done. split; [done|].
    intros [_ Ht].
    change (pauseTimers (recordOutcome now tradeId ref res pnl e)
            = pauseTimers e ++ [(now + DERIV_CONFIG.CALIBRATION_PAUSE_MS)%Z]) in Ht.
    rewrite recordOutcome_timers in Ht.
    by apply app_singleton_neq in Ht.
Qed.








Lemma updateStats_adjustments e :
  symbolAdjustments (updateStats e) = symbolAdjustments e.
Proof. reflexivity. Qed.

Lemma closeTrade_loss_adjustment now tradeId ref t pnl e :
  activeTrades e !! tradeId = Some ref -> trades e !! ref = Some t ->
  belowFloor (stats (closeTrade now tradeId loss pnl e)) = false ->
  adjustmentOf (symbol t) (closeTrade now tradeId loss pnl e)
    == (adjustmentOf (symbol t) e + 0.02)%Q
  /\ forall other, other ≠ symbol t ->
       adjustmentOf other (closeTrade now tradeId loss pnl e) = adjustmentOf other e.
Proof.
  intros Hk Ht Hb. rewrite (closeTrade_belowFloor _ _ ref) in Hb by done.
  rewrite (closeTrade_not_paused _ _ ref) by done.
  unfold adjustmentOf.
  rewrite updateStats_adjustments, recordOutcome_adjustments. cbn zeta. rewrite Ht.
  cbn [fmap option_fmap option_map default].
  split.
  - rewrite lookup_insert_eq, orZero_Some, qadd_spec. reflexivity.
  - intros other Hne. by rewrite lookup_insert_ne.
Qed.

Lemma closeTrade_pause_resets now tradeId ref res pnl e :
  activeTrades e !! tradeId = Some ref ->
  belowFloor (stats (closeTrade now tradeId res pnl e)) = true ->
  symbolAdjustments (closeTrade now tradeId res pnl e) = ∅.
Proof.
  intros Hk Hb. rewrite (closeTrade_belowFloor _ _ ref) in Hb by done.
  by rewrite (closeTrade_paused _ _ ref).
Qed.





Lemma handleTick_adjustments sqrt now tick e :
  symbolAdjustments (handleTick sqrt now tick e) = symbolAdjustments e
  /\ pauseTimers (handleTick sqrt now tick e) = pauseTimers e.
Proof.
  unfold handleTick. destruct (isRunning e); cbn [negb]; [|done].
  match goal with
  | |- context [updateActiveTrades tick ?e0] =>
      pose proof (updateActiveTrades_quiet tick e0) as (_ & _ & _ & _ & Hs & Ht);
      change (symbolAdjustments e0) with (symbolAdjustments e) in Hs;
      change (pauseTimers e0) with (pauseTimers e) in Ht;
      generalize dependent (updateActiveTrades tick e0)
  end.
  intros e1 Hs Ht. destruct (_ <=? _)%nat; [|done].
  unfold analyzeSymbol. destruct (isPaused (stats e1)); [done|].
  destruct (calculateTradeProbability _ _) as [[p d] r].
  destruct (Qle_bool _ _); [|done].
  destruct (activeTrades _ !! _); done.
Qed.

Lemma iter_handleTick_adjustments sqrt now tick n e :
  symbolAdjustments (Nat.iter n (handleTick sqrt now tick) e) = symbolAdjustments e
  /\ pauseTimers (Nat.iter n (handleTick sqrt now tick) e) = pauseTimers e.
Proof.
  induction n as [|n [IH1 IH2]]; [done|]. rewrite Nat.iter_succ.
  destruct (handleTick_adjustments sqrt now tick (Nat.iter n (handleTick sqrt now tick) e))
    as [-> ->]. done.
Qed.

(** One step either begins a pause, which clears every adjustment, or
    leaves every adjustment where it was or higher. *)
Lemma step_adjustments sqrt now ev e :
  adjustmentsOk e ->
  (pauseTimers (step sqrt now ev e)
     = pauseTimers e ++ [(now + DERIV_CONFIG.CALIBRATION_PAUSE_MS)%Z]
   /\ forall sym, adjustmentOf sym (step sqrt now ev e) = 0)
  \/ (forall sym, adjustmentOf sym e <= adjustmentOf sym (step sqrt now ev e)).
Proof.
  intros Hok. destruct ev as [| |tick|ref outcome|tradeId res pnl| |stake]; cbn [step].
  - right. intros sym. unfold start. destruct (isRunning e); [lra|].
    unfold adjustmentOf. cbn. lra.
  - right. intros sym. unfold stop. destruct (isRunning e); cbn [negb]; [|lra].
    unfold adjustmentOf. cbn. lra.
  - right. intros sym. unfold adjustmentOf.
    destruct (iter_handleTick_adjustments sqrt now tick (tickRegistrations e) e)
      as [-> _]. lra.
  - right. intros sym. unfold executeTradeResume.
    destruct (trades e !! ref); [|lra].
    unfold adjustmentOf.
    destruct outcome as [r|]; [destruct (Venue.success r)|]; cbn; lra.
  - destruct (activeTrades e !! tradeId) as [ref|] eqn:Hk.
    2:{ right. intros sym. unfold closeTrade. rewrite Hk. lra. }
    destruct (belowFloor (stats (closeTrade now tradeId res pnl e))) eqn:Hb.
    + left. split.
      * by apply (closeTrade_pauseBegins _ _ ref).
      * intros sym. unfold adjustmentOf.
        by rewrite (closeTrade_pause_resets _ _ ref).
    + right. intros sym. destruct res.
      * rewrite (closeTrade_belowFloor _ _ ref) in Hb by done.
        rewrite (closeTrade_not_paused _ _ ref) by done.
        unfold adjustmentOf. cbn. lra.
      * destruct (trades e !! ref) as [t|] eqn:Ht.
        -- destruct (closeTrade_loss_adjustment _ _ _ _ pnl _ Hk Ht Hb) as [Hs Ho].
           destruct (decide (sym = symbol t)) as [->|Hne].
           ++ rewrite Hs. lra.
           ++ rewrite Ho by done. lra.
        -- rewrite (closeTrade_belowFloor _ _ ref) in Hb by done.
           rewrite (closeTrade_not_paused _ _ ref) by done.
           unfold adjustmentOf.
           rewrite updateStats_adjustments, recordOutcome_adjustments. cbn zeta.
           rewrite Ht.
           cbn [fmap option_fmap option_map default].
           destruct (decide (sym = "")) as [->|Hne].
           ++ rewrite lookup_insert_eq, orZero_Some, qadd_spec. lra.
           ++ rewrite lookup_insert_ne by done. lra.
  - right. intros sym. unfold runTimer. destruct (pauseTimers e) as [|due rest]; [lra|].
    destruct (due <=? now)%Z; [|lra]. unfold adjustmentOf. cbn. lra.
  - right. intros sym. unfold adjustmentOf. cbn. lra.
Qed.


Lemma adjustmentsOk_step sqrt now ev e :
  adjustmentsOk e -> adjustmentsOk (step sqrt now ev e).
Proof.
  intros Hok sym. destruct (step_adjustments sqrt now ev e Hok) as [[_ H]|H].
  - rewrite H. lra.
  - specialize (H sym). specialize (Hok sym). lra.
Qed.





(** When the score clears the threshold and the key [symbol_direction] is
    not in the table, [analyzeSymbol] opens a position and submits its
    order. *)
Lemma analyzeSymbol_submits sqrt now sym price e p d r :
  isPaused (stats e) = false ->
  calculateTradeProbability price
    (calculateAllIndicators sqrt (default [] (priceHistory e !! sym)) None None)
    = (p, d, r) ->
  Qle_bool DERIV_CONFIG.MIN_PROBABILITY
    (Math_max 0 (Math_min 1 (p - orZero (symbolAdjustments e !! sym))%js)) = true ->
  activeTrades e !! (sym +:+ "_" +:+ directionName d) = None ->
  let e' := analyzeSymbol sqrt now sym price e in
  trades e' = trades e ++ [pendingTrade sym d now (currentStake e)]
  /\ activeTrades e'
     = <[sym +:+ "_" +:+ directionName d +:+ "_" +:+ pretty now := length (trades e)]>
         (activeTrades e)
  /\ orders e' = orders e ++ [orderOf (length (trades e)) sym d (currentStake e)]
  /\ core e' = core e.
Proof.
  intros Hp Hs Hq Hk. unfold analyzeSymbol. rewrite Hp, Hs.
  cbn beta iota zeta. rewrite Hq. cbn [activeTrades set_signals log set_logs]. rewrite Hk.
  done.
Qed.

(** With RSI at 0 and ADX at 100 the long side wins and the probability
    clears the threshold, whatever the bands and the averages are. *)
Lemma falling_score price ind :
  rsi ind = Some 0 -> adx ind = Some 100 -> macd ind = None ->
  exists p r,
    calculateTradeProbability price ind = (p, LONG, r)
    /\ Qle_bool DERIV_CONFIG.MIN_PROBABILITY (Math_max 0 (Math_min 1 (p - 0)%js)) = true.
Proof.
  intros Hr Ha Hm. unfold calculateTradeProbability, scoreRSI, scoreADX, scoreMACD.
  rewrite Hr, Ha, Hm.
  change (Qltb 0 DERIV_CONFIG.RSI_OVERSOLD) with true.
  change (Qltb DERIV_CONFIG.ADX_TREND_THRESHOLD 100) with true.
  cbn beta iota zeta.
  change (Qltb (shortScore (addLong 0.25 [RsiOversold 0]
            {| longScore := 0; shortScore := 0; reasons := [] |}))
          (longScore (addLong 0.25 [RsiOversold 0]
            {| longScore := 0; shortScore := 0; reasons := [] |}))) with true.
  cbn beta iota.
  unfold scoreBollinger, scoreAverages.
  destruct (bollingerUpper ind) as [up|], (bollingerLower ind) as [low|];
    try destruct (divLt _ _ _); try destruct (divGt _ _ _);
    destruct (sma ind) as [sm|], (ema ind) as [em|];
    try destruct (Qltb sm price && Qltb sm em);
    try destruct (Qltb price sm && Qltb em sm);
    eexists _, _; (split; [vm_compute; reflexivity|vm_compute; reflexivity]).
Qed.

Lemma run_app sqrt l1 l2 e : run sqrt (l1 ++ l2) e = run sqrt l2 (run sqrt l1 e).
Proof. unfold run. apply fold_left_app. Qed.

(** A tick on [R_10] taken by a running, unpaused engine with no adjustment
    on [R_10], when the history it completes is long enough, has RSI 0 and
    ADX 100 and is too short for MACD. *)
Lemma falling_tick_submits sqrt now q ep e :
  isRunning e = true -> isPaused (stats e) = false ->
  let history := default [] (priceHistory e !! "R_10") ++ [q] in
  (length history <= 100)%nat -> (30 <=? length history)%nat = true ->
  calculateRSI history 14 = Some 0 ->
  calculateADX history history history 14 = Some 100 ->
  calculateMACD history 12 26 9 = None ->
  symbolAdjustments e !! "R_10" = None ->
  activeTrades e !! "R_10_LONG" = None ->
  let tick := {| tick_symbol := "R_10"; quote := q; epoch := ep |} in
  let e' := handleTick sqrt now tick e in
  trades e' = trades (updateActiveTrades tick e)
              ++ [pendingTrade "R_10" LONG now (currentStake e)]
  /\ activeTrades e' = <[ "R_10_LONG_" +:+ pretty now := length (trades e)]> (activeTrades e)
  /\ orders e' = orders e ++ [orderOf (length (trades e)) "R_10" LONG (currentStake e)]
  /\ isRunning e' = true /\ isPaused (stats e') = false
  /\ priceHistory e' = <[ "R_10" := history ]> (priceHistory e)
  /\ symbolAdjustments e' = symbolAdjustments e
  /\ currentStake e' = currentStake e
  /\ tickRegistrations e' = tickRegistrations e.
Proof.
  intros Hrun Hpause history Hlen H30 Hrsi Hadx Hmacd Hadj Hguard tick e'.
  subst e'. unfold handleTick. rewrite Hrun. cbn [negb tick_symbol quote tick].
  fold history.
  destruct (Nat.ltb_spec HISTORY_SIZE (length history)) as [Hgt|_];
    [unfold HISTORY_SIZE in Hgt; lia|].
  rewrite H30.
  set (e0 := set_priceHistory (<["R_10" := history]> (priceHistory e)) e).
  pose proof (updateActiveTrades_core tick e0) as Hcore.
  pose proof (updateActiveTrades_quiet tick e0) as (_ & Hord & Hact & _).
  pose proof (updateActiveTrades_trades tick e0) as Htr.
  change (activeTrades e0) with (activeTrades e) in *.
  change (trades e0) with (trades e) in *.
  change (orders e0) with (orders e) in *.
  assert (trades (updateActiveTrades tick e0) = trades (updateActiveTrades tick e)) as Htr'.
  { by rewrite Htr, updateActiveTrades_trades. }
  assert (length (trades (updateActiveTrades tick e0)) = length (trades e)) as Hlen'.
  { rewrite Htr. apply touchAll_length. }
  remember (updateActiveTrades tick e0) as e1 eqn:E1. clear E1.
  unfold core in Hcore. cbn in Hcore.
  injection Hcore as Hph Hst Hr Hstk Hsa Htk.
  assert (default [] (priceHistory e1 !! "R_10") = history) as Hh.
  { by rewrite Hph, lookup_insert_eq. }
  destruct (falling_score q (calculateAllIndicators sqrt history None None))
    as (p & r & Hscore & Hq); [done..|].
  assert (symbolAdjustments e1 !! "R_10" = None) as Hadj1 by (by rewrite Hsa).
  destruct (analyzeSymbol_submits sqrt now "R_10" q e1 p LONG r) as (H1 & H2 & H3 & H4).
  - by rewrite Hst.
  - by rewrite Hh.
  - by rewrite Hadj1.
  - by rewrite Hact.
  - unfold core in H4. injection H4 as Hph' Hst' Hr' Hstk' Hsa' Htk'.
    repeat split.
    + by rewrite H1, Htr', Hstk.
    + by rewrite H2, Hlen', Hact.
    + by rewrite H3, Hlen', Hord, Hstk.
    + by rewrite Hr', Hr.
    + by rewrite Hst', Hst.
    + by rewrite Hph', Hph.
    + by rewrite Hsa', Hsa.
    + by rewrite Hstk', Hstk.
    + by rewrite Htk', Htk.
Qed.

(** C1: the guard of [analyzeSymbol] looks up [symbol_direction], a key
    under which [executeTrade] never stores anything, so it does not stop a
    second order.  Whatever [Math.sqrt] computes, after the engine is
    started and 31 falling ticks arrive on [R_10], two pending long
    positions on [R_10] are active at once and two orders have been
    submitted, the second while the first position was still pending. *)
Theorem duplicate_long_positions (sqrt : number -> number) :
  let e := run sqrt (fallingScript 31) initial in
  activeTrades e = {[ "R_10_LONG_1030" := 0%nat; "R_10_LONG_1031" := 1%nat ]}
  /\ trades e = [pendingTrade "R_10" LONG 1030 1; pendingTrade "R_10" LONG 1031 1]
  /\ orders e = [orderOf 0 "R_10" LONG 1; orderOf 1 "R_10" LONG 1].
Proof.
  intros e. subst e.
  change (fallingScript 31) with (fallingScript 29 ++ [fallingTick 30; fallingTick 31]).
  rewrite run_app.
  assert (run sqrt (fallingScript 29) initial
          = run (fun x => x) (fallingScript 29) initial) as -> by (vm_compute; reflexivity).
  set (e29 := run (fun x => x) (fallingScript 29) initial).
  unfold run. cbn [fold_left fallingTick step].
  assert (tickRegistrations e29 = 1%nat) as Hreg by (vm_compute; reflexivity).
  rewrite Hreg. cbn [Nat.iter nat_rect].
  pose proof (falling_tick_submits sqrt (Z.of_nat (1000 + 30)) (QofNat (200 - 30))
                (Z.of_nat 30) e29) as H30.
  cbv zeta in H30.
  specialize (H30 ltac:(vm_compute; reflexivity) ltac:(vm_compute; reflexivity)
                  ltac:(vm_compute; lia) ltac:(vm_compute; reflexivity)
                  ltac:(vm_compute; reflexivity) ltac:(vm_compute; reflexivity)
                  ltac:(vm_compute; reflexivity) ltac:(vm_compute; reflexivity)
                  ltac:(vm_compute; reflexivity)).
  destruct H30 as (Ht30 & Ha30 & Ho30 & Hr30 & Hp30 & Hh30 & Hs30 & Hk30 & Hg30).
  set (e30 := handleTick sqrt (Z.of_nat (1000 + 30))
                {| tick_symbol := "R_10"; quote := QofNat (200 - 30); epoch := Z.of_nat 30 |}
                e29) in *.
  rewrite Hg30, Hreg. cbn [Nat.iter nat_rect].
  pose proof (falling_tick_submits sqrt (Z.of_nat (1000 + 31)) (QofNat (200 - 31))
                (Z.of_nat 31) e30 Hr30 Hp30) as H31.
  cbv zeta in H31. rewrite Hh30, lookup_insert_eq, Hs30, Ha30 in H31.
  specialize (H31 ltac:(vm_compute; lia) ltac:(vm_compute; reflexivity)
                  ltac:(vm_compute; reflexivity) ltac:(vm_compute; reflexivity)
                  ltac:(vm_compute; reflexivity) ltac:(vm_compute; reflexivity)
                  ltac:(vm_compute; reflexivity)).
  destruct H31 as (Ht31 & Ha31 & Ho31 & _).
  rewrite Ha31, Ht31, Ho31, updateActiveTrades_trades, Ha30, Ht30, Ho30, Hk30.
  repeat split; vm_compute; reflexivity.
Qed.

End EngineFacts.


(** ** Indicator library: windows, bounds and degenerate series *)
Module IndicatorMore.

Import Indicators.

(** A sum of [n] numbers between [lo] and [hi] lies between [n * lo] and
    [n * hi]. *)
Lemma sum_between (lo hi : Q) (xs : list number) : forall a : number,
  Forall (fun x => lo <= x /\ x <= hi) xs ->
  (a + inject_Z (Z.of_nat (length xs)) * lo <= fold_left qadd xs a)%Q
  /\ (fold_left qadd xs a <= a + inject_Z (Z.of_nat (length xs)) * hi)%Q.
Proof.
  induction xs as [|x xs IH]; intros a H.
  - cbn [fold_left length]. change (inject_Z (Z.of_nat 0)) with 0. lra.
  - inversion H as [|? ? [Hlo Hhi] Hrest]; subst.
    destruct (IH (qadd a x) Hrest) as [IH1 IH2].
    cbn [fold_left length]. pose proof (qadd_spec a x) as Ha.
    rewrite Nat2Z.inj_succ, <- Z.add_1_r, inject_Z_plus.
    change (inject_Z 1) with 1. split; lra.
Qed.

Lemma window_average_between (lo hi : Q) (xs : list number) (period : nat) :
  (1 <= period)%nat -> length xs = period ->
  Forall (fun x => lo <= x /\ x <= hi) xs ->
  lo <= (sum xs / QofNat period)%js /\ (sum xs / QofNat period)%js <= hi.
Proof.
  intros Hp Hlen H. destruct (sum_between lo hi xs 0 H) as [H1 H2].
  rewrite Hlen in H1, H2. fold (QofNat period) in H1, H2. fold (sum xs) in H1, H2.
  apply QofNat_pos in Hp. rewrite qdiv_spec. split.
  - apply Qle_shift_div_l; lra.
  - apply Qle_shift_div_r; lra.
Qed.

Lemma sum_nonneg (xs : list number) : Forall (fun x => 0 <= x) xs -> 0 <= sum xs.
Proof.
  intros H. unfold sum.
  apply (fold_left_Forall_inv (fun a : number => 0 <= a) (fun x : number => 0 <= x));
    [|done|lra].
  intros a b Hb Ha. rewrite qadd_spec. lra.
Qed.

(** X3: with a square root that is non-negative on non-negative arguments and a
    non-negative width [stdDev], the bands are ordered
    [lower <= middle <= upper], and the middle band is the simple moving
    average of the same window. *)
Theorem bollinger_bands_ordered (sqrt : number -> number) (data : list number)
    (period : nat) (stdDev : number) (b : Bands) :
  (forall x, 0 <= x -> 0 <= sqrt x) -> (1 <= period)%nat -> 0 <= stdDev ->
  calculateBollingerBands sqrt data period stdDev = Some b ->
  lower b <= middle b /\ middle b <= upper b
  /\ calculateSMA data period = Some (middle b).
Proof.
  intros Hsqrt Hp Hk. unfold calculateBollingerBands, calculateSMA.
  destruct (Nat.ltb_spec (length data) period) as [Hlt|Hge]; [discriminate|].
  intros Hb. injection Hb as <-. cbn [upper middle lower].
  set (mid := (sum (lastN period data) / QofNat period)%js).
  match goal with |- context [sqrt ?v] => assert (0 <= v) as Hvar end.
  { apply qdiv_nonneg; [|apply QofNat_pos in Hp; lra].
    apply sum_nonneg, Forall_map, Forall_forall. intros x _. cbn.
    rewrite qmul_spec. generalize (x - mid)%js. intros d. nra. }
  apply Hsqrt in Hvar.
  match goal with |- context [sqrt ?v] => set (sd := sqrt v) in * end.
  assert (0 <= sd * stdDev)%Q by (apply Qmult_le_0_compat; done).
  rewrite !qsub_spec, !qadd_spec, !qmul_spec. repeat split; try lra.
Qed.

Lemma bollinger_bands_ordered_witness :
  exists b, calculateBollingerBands (fun x => x) (rising 25) 20 2 = Some b
            /\ lower b <= middle b /\ middle b <= upper b
            /\ calculateSMA (rising 25) 20 = Some (middle b).
Proof.
  eexists. split; [vm_compute; reflexivity|].
  apply (bollinger_bands_ordered (fun x => x) (rising 25) 20 2).
  - intros x Hx. exact Hx.
  - lia.
  - discriminate.
  - vm_compute. reflexivity.
Defined.

Lemma calculateEMA_available (data : list number) (period : nat) :
  (period <= length data)%nat -> is_Some (calculateEMA data period).
Proof.
  intros H. unfold calculateEMA.
  destruct (Nat.ltb_spec (length data) period); [lia|eauto].
Qed.

Lemma omap_length_all {A B} (f : A -> option B) (l : list A) :
  (forall x, x ∈ l -> is_Some (f x)) -> length (omap f l) = length l.
Proof.
  induction l as [|x l IH]; intros H; [done|]. cbn.
  destruct (H x) as [y Hy]; [by left|]. rewrite Hy. cbn. f_equal.
  apply IH. intros z Hz. apply H. by right.
Qed.

Lemma macdValues_length (data : list number) (fastPeriod slowPeriod : nat) :
  (fastPeriod <= slowPeriod)%nat ->
  length (macdValues data fastPeriod slowPeriod) = (length data + 1 - slowPeriod)%nat.
Proof.
  intros Hfs. unfold macdValues. rewrite omap_length_all; [apply length_seq|].
  intros i Hi. apply elem_of_seq in Hi.
  destruct (calculateEMA_available (take i data) fastPeriod) as [a ->];
    [rewrite length_take; lia|].
  destruct (calculateEMA_available (take i data) slowPeriod) as [b ->];
    [rewrite length_take; lia|].
  eauto.
Qed.

(** X4: with [fastPeriod <= slowPeriod], [calculateMACD] is unavailable exactly
    on inputs shorter than [slowPeriod + signalPeriod]; when it is
    available, the MACD line is the fast EMA minus the slow EMA, the signal
    line is the EMA of the MACD series over the prefixes, and the histogram
    is the MACD line minus the signal line. *)
Theorem calculateMACD_window (data : list number) (fastPeriod slowPeriod signalPeriod : nat) :
  (fastPeriod <= slowPeriod)%nat ->
  (calculateMACD data fastPeriod slowPeriod signalPeriod = None
   <-> (length data < slowPeriod + signalPeriod)%nat)
  /\ (forall m s h,
        calculateMACD data fastPeriod slowPeriod signalPeriod = Some (m, s, h) ->
        exists fastEMA slowEMA,
          calculateEMA data fastPeriod = Some fastEMA
          /\ calculateEMA data slowPeriod = Some slowEMA
          /\ m = (fastEMA - slowEMA)%js
          /\ calculateEMA (macdValues data fastPeriod slowPeriod) signalPeriod = Some s
          /\ h = (m - s)%js).
Proof.
  intros Hfs. unfold calculateMACD.
  destruct (Nat.ltb_spec (length data) (slowPeriod + signalPeriod)) as [Hlt|Hge].
  - split; [done|]. intros m s h Hm. discriminate.
  - destruct (calculateEMA_available data fastPeriod) as [a Ha]; [lia|].
    destruct (calculateEMA_available data slowPeriod) as [b Hb]; [lia|].
    destruct (calculateEMA_available (macdValues data fastPeriod slowPeriod) signalPeriod)
      as [c Hc]; [rewrite macdValues_length by done; lia|].
    rewrite Ha, Hb, Hc. split; [split; [discriminate|lia]|].
    intros m s h Hm. injection Hm as <- <- <-. eauto 10.
Qed.

Lemma calculateMACD_window_witness :
  calculateMACD (rising 34) 12 26 9 = None <-> (length (rising 34) < 26 + 9)%nat.
Proof. apply (calculateMACD_window (rising 34) 12 26 9). lia. Defined.

Lemma trueRange_nonneg (h l c : number) : 0 <= trueRange h l c.
Proof.
  unfold trueRange, Math_max, Math_abs.
  pose proof (Qabs_nonneg (l - c)%js).
  pose proof (Q.le_max_r (Qmax (h - l)%js (Qabs (h - c)%js)) (Qabs (l - c)%js)).
  lra.
Qed.

Lemma adxSmooth_between (lo hi : Q) (period : nat) (a x : Q) :
  (1 <= period)%nat -> lo <= a -> a <= hi -> lo <= x -> x <= hi ->
  lo <= adxSmooth period a x /\ adxSmooth period a x <= hi.
Proof.
  intros Hp Ha1 Ha2 Hx1 Hx2. apply QofNat_pos in Hp. unfold adxSmooth.
  rewrite qdiv_spec, qadd_spec, qmul_spec, qsub_spec.
  set (p := QofNat period) in *.
  assert (0 <= (p - 1) * (a - lo))%Q by (apply Qmult_le_0_compat; lra).
  assert (0 <= (p - 1) * (hi - a))%Q by (apply Qmult_le_0_compat; lra).
  split.
  - apply Qle_shift_div_l; lra.
  - apply Qle_shift_div_r; lra.
Qed.

(** X5: on bars of equal number [calculateATR] is unavailable exactly on
    inputs shorter than [period + 1] bars, so its second test, on the number
    of true ranges, never fires; and an available ATR is non-negative. *)
Theorem calculateATR_window (highs lows closes : list number) (period : nat) :
  (1 <= period)%nat ->
  length lows = length highs -> length closes = length highs ->
  (calculateATR highs lows closes period = None <-> (length highs < period + 1)%nat)
  /\ (forall v, calculateATR highs lows closes period = Some v -> 0 <= v).
Proof.
  intros Hp _ _. unfold calculateATR.
  destruct (Nat.ltb_spec (length highs) (period + 1)) as [Hlt|Hge].
  - split; [done|]. intros v Hv. discriminate.
  - match goal with |- context [length ?trs <? period] => set (ranges := trs) end.
    assert (length ranges = (length highs - 1)%nat) as Hlen.
    { subst ranges. by rewrite length_map, length_seq. }
    assert (Forall (fun x : number => 0 <= x) ranges) as Hpos.
    { subst ranges. apply Forall_map, Forall_forall. intros i _. apply trueRange_nonneg. }
    destruct (Nat.ltb_spec (length ranges) period) as [Hlt|_]; [lia|].
    split; [split; [discriminate|lia]|].
    intros v Hv. injection Hv as <-.
    apply (fold_left_Forall_inv (fun a : number => 0 <= a) (fun x : number => 0 <= x)).
    + intros a x Hx Ha.
      apply QofNat_pos in Hp. unfold adxSmooth.
      rewrite qdiv_spec, qadd_spec, qmul_spec, qsub_spec.
      assert (0 <= a * (QofNat period - 1))%Q by (apply Qmult_le_0_compat; lra).
      apply Qle_shift_div_l; lra.
    + by apply Forall_drop.
    + apply qdiv_nonneg; [|apply QofNat_pos in Hp; lra].
      apply sum_nonneg. by apply Forall_take.
Qed.

Lemma calculateATR_window_witness :
  exists v, calculateATR (rising 15) (rising 15) (rising 15) 14 = Some v /\ 0 <= v.
Proof.
  eexists. split; [vm_compute; reflexivity|].
  apply (calculateATR_window (rising 15) (rising 15) (rising 15) 14);
    [lia|reflexivity|reflexivity|].
  vm_compute. reflexivity.
Defined.

Lemma Qdiv_nonneg_any (a b : Q) : 0 <= a -> 0 <= b -> 0 <= (a / b)%Q.
Proof.
  intros Ha Hb. unfold Qdiv. apply Qmult_le_0_compat; [done|].
  by apply Qinv_le_0_compat.
Qed.

Lemma wilderSum_nonneg (period : nat) (s x : Q) :
  (1 <= period)%nat -> 0 <= s -> 0 <= x -> 0 <= wilderSum period s x.
Proof.
  intros Hp Hs Hx. apply QofNat_pos in Hp. unfold wilderSum.
  rewrite qadd_spec, qsub_spec, qdiv_spec.
  assert (s / QofNat period <= s)%Q by (apply Qle_shift_div_r; nra).
  lra.
Qed.

Lemma adxBar_nonneg highs lows closes i :
  let '(tr, pdm, mdm) := adxBar highs lows closes i in
  0 <= tr /\ 0 <= pdm /\ 0 <= mdm.
Proof.
  unfold adxBar. split; [apply trueRange_nonneg|]. split.
  - destruct (Qltb _ _ && Qltb 0 _) eqn:E; [|lra].
    apply andb_true_iff in E as [_ E]. apply Qltb_lt in E. lra.
  - destruct (Qltb _ _ && Qltb 0 _) eqn:E; [|lra].
    apply andb_true_iff in E as [_ E]. apply Qltb_lt in E. lra.
Qed.

Lemma dx_value_range (P M : Q) :
  0 <= P -> 0 <= M -> 0 < P + M ->
  0 <= (Qabs (P - M) / (P + M) * 100)%Q /\ (Qabs (P - M) / (P + M) * 100 <= 100)%Q.
Proof.
  intros HP HM HS.
  assert (0 <= Qabs (P - M) / (P + M))%Q
    by (apply Qdiv_nonneg; [apply Qabs_nonneg|done]).
  assert (Qabs (P - M) / (P + M) <= 1)%Q.
  { apply Qle_shift_div_r; [done|]. apply Qabs_Qle_condition. split; lra. }
  lra.
Qed.

Lemma adxStep_ok period st bar :
  (1 <= period)%nat ->
  (let '(tr, pdm, mdm) := bar in 0 <= tr /\ 0 <= pdm /\ 0 <= mdm) ->
  adxOk st -> adxOk (adxStep period st bar).
Proof.
  intros Hp Hbar (Ht & Hpl & Hmi & Hdx). destruct bar as [[tr pdm] mdm].
  destruct Hbar as (Htr & Hpdm & Hmdm).
  pose proof (wilderSum_nonneg period _ _ Hp Ht Htr) as H1.
  pose proof (wilderSum_nonneg period _ _ Hp Hpl Hpdm) as H2.
  pose proof (wilderSum_nonneg period _ _ Hp Hmi Hmdm) as H3.
  unfold adxOk, adxStep. cbn [smoothedTR smoothedPlusDM smoothedMinusDM dx].
  repeat split; try done.
  set (sTR := wilderSum period (smoothedTR st) tr) in *.
  set (sP := wilderSum period (smoothedPlusDM st) pdm) in *.
  set (sM := wilderSum period (smoothedMinusDM st) mdm) in *.
  destruct (Qltb 0 _) eqn:E; [|done].
  apply Qltb_lt in E. apply Forall_app. split; [done|]. constructor; [|constructor].
  assert (0 <= sP / sTR * 100)%Q as HP.
  { pose proof (Qdiv_nonneg_any sP sTR H2 H1). lra. }
  assert (0 <= sM / sTR * 100)%Q as HM.
  { pose proof (Qdiv_nonneg_any sM sTR H3 H1). lra. }
  unfold Math_abs.
  assert (0 < sP / sTR * 100 + sM / sTR * 100)%Q as HS.
  { rewrite !qadd_spec, !qmul_spec, !qdiv_spec in E. exact E. }
  rewrite ?qmul_spec, ?qdiv_spec, ?qadd_spec, ?qsub_spec.
  by apply dx_value_range.
Qed.

Lemma adxLoop_ok highs lows closes period :
  (1 <= period)%nat -> adxOk (adxLoop period (adxBars highs lows closes)).
Proof.
  intros Hp. unfold adxLoop.
  assert (Forall (fun bar : number * number * number =>
            let '(tr, pdm, mdm) := bar in 0 <= tr /\ 0 <= pdm /\ 0 <= mdm)
            (adxBars highs lows closes)) as Hbars.
  { unfold adxBars. apply Forall_map, Forall_forall. intros i _. apply adxBar_nonneg. }
  apply (fold_left_Forall_inv adxOk
           (fun bar : number * number * number =>
              let '(tr, pdm, mdm) := bar in 0 <= tr /\ 0 <= pdm /\ 0 <= mdm)).
  - intros st bar Hb Hst. by apply adxStep_ok.
  - by apply Forall_drop.
  - unfold adxOk, adxInit. cbn [smoothedTR smoothedPlusDM smoothedMinusDM dx].
    pose proof (Forall_take _ period _ Hbars) as Htake.
    repeat split; [..|constructor]; apply sum_nonneg, Forall_map;
      (eapply Forall_impl; [exact Htake|]); intros [[tr pdm] mdm] (H1 & H2 & H3); done.
Qed.

(** X6: an available ADX lies between 0 and 100.  Stated for the call the
    repository makes, with the price series in the place of highs, lows and
    closes. *)
Theorem calculateADX_range (prices : list number) (period : nat) (v : number) :
  (1 <= period)%nat ->
  calculateADX prices prices prices period = Some v -> 0 <= v /\ v <= 100.
Proof.
  intros Hp. unfold calculateADX.
  destruct (_ <? _)%nat; [discriminate|].
  pose proof (adxLoop_ok prices prices prices period Hp) as (_ & _ & _ & Hdx).
  destruct (Nat.ltb_spec (length (dx (adxLoop period (adxBars prices prices prices))))
              period) as [|Hlen]; [discriminate|].
  intros Hv. injection Hv as <-.
  apply (fold_left_Forall_inv (fun a : number => 0 <= a /\ a <= 100)
           (fun x : number => 0 <= x /\ x <= 100)).
  - intros a x [Hx1 Hx2] [Ha1 Ha2]. by apply adxSmooth_between.
  - by apply Forall_drop.
  - apply window_average_between; [done| |by apply Forall_take].
    rewrite length_take. lia.
Qed.

Lemma calculateADX_range_witness :
  exists v, calculateADX (rising 29) (rising 29) (rising 29) 14 = Some v
            /\ 0 <= v /\ v <= 100.
Proof.
  eexists. split; [vm_compute; reflexivity|].
  apply (calculateADX_range (rising 29) 14); [lia|vm_compute; reflexivity].
Defined.

Lemma nth_replicate {A} (n i : nat) (x d : A) :
  (i < n)%nat -> nth i (replicate n x) d = x.
Proof.
  revert i. induction n as [|n IH]; intros [|i] Hi; cbn; try lia; [done|].
  apply IH. lia.
Qed.

Lemma trueRange_flat (x : number) : trueRange x x x == 0.
Proof.
  unfold trueRange, Math_max, Math_abs. rewrite !qsub_spec.
  assert (x - x == 0)%Q as -> by (unfold Qminus; apply Qplus_opp_r).
  reflexivity.
Qed.

Lemma adxBar_flat (x : number) (n i : nat) :
  (1 <= i < n)%nat ->
  let '(tr, pdm, mdm) := adxBar (replicate n x) (replicate n x) (replicate n x) i in
  tr == 0 /\ pdm == 0 /\ mdm == 0.
Proof.
  intros Hi. unfold adxBar. rewrite !nth_replicate by lia.
  split; [apply trueRange_flat|].
  assert ((x - x)%js == 0) as Hz
    by (rewrite qsub_spec; unfold Qminus; apply Qplus_opp_r).
  split.
  - destruct (Qltb _ _ && Qltb 0 _); [exact Hz|reflexivity].
  - destruct (Qltb _ _ && Qltb 0 _); [exact Hz|reflexivity].
Qed.

Lemma wilderSum_zero (period : nat) (s x : number) :
  s == 0 -> x == 0 -> wilderSum period s x == 0.
Proof.
  intros Hs Hx. unfold wilderSum. rewrite qadd_spec, qsub_spec, qdiv_spec, Hs, Hx.
  unfold Qdiv. rewrite Qmult_0_l. reflexivity.
Qed.

Lemma adxStep_idle period st bar :
  (let '(tr, pdm, mdm) := bar in tr == 0 /\ pdm == 0 /\ mdm == 0) ->
  adxIdle st -> adxIdle (adxStep period st bar).
Proof.
  intros Hbar (Ht & Hpl & Hmi & Hdx). destruct bar as [[tr pdm] mdm].
  destruct Hbar as (Htr & Hpdm & Hmdm).
  pose proof (wilderSum_zero period _ _ Ht Htr) as H1.
  pose proof (wilderSum_zero period _ _ Hpl Hpdm) as H2.
  pose proof (wilderSum_zero period _ _ Hmi Hmdm) as H3.
  unfold adxIdle, adxStep. cbn [smoothedTR smoothedPlusDM smoothedMinusDM dx].
  repeat split; try done.
  destruct (Qltb 0 _) eqn:E; [|done].
  apply Qltb_lt in E. exfalso.
  rewrite qadd_spec, !qmul_spec, !qdiv_spec, H1, H2, H3 in E.
  revert E. unfold Qdiv. rewrite !Qmult_0_l, Qplus_0_l. apply Qlt_irrefl.
Qed.

(** X7: on a series that never moves every true range and directional movement
    is zero, no directional index is ever pushed (JavaScript's [0 / 0] fails
    the [diSum > 0] test as the zero of the model does), and the ADX is
    unavailable however long the series is. *)
Theorem calculateADX_flat (x : number) (n period : nat) :
  (1 <= period)%nat ->
  calculateADX (replicate n x) (replicate n x) (replicate n x) period = None.
Proof.
  intros Hp. unfold calculateADX. destruct (_ <? _)%nat; [done|].
  set (bars := adxBars _ _ _).
  assert (Forall (fun bar : number * number * number =>
            let '(tr, pdm, mdm) := bar in tr == 0 /\ pdm == 0 /\ mdm == 0) bars)
    as Hbars.
  { unfold bars, adxBars. apply Forall_map, Forall_forall. intros i Hi.
    apply elem_of_seq in Hi. rewrite length_replicate in Hi.
    apply adxBar_flat. lia. }
  assert (adxIdle (adxLoop period bars)) as (_ & _ & _ & ->).
  { unfold adxLoop.
    apply (fold_left_Forall_inv adxIdle
             (fun bar : number * number * number =>
                let '(tr, pdm, mdm) := bar in tr == 0 /\ pdm == 0 /\ mdm == 0)).
    - intros st bar Hb Hst. by apply adxStep_idle.
    - by apply Forall_drop.
    - pose proof (Forall_take _ period _ Hbars) as Htake.
      unfold adxIdle, adxInit. cbn [smoothedTR smoothedPlusDM smoothedMinusDM dx].
      repeat split; try done; apply sum_zero, Forall_map;
        (eapply Forall_impl; [exact Htake|]);
        intros [[tr pdm] mdm] (H1 & H2 & H3); done. }
  cbn [length]. destruct (Nat.ltb_spec 0 period); [done|lia].
Qed.

Lemma calculateADX_flat_witness :
  calculateADX (replicate 40 5) (replicate 40 5) (replicate 40 5) 14 = None.
Proof. apply (calculateADX_flat 5 40 14). lia. Defined.
End IndicatorMore.

(** ** Venue connection: replies, timeouts, contract updates, reconnection *)
Module VenueMore.

Import Venue.

Lemma request_key_differs (s key : string) :
  key = "buy" \/ key = "sell" \/ key = "*" -> "buy_" +:+ s ≠ key.
Proof. intros [-> | [-> | ->]]; discriminate. Qed.

Lemma resolve_settled (p q : nat) (r r' : TradeResult) (c : Connection) :
  promises c !! p = Some r -> promises (resolve q r' c) !! p = Some r.
Proof.
  intros H. unfold resolve. cbn. destruct (promises c !! q) eqn:E; [done|].
  rewrite lookup_insert_ne; [done|]. intros ->. congruence.
Qed.

Lemma resolve_pending (p : nat) (r : TradeResult) (c : Connection) :
  promises c !! p = None -> promises (resolve p r c) !! p = Some r.
Proof. intros H. unfold resolve. cbn. rewrite H. apply lookup_insert_eq. Qed.

Lemma resolve_other (p q : nat) (r : TradeResult) (c : Connection) :
  p ≠ q -> promises (resolve q r c) !! p = promises c !! p.
Proof.
  intros H. unfold resolve. cbn. destruct (promises c !! q); [done|].
  by rewrite lookup_insert_ne.
Qed.

(** What one invocation of a request handler does to the connection. *)
Lemma runHandler_effect (h : Handler) (data : Message) (c : Connection) :
  let c' := runHandler h data c in
  fired c' = fired c ++ [h]
  /\ (forall p r, promises c !! p = Some r -> promises c' !! p = Some r)
  /\ (forall p, p ≠ handlerPromise h -> promises c' !! p = promises c !! p)
  /\ timeouts c' = timeouts c /\ nextPromise c' = nextPromise c.
Proof.
  destruct h as [reqId q|reqId q]; cbn -[resolve];
    destruct (buy data), (sell data), (error_message data); cbn -[resolve];
    repeat split; try done; intros;
    first [by apply resolve_settled | by rewrite resolve_other].
Qed.

Lemma runHandler_buy_table (reqId : Z) (p : nat) (data : Message) (c : Connection)
    (key : string) :
  key = "buy" \/ key = "sell" \/ key = "*" ->
  messageHandlers (runHandler (BuyHandler reqId p) data c) !! key
  = messageHandlers c !! key.
Proof.
  intros Hkey. unfold runHandler.
  destruct (buy data), (error_message data); cbn;
    by apply lookup_delete_ne, request_key_differs.
Qed.

Lemma runHandler_buy_settles (reqId : Z) (p : nat) (data : Message) (b : BuyPayload)
    (c : Connection) :
  buy data = Some b -> promises c !! p = None ->
  promises (runHandler (BuyHandler reqId p) data c) !! p = Some (bought b).
Proof.
  intros Hb Hp. unfold runHandler. rewrite Hb. cbn -[resolve].
  by apply resolve_pending.
Qed.

Lemma runHandler_sell_table (reqId : Z) (p : nat) (data : Message) (c : Connection) :
  messageHandlers (runHandler (SellHandler reqId p) data c)
  = alter (spliceOut (SellHandler reqId p)) "sell" (messageHandlers c).
Proof.
  unfold runHandler. by destruct (sell data), (error_message data).
Qed.

Lemma runHandler_sell_settles (reqId : Z) (p : nat) (data : Message) (s : SellPayload)
    (c : Connection) :
  sell data = Some s -> promises c !! p = None ->
  promises (runHandler (SellHandler reqId p) data c) !! p = Some (sold s).
Proof.
  intros Hs Hp. unfold runHandler. rewrite Hs. cbn -[resolve].
  by apply resolve_pending.
Qed.

(** Once the index has passed the end of the array nothing more runs. *)
Lemma forEachFrom_past (key : string) (arr l : list Handler) (data : Message)
    (len k : nat) (c : Connection) :
  messageHandlers c !! key = Some l -> (length l <= k)%nat ->
  forEachFrom key arr data k len c = c.
Proof.
  revert k. induction len as [|len IH]; intros k Hl Hk; [done|].
  cbn [forEachFrom]. rewrite Hl. change (default arr (Some l)) with l.
  rewrite (proj2 (lookup_ge_None l k)) by lia. apply IH; [done|lia].
Qed.

Lemma dispatch_absent (key : string) (data : Message) (c : Connection) :
  messageHandlers c !! key = None -> dispatch key data c = c.
Proof. intros H. unfold dispatch. by rewrite H. Qed.

(** *** One buy reply, several orders pending *)

Lemma forEachFrom_buy (arr hs : list Handler) (data : Message) (len k : nat)
    (c : Connection) :
  messageHandlers c !! "buy" = Some hs -> Forall isBuy hs ->
  forEachFrom "buy" arr data k len c
  = fold_left (fun c h => runHandler h data c) (take len (drop k hs)) c.
Proof.
  intros Hhs Hbuy. revert k c Hhs.
  induction len as [|len IH]; intros k c Hhs; [done|].
  cbn [forEachFrom]. rewrite Hhs. change (default arr (Some hs)) with hs.
  destruct (hs !! k) as [h|] eqn:Hk.
  - rewrite (drop_S _ _ _ Hk). cbn [take fold_left]. apply IH.
    assert (isBuy h) as Hh by (eapply Forall_lookup_1; eauto).
    destruct h as [reqId p|]; [|done].
    rewrite runHandler_buy_table; auto.
  - rewrite (drop_ge hs k) by (by apply lookup_ge_None).
    rewrite IH by done.
    rewrite (drop_ge hs (S k)) by (apply lookup_ge_None in Hk; lia).
    by rewrite !take_nil.
Qed.

Lemma buy_fold_effect (data : Message) (b : BuyPayload) (hs : list Handler) :
  buy data = Some b -> Forall isBuy hs ->
  forall c,
    let c' := fold_left (fun c h => runHandler h data c) hs c in
    fired c' = fired c ++ hs
    /\ (forall key, key = "buy" \/ key = "sell" \/ key = "*" ->
          messageHandlers c' !! key = messageHandlers c !! key)
    /\ (forall p r, promises c !! p = Some r -> promises c' !! p = Some r)
    /\ (forall h, h ∈ hs -> promises c !! handlerPromise h = None ->
          promises c' !! handlerPromise h = Some (bought b)).
Proof.
  intros Hb Hbuy. induction Hbuy as [|h hs Hh Hhs IH]; intros c.
  - cbn. rewrite app_nil_r. repeat split; try done. intros h Hin. by apply elem_of_nil in Hin.
  - cbn [fold_left]. cbn zeta.
    destruct (IH (runHandler h data c)) as (Hf & Ht & Hkeep & Hset).
    destruct (runHandler_effect h data c) as (Hf1 & Hkeep1 & Hoth1 & _).
    destruct h as [reqId p|]; [|done].
    repeat split.
    + rewrite Hf, Hf1, <- app_assoc. done.
    + intros key Hkey. rewrite Ht by done. by apply runHandler_buy_table.
    + intros q r Hq. by apply Hkeep, Hkeep1.
    + intros h Hin Hp. apply elem_of_cons in Hin as [->|Hin].
      * apply Hkeep. by apply runHandler_buy_settles.
      * destruct (decide (handlerPromise h = p)) as [Heq|Hne].
        -- apply Hkeep. rewrite Heq in *. by apply runHandler_buy_settles.
        -- apply Hset; [done|]. by rewrite Hoth1.
Qed.

(** X8: the buy handlers do not compare the reply's [req_id] with their own:
    one buy reply runs every handler held under [buy], in registration
    order, leaves them all registered, and settles every promise among them
    that was still pending with the contract of that one reply. *)
Theorem buy_reply_reaches_all (c : Connection) (hs : list Handler) (data : Message)
    (b : BuyPayload) :
  messageHandlers c !! "buy" = Some hs -> messageHandlers c !! "*" = None ->
  Forall isBuy hs -> msg_type data = Some "buy" -> buy data = Some b ->
  fired (handleMessage data c) = fired c ++ hs
  /\ messageHandlers (handleMessage data c) !! "buy" = Some hs
  /\ (forall h, h ∈ hs -> promises c !! handlerPromise h = None ->
        promises (handleMessage data c) !! handlerPromise h = Some (bought b)).
Proof.
  intros Hhs Hstar Hbuy Hty Hb.
  assert (handleMessage data c = fold_left (fun c h => runHandler h data c) hs c) as ->.
  { unfold handleMessage. rewrite Hty. change (nonEmpty "buy") with true. cbn iota.
    assert (dispatch "buy" data c = fold_left (fun c h => runHandler h data c) hs c) as ->.
    { unfold dispatch. rewrite Hhs, (forEachFrom_buy hs hs) by done.
      by rewrite drop_0, firstn_all. }
    apply dispatch_absent.
    destruct (buy_fold_effect data b hs Hb Hbuy c) as (_ & Ht & _).
    rewrite Ht; auto. }
  destruct (buy_fold_effect data b hs Hb Hbuy c) as (Hf & Ht & _ & Hset).
  repeat split; [done| |done]. rewrite Ht; auto.
Qed.

Lemma buy_reply_reaches_all_witness :
  promises (handleMessage (buyReply "C1") twoPendingBuys) !! 1%nat
  = Some (bought {| buy_contract_id := "C1"; buy_buy_price := 1 |}).
Proof.
  apply (proj2 (proj2 (buy_reply_reaches_all twoPendingBuys
           [BuyHandler 1000 0; BuyHandler 2000 1] (buyReply "C1")
           {| buy_contract_id := "C1"; buy_buy_price := 1 |}
           ltac:(vm_compute; reflexivity) ltac:(vm_compute; reflexivity)
           ltac:(repeat constructor) ltac:(reflexivity) ltac:(reflexivity)))
         (BuyHandler 2000 1)).
  - repeat constructor.
  - vm_compute. reflexivity.
Defined.

(** *** One sell reply, several close requests pending *)

Lemma list_pair_ind {A} (P : list A -> Prop) :
  P [] -> (forall x, P [x]) -> (forall x y l, P l -> P (x :: y :: l)) ->
  forall l, P l.
Proof.
  intros H0 H1 H2.
  assert (forall l, P l /\ forall x, P (x :: l)) as H; [|intros l; apply H].
  induction l as [|y l [IH1 IH2]]; split; auto.
Qed.

Lemma evens_odds_elem {A} (l : list A) (x : A) :
  (x ∈ evens l -> x ∈ l) /\ (x ∈ odds l -> x ∈ l).
Proof.
  induction l as [| |a b l [IH1 IH2]] using list_pair_ind; cbn [evens odds].
  - done.
  - split; [done|]. intros H. by apply elem_of_nil in H.
  - split; intros H; apply elem_of_cons in H as [->|H]; set_solver.
Qed.

Lemma odds_apart {A B} (f : A -> B) (l : list A) (x : A) :
  NoDup ((f <$> l)) -> x ∈ odds l -> f x ∉ (f <$> evens l).
Proof.
  induction l as [| |a b l IH] using list_pair_ind; cbn [evens odds fmap list_fmap].
  - intros _ H. inversion H.
  - intros _ H. inversion H.
  - intros Hnd Hx Hin.
    apply NoDup_cons in Hnd as [Ha Hnd]. apply NoDup_cons in Hnd as [Hb Hnd].
    assert (forall y, y ∈ l -> f y ∈ (f <$> l)) as Hmap
      by (intros y Hy; apply list_elem_of_fmap; eauto).
    assert (forall z, z ∈ (f <$> evens l) -> z ∈ (f <$> l)) as Hev.
    { intros z Hz. apply list_elem_of_fmap in Hz as (y & -> & Hy).
      apply Hmap. by apply (proj1 (evens_odds_elem _ _)). }
    apply elem_of_cons in Hx as [->|Hx]; apply elem_of_cons in Hin as [Hin|Hin].
    + apply Ha. rewrite <- Hin. constructor.
    + apply Hb. by apply Hev.
    + apply Ha. rewrite <- Hin. constructor. apply Hmap.
      by apply (proj2 (evens_odds_elem l x)).
    + by apply (IH Hnd Hx).
Qed.

Lemma spliceOut_middle (h : Handler) (kept rest : list Handler) :
  Forall (fun x => handlerPromise x ≠ handlerPromise h) kept ->
  spliceOut h (kept ++ h :: rest) = kept ++ rest.
Proof.
  induction 1 as [|x kept Hx Hkept IH]; cbn [spliceOut app].
  - unfold sameHandler. by rewrite Nat.eqb_refl.
  - unfold sameHandler at 1. rewrite (proj2 (Nat.eqb_neq _ _) Hx). by rewrite IH.
Qed.

Lemma forEachFrom_sell (arr : list Handler) (data : Message) (s : SellPayload) :
  sell data = Some s ->
  forall (len : nat) (rest kept : list Handler) (c : Connection),
    messageHandlers c !! "sell" = Some (kept ++ rest) ->
    Forall isSell rest ->
    NoDup ((handlerPromise <$> kept ++ rest)) ->
    (length rest <= 2 * len)%nat ->
    let c' := forEachFrom "sell" arr data (length kept) len c in
    messageHandlers c' !! "sell" = Some (kept ++ odds rest)
    /\ messageHandlers c' !! "*" = messageHandlers c !! "*"
    /\ fired c' = fired c ++ evens rest
    /\ (forall h, h ∈ evens rest -> promises c !! handlerPromise h = None ->
          promises c' !! handlerPromise h = Some (sold s))
    /\ (forall p, p ∉ (handlerPromise <$> evens rest) ->
          promises c' !! p = promises c !! p).
Proof.
  intros Hs. induction len as [|len IH]; intros rest kept c Htab Hsell Hnd Hlen.
  { destruct rest; [|cbn in Hlen; lia]. cbn. rewrite !app_nil_r in *.
    repeat split; try done. intros h Hh. inversion Hh. }
  destruct rest as [|h0 rest1].
  { cbn zeta. rewrite (forEachFrom_past "sell" arr (kept ++ []) data (S len))
      by (done || (rewrite app_nil_r; lia)).
    cbn [odds evens]. rewrite !app_nil_r in *.
    repeat split; try done. intros h Hh. inversion Hh. }
  cbn zeta. cbn [forEachFrom]. rewrite Htab.
  change (default arr (Some (kept ++ h0 :: rest1))) with (kept ++ h0 :: rest1).
  rewrite lookup_app_r, Nat.sub_diag by lia. cbn [lookup list_lookup].
  apply Forall_cons in Hsell as [Hh0 Hsell].
  destruct h0 as [|reqId p]; [done|].
  set (h0 := SellHandler reqId p) in *.
  set (c1 := runHandler h0 data c).
  destruct (runHandler_effect h0 data c) as (Hf1 & Hkeep1 & Hoth1 & _).
  fold c1 in Hf1, Hkeep1, Hoth1.
  rewrite fmap_app, fmap_cons in Hnd.
  apply NoDup_app in Hnd as (Hndk & Hsep & Hndr).
  apply NoDup_cons in Hndr as [Hp Hndr].
  assert (Forall (fun x => handlerPromise x ≠ handlerPromise h0) kept) as Hkept.
  { apply Forall_forall. intros x Hx Heq. apply (Hsep (handlerPromise x)).
    - apply list_elem_of_fmap. eauto.
    - rewrite Heq. constructor. }
  assert (messageHandlers c1 !! "sell" = Some (kept ++ rest1)) as Htab1.
  { unfold c1, h0. rewrite runHandler_sell_table, lookup_alter_eq, Htab. cbn.
    by rewrite (spliceOut_middle (SellHandler reqId p)). }
  assert (messageHandlers c1 !! "*" = messageHandlers c !! "*") as Hstar1.
  { unfold c1, h0. by rewrite runHandler_sell_table, lookup_alter_ne. }
  assert (NoDup ((handlerPromise <$> kept ++ rest1))) as Hnd1.
  { rewrite fmap_app. apply NoDup_app. repeat split; [done| |done].
    intros x Hx Hx'. apply (Hsep x Hx). by constructor. }
  destruct rest1 as [|h1 rest2].
  - rewrite (forEachFrom_past "sell" arr (kept ++ []) data len)
      by (done || (rewrite app_nil_r; lia)).
    cbn [odds evens]. rewrite app_nil_r in *.
    repeat split; try done.
    + intros h Hh Hpend. apply list_elem_of_singleton in Hh as ->.
      by apply runHandler_sell_settles.
    + intros q Hq. apply Hoth1. intros ->. apply Hq. constructor.
  - apply Forall_cons in Hsell as [Hh1 Hsell].
    replace (S (length kept)) with (length (kept ++ [h1]))
      by (rewrite length_app; cbn; lia).
    destruct (IH rest2 (kept ++ [h1]) c1) as (Ht & Hst & Hf & Hset & Hoth).
    { by rewrite <- app_assoc. }
    { done. }
    { by rewrite <- app_assoc. }
    { cbn [length] in Hlen. lia. }
    assert (handlerPromise h0 ∉ (handlerPromise <$> evens rest2)) as Hp0.
    { intros Hin. apply Hp. right.
      apply list_elem_of_fmap in Hin as (y & -> & Hy).
      apply list_elem_of_fmap. exists y. split; [done|]. by apply (proj1 (evens_odds_elem _ _)). }
    cbn [odds evens]. repeat split.
    + by rewrite Ht, <- app_assoc.
    + by rewrite Hst.
    + by rewrite Hf, Hf1, <- app_assoc.
    + intros h Hh Hpend. apply elem_of_cons in Hh as [->|Hh].
      * rewrite Hoth by done. by apply runHandler_sell_settles.
      * apply Hset; [done|]. rewrite Hoth1; [done|].
        intros Heq. apply Hp0. rewrite <- Heq. apply list_elem_of_fmap. eauto.
    + intros q Hq. rewrite Hoth.
      * apply Hoth1. intros ->. apply Hq. constructor.
      * intros Hin. apply Hq. by right.
Qed.

(** X9: the sell handlers remove themselves from the array that [forEach] is
    walking: with several close requests pending, one sell reply runs the
    handlers at positions 0, 2, 4, ... only.  Those settle their promises
    with the contract of the reply; the handlers at positions 1, 3, 5, ...
    stay registered and their promises stay as they were. *)
Theorem sell_reply_reaches_alternate (c : Connection) (hs : list Handler)
    (data : Message) (s : SellPayload) :
  messageHandlers c !! "sell" = Some hs -> messageHandlers c !! "*" = None ->
  Forall isSell hs -> NoDup ((handlerPromise <$> hs)) ->
  msg_type data = Some "sell" -> sell data = Some s ->
  messageHandlers (handleMessage data c) !! "sell" = Some (odds hs)
  /\ fired (handleMessage data c) = fired c ++ evens hs
  /\ (forall h, h ∈ evens hs -> promises c !! handlerPromise h = None ->
        promises (handleMessage data c) !! handlerPromise h = Some (sold s))
  /\ (forall h, h ∈ odds hs ->
        promises (handleMessage data c) !! handlerPromise h
        = promises c !! handlerPromise h).
Proof.
  intros Hhs Hstar Hsell Hnd Hty Hs.
  destruct (forEachFrom_sell hs data s Hs (length hs) hs [] c)
    as (Ht & Hst & Hf & Hset & Hoth); [done..|lia|].
  cbn [length app] in *.
  assert (handleMessage data c = forEachFrom "sell" hs data 0 (length hs) c) as ->.
  { unfold handleMessage. rewrite Hty. change (nonEmpty "sell") with true. cbn iota.
    assert (dispatch "sell" data c = forEachFrom "sell" hs data 0 (length hs) c) as ->
      by (unfold dispatch; by rewrite Hhs).
    apply dispatch_absent. by rewrite Hst. }
  repeat split; try done.
  intros h Hh. apply Hoth. by apply odds_apart.
Qed.

Lemma sell_reply_reaches_alternate_witness :
  messageHandlers (handleMessage (sellReply "C1") threePendingSells) !! "sell"
  = Some (odds [SellHandler 1000 0; SellHandler 2000 1; SellHandler 3000 2]).
Proof.
  apply (sell_reply_reaches_alternate threePendingSells
           [SellHandler 1000 0; SellHandler 2000 1; SellHandler 3000 2]
           (sellReply "C1")
           {| sell_contract_id := "C1"; sold_for := 2; sell_buy_price := Some 1 |}
           ltac:(vm_compute; reflexivity) ltac:(vm_compute; reflexivity)
           ltac:(repeat constructor)
           ltac:(compute_done)
           ltac:(reflexivity) ltac:(reflexivity)).
Defined.

(** *** Settled promises *)

Lemma forEachFrom_settled (key : string) (arr : list Handler) (data : Message)
    (p : nat) (r : TradeResult) (len k : nat) (c : Connection) :
  promises c !! p = Some r ->
  promises (forEachFrom key arr data k len c) !! p = Some r.
Proof.
  revert k c. induction len as [|len IH]; intros k c Hp; [done|].
  cbn [forEachFrom]. destruct (_ !! k) as [h|]; [|by apply IH].
  apply IH. by apply (runHandler_effect h data c).
Qed.

Lemma handleMessage_settled (data : Message) (p : nat) (r : TradeResult)
    (c : Connection) :
  promises c !! p = Some r -> promises (handleMessage data c) !! p = Some r.
Proof.
  assert (forall key c, promises c !! p = Some r ->
            promises (dispatch key data c) !! p = Some r) as Hd.
  { intros key c' Hp. unfold dispatch.
    destruct (_ !! key); [by apply forEachFrom_settled|done]. }
  intros Hp. unfold handleMessage.
  destruct (msg_type data) as [msgType|]; [|done].
  destruct (nonEmpty msgType); [|done]. by apply Hd, Hd.
Qed.

Lemma fireTimeout_settled (now : Z) (p : nat) (r : TradeResult) (c : Connection) :
  promises c !! p = Some r -> promises (fireTimeout now c) !! p = Some r.
Proof.
  intros Hp. unfold fireTimeout.
  destruct (timeouts c) as [|[[due q] msg] rest]; [done|].
  destruct (due <=? now)%Z; [|done]. by apply resolve_settled.
Qed.

(** X10: A promise settles once: whatever the connection does next (further
    orders and close requests, any inbound message, any timer), a settled
    promise keeps the result it was settled with.  In particular the reply
    to a request that has timed out is not seen by its caller. *)
Theorem settled_promise_is_final (events : list Event) (c : Connection)
    (p : nat) (r : TradeResult) :
  promises c !! p = Some r -> promises (run events c) !! p = Some r.
Proof.
  revert c. unfold run.
  induction events as [|e events IH]; intros c Hp; [done|].
  cbn [fold_left]. apply IH. destruct e; cbn [step].
  - exact Hp.
  - exact Hp.
  - by apply handleMessage_settled.
  - by apply fireTimeout_settled.
Qed.

Lemma settled_promise_is_final_witness :
  promises (run [Receive (sellReply "C1"); Timer 20000] sellTimedOut) !! 0%nat
  = Some (failure "Sell contract timeout").
Proof.
  apply (settled_promise_is_final [Receive (sellReply "C1"); Timer 20000]
           sellTimedOut 0 (failure "Sell contract timeout")).
  vm_compute. reflexivity.
Defined.

(** *** Timeouts *)

(** X11: an order placed when no other request is waiting: its promise is the
    next one allocated and starts pending; before ten seconds have passed
    the timer does nothing; from ten seconds on, if no reply has come, it
    settles the promise with the failure "Trade execution timeout". *)
Theorem unanswered_buy_times_out (c : Connection) (now t : Z) (symbol : string)
    (contractType : ContractType) (amount duration : number)
    (durationUnit : DurationUnit) :
  timeouts c = [] -> promises c !! nextPromise c = None ->
  let p := (buyContract now symbol contractType amount duration durationUnit c).1 in
  let c1 := (buyContract now symbol contractType amount duration durationUnit c).2 in
  p = nextPromise c
  /\ promises c1 !! p = None
  /\ ((t < now + 10000)%Z -> fireTimeout t c1 = c1)
  /\ ((now + 10000 <= t)%Z ->
        promises (fireTimeout t c1) !! p = Some (failure "Trade execution timeout")
        /\ timeouts (fireTimeout t c1) = []).
Proof.
  intros Ht Hp. cbn zeta. unfold buyContract, register, fireTimeout.
  cbn [fst snd timeouts]. change (timeouts (send _ _)) with (timeouts c).
  rewrite Ht. cbn [app].
  repeat split; try done.
  - intros Hlt. by rewrite (proj2 (Z.leb_gt _ _) Hlt).
  - rewrite (proj2 (Z.leb_le _ _) H). by apply resolve_pending.
  - by rewrite (proj2 (Z.leb_le _ _) H).
Qed.

Lemma unanswered_buy_times_out_witness :
  promises (fireTimeout 11000 (buyContract 1000 "R_10" CALL 1 5 unit_t initial).2)
    !! 0%nat
  = Some (failure "Trade execution timeout").
Proof.
  apply (unanswered_buy_times_out initial 1000 11000 "R_10" CALL 1 5 unit_t
           ltac:(reflexivity) ltac:(reflexivity)).
  lia.
Defined.

(** *** Contract updates *)

(** X12: the status and the flags of a contract update agree: the status is never
    [expired]; it is [sold] exactly when the contract is sold, whatever else
    holds; [won] and [lost] are given to expired, unsold contracts only, [won]
    with a profit that is not negative and [lost] with one that is not
    positive (a missing profit counts as lost, with profit 0); and every
    update whose status is not [open] is settled. *)
Theorem contract_status_consistent (poc : OpenContract) :
  cu_status (contractUpdate poc) ≠ status_expired
  /\ (cu_status (contractUpdate poc) = status_sold <-> isSold (contractUpdate poc) = true)
  /\ (cu_status (contractUpdate poc) = status_won ->
        isExpired (contractUpdate poc) = true /\ isSold (contractUpdate poc) = false
        /\ 0 <= cu_profit (contractUpdate poc))
  /\ (cu_status (contractUpdate poc) = status_lost ->
        isExpired (contractUpdate poc) = true /\ isSold (contractUpdate poc) = false
        /\ cu_profit (contractUpdate poc) <= 0)
  /\ (cu_status (contractUpdate poc) ≠ status_open ->
        isSettled (contractUpdate poc) = true).
Proof.
  unfold contractUpdate, determineContractStatus, profitNonNegative.
  cbn [cu_status isSold isExpired isSettled cu_profit].
  destruct (is_sold poc), (is_expired poc), (is_settleable poc),
    (poc_profit poc) as [p|]; cbn [orZero negb orb];
    try destruct (Qltb p 0) eqn:E; cbn [negb];
    repeat match goal with
           | |- _ /\ _ => split
           | |- _ <-> _ => split
           | |- _ -> _ => intros ?
           end;
    try congruence; unfold orZero;
    try (apply Qltb_lt in E); try (apply Qltb_ge in E);
    try destruct (Qeq_bool p 0); lra.
Qed.

(** *** Reconnection *)

Lemma attemptReconnect_iter (n : nat) (r : Reconnect) :
  (reconnectAttempts r <= 5)%nat ->
  let m := Nat.min (reconnectAttempts r + n) 5 in
  reconnectAttempts (Nat.iter n attemptReconnect r) = m
  /\ scheduled (Nat.iter n attemptReconnect r)
     = scheduled r
       ++ map (fun i => (reconnectDelay * 2 ^ Z.of_nat i)%Z)
              (seq (reconnectAttempts r) (m - reconnectAttempts r)).
Proof.
  intros Hr. cbn zeta. induction n as [|n [IHa IHs]].
  - cbn [Nat.iter nat_rect]. rewrite Nat.add_0_r, Nat.min_l, Nat.sub_diag by done.
    cbn. by rewrite app_nil_r.
  - rewrite Nat.iter_succ. unfold attemptReconnect at 1 3, maxReconnectAttempts.
    rewrite IHa.
    destruct (Nat.leb_spec 5 (Nat.min (reconnectAttempts r + n) 5)) as [Hle|Hlt].
    + rewrite IHa, IHs. split; [lia|]. do 3 f_equal. lia.
    + cbn [reconnectAttempts scheduled]. rewrite IHs. split; [lia|].
      rewrite <- app_assoc. f_equal.
      replace (Nat.min (reconnectAttempts r + S n) 5 - reconnectAttempts r)%nat
        with (S (Nat.min (reconnectAttempts r + n) 5 - reconnectAttempts r)) by lia.
      rewrite seq_S, map_app. cbn [map]. do 4 f_equal. lia.
Qed.

(** X13: after the socket has opened, [n] closes in a row schedule reconnections
    with the delays 1000, 2000, 4000, 8000 and 16000 ms, in that order, and
    none after the fifth. *)
Theorem reconnect_backoff (n : nat) (r : Reconnect) :
  scheduled (Nat.iter n attemptReconnect (onopen r))
  = scheduled r ++ backoff (Nat.min n 5)
  /\ reconnectAttempts (Nat.iter n attemptReconnect (onopen r)) = Nat.min n 5.
Proof.
  destruct (attemptReconnect_iter n (onopen r)) as [Ha Hs]; [cbn; lia|].
  cbn [onopen reconnectAttempts scheduled] in Ha, Hs.
  rewrite Nat.add_0_l, Nat.sub_0_r in Hs. by rewrite Nat.add_0_l in Ha.
Qed.

(** *** Tick subscriptions *)

Lemma resubscribe_fold (rest : list string) (f : Feed) :
  feedOpen f = true ->
  fold_left (fun f s => sendTick (SubscribeTicks s) f) rest f
  = {| feedOpen := true; subscriptions := subscriptions f;
       requested := requested f ++ map SubscribeTicks rest |}.
Proof.
  revert f. induction rest as [|s rest IH]; intros [o subs reqs] Ho; cbn in Ho; subst o.
  - cbn. by rewrite app_nil_r.
  - cbn [fold_left]. rewrite IH by done. cbn. by rewrite <- app_assoc.
Qed.

Lemma subscribe_all (symbols : list string) : forall (f : Feed),
  feedOpen f = true -> NoDup (subscriptions f ++ symbols) ->
  fold_left (fun f s => subscribeTicks s f) symbols f
  = {| feedOpen := true; subscriptions := subscriptions f ++ symbols;
       requested := requested f ++ map SubscribeTicks symbols |}.
Proof.
  induction symbols as [|s rest IH]; intros [o subs reqs] Ho Hnd; cbn in Ho; subst o.
  - cbn. by rewrite !app_nil_r.
  - cbn [fold_left]. cbn [subscriptions] in Hnd.
    assert (s ∉ subs) as Hs.
    { apply NoDup_app in Hnd as (_ & Hsep & _). intros Hin. apply (Hsep s Hin). constructor. }
    rewrite IH.
    + unfold subscribeTicks, sendTick. cbn. rewrite bool_decide_eq_false_2 by done.
      by rewrite <- !app_assoc.
    + unfold subscribeTicks, sendTick. by cbn.
    + unfold subscribeTicks, sendTick. cbn. rewrite bool_decide_eq_false_2 by done.
      by rewrite <- app_assoc.
Qed.

Lemma filter_others (s : string) (l : list string) :
  s ∉ l -> filter (fun x => x ≠ s) l = l.
Proof.
  induction l as [|x l IH]; intros Hs; [done|].
  apply not_elem_of_cons in Hs as [Hne Hs].
  rewrite filter_cons_True by (by intros ->). by rewrite IH.
Qed.

Lemma unsubscribe_all (symbols : list string) : forall (reqs : list TickRequest),
  NoDup symbols ->
  fold_left (fun f s => unsubscribeTicks s f) symbols
    {| feedOpen := true; subscriptions := symbols; requested := reqs |}
  = {| feedOpen := true; subscriptions := [];
       requested := reqs ++ unsubscribeTraffic symbols |}.
Proof.
  induction symbols as [|s rest IH]; intros reqs Hnd.
  - cbn. by rewrite app_nil_r.
  - apply NoDup_cons in Hnd as [Hs Hnd]. cbn [fold_left unsubscribeTraffic].
    assert (unsubscribeTicks s {| feedOpen := true; subscriptions := s :: rest;
                                  requested := reqs |}
            = {| feedOpen := true; subscriptions := rest;
                 requested := (reqs ++ [ForgetAllTicks]) ++ map SubscribeTicks rest |})
      as ->.
    { unfold unsubscribeTicks. cbn [feedOpen subscriptions requested].
      rewrite filter_cons_False by (intros H; by apply H).
      rewrite (filter_others s rest Hs). by rewrite resubscribe_fold. }
    rewrite IH by done. by rewrite <- !app_assoc.
Qed.

Lemma unsubscribeTraffic_length (symbols : list string) :
  (2 * length (unsubscribeTraffic symbols)
   = length symbols * (length symbols + 1))%nat.
Proof.
  induction symbols as [|s rest IH]; [done|].
  cbn [unsubscribeTraffic length]. rewrite length_app, length_map. lia.
Qed.

(** X14: subscribing to distinct symbols and then unsubscribing from each of
    them in turn, as [start] and [stop] of the engine do, sends one
    subscription per symbol and then, for every symbol, a request to forget
    all tick streams followed by a new subscription to each symbol that is
    still left: [n (n + 1) / 2] requests for the [n] calls of
    [unsubscribeTicks].  Nothing stays subscribed. *)
Theorem unsubscribing_resubscribes (symbols : list string) (f : Feed) :
  feedOpen f = true -> subscriptions f = [] -> NoDup symbols ->
  fold_left (fun f s => unsubscribeTicks s f) symbols
    (fold_left (fun f s => subscribeTicks s f) symbols f)
  = {| feedOpen := true; subscriptions := [];
       requested := requested f ++ map SubscribeTicks symbols
                    ++ unsubscribeTraffic symbols |}
  /\ (2 * length (unsubscribeTraffic symbols)
      = length symbols * (length symbols + 1))%nat.
Proof.
  intros Ho Hsub Hnd. split; [|apply unsubscribeTraffic_length].
  rewrite subscribe_all by (by rewrite ?Hsub).
  rewrite Hsub. cbn [app]. rewrite unsubscribe_all by done.
  by rewrite <- app_assoc.
Qed.

Lemma unsubscribing_resubscribes_witness :
  requested
    (fold_left (fun f s => unsubscribeTicks s f) ["R_10"; "R_25"; "R_50"]
       (fold_left (fun f s => subscribeTicks s f) ["R_10"; "R_25"; "R_50"]
          {| feedOpen := true; subscriptions := []; requested := [] |}))
  = [SubscribeTicks "R_10"; SubscribeTicks "R_25"; SubscribeTicks "R_50";
     ForgetAllTicks; SubscribeTicks "R_25"; SubscribeTicks "R_50";
     ForgetAllTicks; SubscribeTicks "R_50"; ForgetAllTicks].
Proof.
  assert (NoDup ["R_10"; "R_25"; "R_50"]) as Hnd by compute_done.
  destruct (unsubscribing_resubscribes ["R_10"; "R_25"; "R_50"]
              {| feedOpen := true; subscriptions := []; requested := [] |}
              eq_refl eq_refl Hnd) as [H _].
  by rewrite H.
Defined.
End VenueMore.

(** ** Trade execution queue: order, debouncing, promises, cooldown, backoff *)
Module QueueMore.

Import Venue Queue.

(** *** The comparator and the sort *)

Lemma inject_Z_le_0 (z : Z) : inject_Z z <= 0 <-> (z <= 0)%Z.
Proof. unfold Qle. cbn. lia. Qed.

Lemma compareTrades_le (a b : QueuedTrade) :
  Qle_bool (compareTrades a b) 0 = true -> goesBefore a b.
Proof.
  unfold compareTrades, goesBefore. intros H. apply Qle_bool_iff in H.
  destruct (Qeq_bool (priority b) (priority a)) eqn:E; cbn [negb] in H.
  - apply Qeq_bool_iff in E. apply (proj1 (inject_Z_le_0 _)) in H. right. split; [by symmetry|lia].
  - apply Qeq_bool_neq in E. rewrite qsub_spec in H. left.
    apply Qle_lteq in H as [H|H]; [lra|]. exfalso. apply E. lra.
Qed.

Lemma compareTrades_gt (a b : QueuedTrade) :
  Qle_bool (compareTrades a b) 0 = false -> goesBefore b a.
Proof.
  unfold compareTrades, goesBefore. intros H.
  assert (~ compareTrades a b <= 0) as Hn
    by (intros Hle; apply Qle_bool_iff in Hle; unfold compareTrades in Hle; congruence).
  unfold compareTrades in Hn.
  destruct (Qeq_bool (priority b) (priority a)) eqn:E; cbn [negb] in Hn.
  - apply Qeq_bool_iff in E. right. split; [done|].
    destruct (Z.le_gt_cases (addedAt b) (addedAt a)) as [|Hgt]; [done|].
    exfalso. apply Hn, inject_Z_le_0. lia.
  - rewrite qsub_spec in Hn. left. lra.
Qed.

Lemma goesBefore_trans (a b c : QueuedTrade) :
  goesBefore a b -> goesBefore b c -> goesBefore a c.
Proof.
  unfold goesBefore. intros [H1|[H1 H1']] [H2|[H2 H2']].
  - left. lra.
  - left. lra.
  - left. lra.
  - right. split; [lra|lia].
Qed.

Lemma insertSorted_perm (x : QueuedTrade) (l : list QueuedTrade) :
  insertSorted x l ≡ₚ x :: l.
Proof.
  induction l as [|y l IH]; cbn [insertSorted]; [done|].
  destruct (Qle_bool _ _); [done|]. rewrite IH. apply Permutation_swap.
Qed.

Lemma insertSorted_ordered (x : QueuedTrade) (l : list QueuedTrade) :
  ordered l -> ordered (insertSorted x l).
Proof.
  induction l as [|y l IH]; cbn [insertSorted ordered].
  - by repeat split.
  - intros [Hy Hl]. destruct (Qle_bool _ _) eqn:E; cbn [ordered].
    + apply compareTrades_le in E. repeat split; try done.
      constructor; [done|]. eapply Forall_impl; [exact Hy|].
      intros z Hz. by apply (goesBefore_trans x y z).
    + apply compareTrades_gt in E. split; [|by apply IH].
      rewrite insertSorted_perm. by constructor.
Qed.

Lemma sortQueue_perm (l : list QueuedTrade) : sortQueue l ≡ₚ l.
Proof.
  unfold sortQueue. induction l as [|x l IH]; cbn [foldr]; [done|].
  by rewrite insertSorted_perm, IH.
Qed.

Lemma sortQueue_ordered (l : list QueuedTrade) : ordered (sortQueue l).
Proof.
  unfold sortQueue. induction l as [|x l IH]; cbn [foldr]; [done|].
  by apply insertSorted_ordered.
Qed.

Lemma ordered_tail (x : QueuedTrade) (l : list QueuedTrade) :
  ordered (x :: l) -> ordered l.
Proof. by intros [_ H]. Qed.

(** *** What each entry point does to the intents and promises *)

Lemma cancel_fold (res : TradeResult) (f : State -> QueuedTrade -> State) :
  (forall q t,
     f q t = resolveTrade (withStatus cancelled t) res
               (set_pendingSymbols (pendingSymbols q ∖ {[symbol t]}) q)) ->
  forall (ts : list QueuedTrade) (q : State),
    let q' := fold_left f ts q in
    queue q' = queue q /\ inFlight q' = inFlight q
    /\ isProcessing q' = isProcessing q /\ nextPromise q' = nextPromise q
    /\ pendingSymbols q' = pendingSymbols q ∖ list_to_set (symbol <$> ts)
    /\ resolutions q'
       = resolutions q ++ ((fun t => Settled (withStatus cancelled t) res) <$> ts)
    /\ symbolCooldowns q' = symbolCooldowns q
    /\ isThrottled q' = isThrottled q /\ throttleEndsAt q' = throttleEndsAt q
    /\ lastExecutionTime q' = lastExecutionTime q
    /\ venueCalls q' = venueCalls q.
Proof.
  intros Hf ts. induction ts as [|t ts IH]; intros q; cbn [fold_left].
  - cbn. rewrite app_nil_r, difference_empty_L. by repeat split.
  - destruct (IH (f q t)) as (H1 & H2 & H3 & H4 & H5 & H6 & H7 & H8 & H9 & H10 & H11).
    cbn zeta. rewrite H1, H2, H3, H4, H5, H6, H7, H8, H9, H10, H11, Hf. cbn.
    rewrite <- app_assoc, difference_difference_l_L. by repeat split.
Qed.

Lemma cancelOne_fold (ts : list QueuedTrade) (q : State) :
  let q' := fold_left cancelOne ts q in
  queue q' = queue q /\ inFlight q' = inFlight q
  /\ isProcessing q' = isProcessing q /\ nextPromise q' = nextPromise q
  /\ pendingSymbols q' = pendingSymbols q ∖ list_to_set (symbol <$> ts)
  /\ resolutions q'
     = resolutions q ++ ((fun t => Settled (withStatus cancelled t) cancelResult) <$> ts)
  /\ symbolCooldowns q' = symbolCooldowns q
  /\ isThrottled q' = isThrottled q /\ throttleEndsAt q' = throttleEndsAt q
  /\ lastExecutionTime q' = lastExecutionTime q
  /\ venueCalls q' = venueCalls q.
Proof. by apply cancel_fold. Qed.

Lemma cancelManually_fold (ts : list QueuedTrade) (q : State) :
  let q' := fold_left cancelManually ts q in
  queue q' = queue q /\ inFlight q' = inFlight q
  /\ isProcessing q' = isProcessing q /\ nextPromise q' = nextPromise q
  /\ pendingSymbols q' = pendingSymbols q ∖ list_to_set (symbol <$> ts)
  /\ resolutions q'
     = resolutions q
       ++ ((fun t => Settled (withStatus cancelled t) manualCancelResult) <$> ts)
  /\ symbolCooldowns q' = symbolCooldowns q
  /\ isThrottled q' = isThrottled q /\ throttleEndsAt q' = throttleEndsAt q
  /\ lastExecutionTime q' = lastExecutionTime q
  /\ venueCalls q' = venueCalls q.
Proof. by apply cancel_fold. Qed.

Lemma resolved_cancelled (res : TradeResult) (ts : list QueuedTrade) :
  resolvedPromise <$> ((fun t => Settled (withStatus cancelled t) res) <$> ts)
  = resolver <$> ts.
Proof. rewrite <- list_fmap_compose. by apply list_fmap_ext. Qed.

Ltac qsimpl :=
  cbn [queue pendingSymbols symbolCooldowns isProcessing isThrottled throttleEndsAt
       lastExecutionTime inFlight nextPromise throttleNotes statsNotes resolutions
       venueCalls set_queue set_pendingSymbols set_symbolCooldowns set_isProcessing
       set_isThrottled set_throttleEndsAt set_lastExecutionTime set_inFlight
       set_nextPromise set_throttleNotes set_statsNotes set_resolutions
       set_venueCalls notifyThrottle updateStats resolveTrade] in *.

Lemma handleRateLimitError_effect (now : Z) (q : State) :
  let q' := handleRateLimitError now q in
  queue q' = [] /\ inFlight q' = inFlight q
  /\ isProcessing q' = isProcessing q /\ nextPromise q' = nextPromise q
  /\ pendingSymbols q' = pendingSymbols q ∖ list_to_set (symbol <$> queue q)
  /\ resolutions q'
     = resolutions q
       ++ ((fun t => Settled (withStatus cancelled t) cancelResult) <$> queue q)
  /\ symbolCooldowns q' = symbolCooldowns q
  /\ lastExecutionTime q' = lastExecutionTime q
  /\ isThrottled q' = true
  /\ throttleEndsAt q' = Some (now + RATE_LIMIT_BACKOFF_MS)%Z
  /\ venueCalls q' = venueCalls q.
Proof.
  unfold handleRateLimitError. cbn zeta.
  match goal with
  | |- context [fold_left cancelOne ?ts ?q0] =>
      pose proof (cancelOne_fold ts q0)
        as (H1 & H2 & H3 & H4 & H5 & H6 & H7 & H8 & H9 & H10 & H11);
      remember (fold_left cancelOne ts q0) as q1 eqn:Eq1; clear Eq1
  end.
  qsimpl. by rewrite H1, H2, H3, H4, H5, H6, H7, H8, H9, H10, H11.
Qed.

Lemma clearQueue_effect (q : State) :
  let q' := clearQueue q in
  queue q' = [] /\ inFlight q' = inFlight q
  /\ isProcessing q' = isProcessing q /\ nextPromise q' = nextPromise q
  /\ pendingSymbols q' = pendingSymbols q ∖ list_to_set (symbol <$> queue q)
  /\ resolutions q'
     = resolutions q
       ++ ((fun t => Settled (withStatus cancelled t) manualCancelResult) <$> queue q)
  /\ symbolCooldowns q' = symbolCooldowns q
  /\ lastExecutionTime q' = lastExecutionTime q
  /\ isThrottled q' = isThrottled q
  /\ throttleEndsAt q' = throttleEndsAt q
  /\ venueCalls q' = venueCalls q.
Proof.
  unfold clearQueue. cbn zeta.
  match goal with
  | |- context [fold_left cancelManually ?ts ?q0] =>
      pose proof (cancelManually_fold ts q0)
        as (H1 & H2 & H3 & H4 & H5 & H6 & H7 & H8 & H9 & H10 & H11);
      remember (fold_left cancelManually ts q0) as q1 eqn:Eq1; clear Eq1
  end.
  qsimpl. by rewrite H1, H2, H3, H4, H5, H6, H7, H8, H9, H10, H11.
Qed.

(** The settling of the venue call of the intent in flight: the intent is
    resolved and leaves; the queue either stays or, on the throttle path,
    is cancelled as a whole before that. *)
Lemma completeExecution_effect (now : Z) (outcome : VenueOutcome) (q : State)
    (t : QueuedTrade) :
  inFlight q = Some t ->
  let q' := completeExecution now outcome q in
  inFlight q' = None /\ isProcessing q' = false /\ nextPromise q' = nextPromise q
  /\ ((queue q' = queue q
       /\ pendingSymbols q' = pendingSymbols q ∖ {[symbol t]}
       /\ resolvedPromise <$> resolutions q'
          = (resolvedPromise <$> resolutions q) ++ [resolver t])
      \/ (queue q' = []
          /\ pendingSymbols q'
             = pendingSymbols q ∖ list_to_set (symbol <$> queue q) ∖ {[symbol t]}
          /\ resolvedPromise <$> resolutions q'
             = (resolvedPromise <$> resolutions q) ++ (resolver <$> queue q)
               ++ [resolver t])).
Proof.
  intros Hin. cbn zeta. unfold completeExecution. rewrite Hin.
  assert (forall q0 : State,
            queue q0 = queue q -> inFlight q0 = inFlight q ->
            isProcessing q0 = isProcessing q -> nextPromise q0 = nextPromise q ->
            pendingSymbols q0 = pendingSymbols q -> resolutions q0 = resolutions q ->
            forall q1, q1 = handleRateLimitError now q0 ->
            queue q1 = [] /\ nextPromise q1 = nextPromise q
            /\ pendingSymbols q1 = pendingSymbols q ∖ list_to_set (symbol <$> queue q)
            /\ resolvedPromise <$> resolutions q1
               = (resolvedPromise <$> resolutions q) ++ (resolver <$> queue q)) as Hrl.
  { intros q0 E1 E2 E3 E4 E5 E6 q1 ->.
    destruct (handleRateLimitError_effect now q0) as (H1 & _ & _ & H4 & H5 & H6 & _).
    rewrite H1, H4, H5, H6, E1, E4, E5, E6, fmap_app, resolved_cancelled. done. }
  unfold executeTrade. destruct outcome as [result|errorMessage].
  - destruct (rateLimited result).
    + match goal with
      | |- context [handleRateLimitError now ?q0] =>
          destruct (Hrl q0 eq_refl eq_refl eq_refl eq_refl eq_refl eq_refl
                      (handleRateLimitError now q0) eq_refl) as (H1 & H2 & H3 & H4);
          remember (handleRateLimitError now q0) as q1 eqn:Eq1; clear Eq1
      end.
      qsimpl. repeat split; try done. right.
      rewrite H1, H3, fmap_app, H4, <- app_assoc. done.
    + qsimpl. repeat split; try done. left. by rewrite fmap_app.
  - destruct (includes _ _).
    + match goal with
      | |- context [handleRateLimitError now ?q0] =>
          destruct (Hrl q0 eq_refl eq_refl eq_refl eq_refl eq_refl eq_refl
                      (handleRateLimitError now q0) eq_refl) as (H1 & H2 & H3 & H4);
          remember (handleRateLimitError now q0) as q1 eqn:Eq1; clear Eq1
      end.
      qsimpl. repeat split; try done. right.
      rewrite H1, H3, fmap_app, H4, <- app_assoc. done.
    + qsimpl. repeat split; try done. left. by rewrite fmap_app.
Qed.

(** *** The invariant *)

Lemma Consistent_initial : Consistent initial.
Proof. split; cbn; try done. by apply NoDup_nil. Qed.

(** [Consistent] looks at six fields only. *)
Lemma Consistent_same (q q' : State) :
  queue q' = queue q -> inFlight q' = inFlight q ->
  isProcessing q' = isProcessing q -> nextPromise q' = nextPromise q ->
  pendingSymbols q' = pendingSymbols q -> resolutions q' = resolutions q ->
  Consistent q -> Consistent q'.
Proof.
  intros E1 E2 E3 E4 E5 E6 [H1 H2 H3 H4 H5].
  split; unfold waiting in *; rewrite ?E1, ?E2, ?E3, ?E4, ?E5, ?E6; done.
Qed.

Lemma promise_rejected (rs : list nat) (ws : list nat) (p : nat) :
  rs ++ ws ≡ₚ seq 0 p -> (rs ++ [p]) ++ ws ≡ₚ seq 0 (S p).
Proof.
  intros H. rewrite seq_S, <- H. cbn.
  rewrite <- !app_assoc. apply Permutation_app_head, Permutation_app_comm.
Qed.

Lemma addTrade_consistent (now : Z) (sym : string) (ct : ContractType)
    (amt dur : number) (unit : DurationUnit) (prio : number) (q : State) :
  Consistent q -> Consistent (addTrade now sym ct amt dur unit prio q).
Proof.
  intros [H1 H2 H3 H4 H5]. unfold addTrade. cbn zeta.
  change (pendingSymbols (set_nextPromise _ q)) with (pendingSymbols q).
  change (symbolCooldowns (set_nextPromise _ q)) with (symbolCooldowns q).
  destruct (decide (sym ∈ pendingSymbols q)) as [Hpend|Hpend].
  { split; unfold waiting in *; qsimpl; try done.
    rewrite fmap_app. by apply promise_rejected. }
  match goal with |- context [if ?b then _ else _] => destruct b end.
  { split; unfold waiting in *; qsimpl; try done.
    rewrite fmap_app. by apply promise_rejected. }
  match goal with
  | |- context [sortQueue (_ ++ [?t])] => set (trade := t)
  end.
  assert (option_list (inFlight q) ++ sortQueue (queue q ++ [trade])
          ≡ₚ (option_list (inFlight q) ++ queue q) ++ [trade]) as Hw
    by (by rewrite sortQueue_perm, app_assoc).
  split; unfold waiting in *; qsimpl.
  - rewrite Hw, fmap_app, list_to_set_app_L, <- H1. cbn.
    rewrite union_empty_r_L. apply union_comm_L.
  - rewrite Hw, fmap_app. apply NoDup_app. split; [done|]. split.
    + intros x Hx Hx'. apply list_elem_of_singleton in Hx'. subst x.
      apply Hpend. rewrite H1. by apply elem_of_list_to_set.
    + apply NoDup_singleton.
  - rewrite Hw, fmap_app, app_assoc, H3, seq_S. done.
  - apply sortQueue_ordered.
  - done.
Qed.

Lemma processLoop_consistent (now : Z) (q : State) :
  Consistent q -> Consistent (processLoop now q).
Proof.
  intros Hq. unfold processLoop.
  destruct (isProcessing q) eqn:Hproc; [done|]. cbn [orb].
  destruct (bool_decide (queue q = [])); [done|].
  destruct (isThrottled q && (now <? throttleEnd q)%Z); [done|].
  match goal with
  | |- context [match lastExecutionTime ?q0 with _ => _ end] => set (q1 := q0)
  end.
  assert (Consistent q1 /\ isProcessing q1 = false) as [Hq1 Hproc1].
  { unfold q1. destruct (isThrottled q && (throttleEnd q <=? now)%Z); [|done].
    split; [|done]. by apply (Consistent_same q). }
  clearbody q1.
  match goal with |- context [if ?b then _ else _] => destruct b end; [done|].
  destruct (queue q1) as [|trade rest] eqn:Hqueue; [done|].
  destruct Hq1 as [H1 H2 H3 H4 H5]. specialize (H5 Hproc1).
  unfold waiting in *. rewrite H5, Hqueue in *.
  split; unfold waiting; qsimpl; try done.
  by apply ordered_tail in H4.
Qed.

Lemma completeExecution_consistent (now : Z) (outcome : VenueOutcome) (q : State) :
  Consistent q -> Consistent (completeExecution now outcome q).
Proof.
  intros [H1 H2 H3 H4 H5].
  destruct (inFlight q) as [t|] eqn:Hin;
    [|unfold completeExecution; rewrite Hin; by split; rewrite ?Hin].
  destruct (completeExecution_effect now outcome q t Hin)
    as (E1 & E2 & E3 & Hcases).
  remember (completeExecution now outcome q) as q' eqn:Eq; clear Eq.
  unfold waiting in *. rewrite Hin in *.
  change (option_list (Some t) ++ queue q) with (t :: queue q) in *.
  rewrite !fmap_cons in *. apply NoDup_cons in H2 as [Ht H2].
  destruct Hcases as [(E4 & E5 & E6)|(E4 & E5 & E6)];
    split; unfold waiting; rewrite ?E1, ?E3, ?E4, ?E5, ?E6;
    change (option_list None) with (@nil QueuedTrade); cbn [app]; try done.
  - rewrite H1. apply set_eq. intros x.
    rewrite elem_of_difference, !elem_of_list_to_set, elem_of_cons, elem_of_singleton.
    split; [intros [[->|Hx] Hne]; done|].
    intros Hx. split; [by right|]. by intros ->.
  - by rewrite <- H3, <- app_assoc.
  - rewrite H1, fmap_nil. apply set_eq. intros x.
    rewrite !elem_of_difference, !elem_of_list_to_set, elem_of_cons, elem_of_singleton,
      elem_of_nil.
    split; [|done]. intros [[[->|Hx] Hn] Hne]; done.
  - rewrite fmap_nil. apply NoDup_nil_2.
  - rewrite fmap_nil, app_nil_r, <- H3.
    apply Permutation_app_head. symmetry. apply Permutation_cons_append.
Qed.

Lemma clearQueue_consistent (q : State) : Consistent q -> Consistent (clearQueue q).
Proof.
  intros [H1 H2 H3 H4 H5].
  destruct (clearQueue_effect q) as (E1 & E2 & E3 & E4 & E5 & E6 & _).
  remember (clearQueue q) as q' eqn:Eq; clear Eq.
  unfold waiting in *. rewrite fmap_app in H2. apply NoDup_app in H2 as (Hf & Hsep & Hq).
  split; unfold waiting; rewrite ?E1, ?E2, ?E3, ?E4, ?E5, ?E6, ?app_nil_r; try done.
  - rewrite H1, fmap_app, list_to_set_app_L.
    apply set_eq. intros x. rewrite elem_of_difference, elem_of_union, !elem_of_list_to_set.
    split; [intros [[Hx|Hx] Hn]; done|]. intros Hx. split; [by left|]. by apply Hsep.
  - rewrite fmap_app, resolved_cancelled, <- app_assoc, <- H3, fmap_app.
    apply Permutation_app_head, Permutation_app_comm.
Qed.

Lemma run_consistent (events : list Event) (q : State) :
  Consistent q -> Consistent (run events q).
Proof.
  revert q. unfold run. induction events as [|e events IH]; intros q Hq; [done|].
  cbn [fold_left]. apply IH. destruct e; cbn [step].
  - by apply addTrade_consistent.
  - by apply processLoop_consistent.
  - by apply completeExecution_consistent.
  - by apply clearQueue_consistent.
Qed.

(** X15: debouncing: however the queue is driven from its initial state, no two
    of the intents it holds (queued or being executed) are for the same
    instrument, and [pendingSymbols] is exactly the set of their
    instruments. *)
Theorem one_intent_per_symbol (events : list Event) :
  NoDup (symbol <$> waiting (run events initial))
  /\ pendingSymbols (run events initial)
     = list_to_set (symbol <$> waiting (run events initial)).
Proof.
  destruct (run_consistent events initial Consistent_initial) as [H1 H2 _ _ _].
  by split.
Qed.


(** X17: the queue is always in execution order: each queued intent has a
    priority at least that of every intent behind it, and among equal
    priorities the older one is in front. *)
Theorem queue_in_execution_order (events : list Event) :
  ordered (queue (run events initial)).
Proof.
  by destruct (run_consistent events initial Consistent_initial) as [_ _ _ H4 _].
Qed.

(** *** Cooldown *)

Lemma addTrade_accepted (now : Z) (sym : string) (ct : ContractType)
    (amt dur : number) (unit : DurationUnit) (prio : number) (q : State) :
  sym ∉ pendingSymbols q -> isInCooldown now sym q = false ->
  addTrade now sym ct amt dur unit prio q
  = updateStats
      (set_pendingSymbols ({[sym]} ∪ pendingSymbols q)
         (set_queue (sortQueue (queue q ++ [newTrade now sym ct amt dur unit prio q]))
            (set_nextPromise (S (nextPromise q)) q))).
Proof.
  intros Hpend Hcool. unfold addTrade. cbn zeta.
  change (pendingSymbols (set_nextPromise _ q)) with (pendingSymbols q).
  change (symbolCooldowns (set_nextPromise _ q)) with (symbolCooldowns q).
  destruct (decide (sym ∈ pendingSymbols q)); [done|].
  unfold isInCooldown in Hcool. by rewrite Hcool.
Qed.

Lemma addTrade_on_cooldown (now : Z) (sym : string) (ct : ContractType)
    (amt dur : number) (unit : DurationUnit) (prio : number) (q : State) (e : Z) :
  sym ∉ pendingSymbols q -> symbolCooldowns q !! sym = Some e ->
  isInCooldown now sym q = true ->
  queue (addTrade now sym ct amt dur unit prio q) = queue q
  /\ pendingSymbols (addTrade now sym ct amt dur unit prio q) = pendingSymbols q
  /\ resolutions (addTrade now sym ct amt dur unit prio q)
     = resolutions q ++ [Rejected (nextPromise q) (cooldownResult (e - now))].
Proof.
  intros Hpend He Hcool. unfold addTrade. cbn zeta.
  change (pendingSymbols (set_nextPromise _ q)) with (pendingSymbols q).
  change (symbolCooldowns (set_nextPromise _ q)) with (symbolCooldowns q).
  destruct (decide (sym ∈ pendingSymbols q)); [done|].
  unfold isInCooldown in Hcool. rewrite Hcool, He. by qsimpl.
Qed.

(** X18: the public cooldown queries agree with admission: for an instrument
    that has no pending request, [addTrade] queues the intent exactly when
    [isInCooldown] answers false, and [isInCooldown] answers true exactly
    when [getCooldownRemaining] is positive. *)
Theorem cooldown_queries_agree (now : Z) (sym : string) (ct : ContractType)
    (amt dur : number) (unit : DurationUnit) (prio : number) (q : State) :
  sym ∉ pendingSymbols q ->
  (sym ∈ pendingSymbols (addTrade now sym ct amt dur unit prio q)
   <-> isInCooldown now sym q = false)
  /\ (isInCooldown now sym q = true <-> (0 < getCooldownRemaining now sym q)%Z).
Proof.
  intros Hpend. split.
  - destruct (isInCooldown now sym q) eqn:Hcool.
    + unfold isInCooldown in Hcool.
      destruct (symbolCooldowns q !! sym) as [e|] eqn:He; [|done].
      destruct (addTrade_on_cooldown now sym ct amt dur unit prio q e) as (_ & -> & _);
        try done.
      unfold isInCooldown. by rewrite He.
    + rewrite addTrade_accepted by done. qsimpl. split; [done|]. intros _.
      apply elem_of_union_l, elem_of_singleton. done.
  - unfold isInCooldown, getCooldownRemaining.
    destruct (symbolCooldowns q !! sym) as [e|]; [|done].
    destruct (Z.eqb_spec e 0) as [->|Hne]; cbn [negb andb]; [done|].
    rewrite Z.ltb_lt. lia.
Qed.

Lemma cooldown_queries_agree_witness :
  isInCooldown 10000 "R_10"
    (completeExecution 3000 (Returned (failure "Market is closed")) executingA) = true
  <-> (0 < getCooldownRemaining 10000 "R_10"
             (completeExecution 3000 (Returned (failure "Market is closed")) executingA))%Z.
Proof.
  apply (cooldown_queries_agree 10000 "R_10" CALL 1 5 unit_t 0
           (completeExecution 3000 (Returned (failure "Market is closed")) executingA)).
  vm_compute. discriminate.
Defined.

Lemma completeExecution_returned (T : Z) (r : TradeResult) (q : State)
    (trade : QueuedTrade) :
  inFlight q = Some trade -> rateLimited r = false ->
  let q1 := completeExecution T (Returned r) q in
  queue q1 = queue q /\ nextPromise q1 = nextPromise q
  /\ resolutions q1
     = resolutions q
       ++ [Settled (withStatus (if success r then completed else failed) trade) r]
  /\ pendingSymbols q1 = pendingSymbols q ∖ {[symbol trade]}
  /\ symbolCooldowns q1 = <[symbol trade := (T + COOLDOWN_PER_ASSET_MS)%Z]> (symbolCooldowns q)
  /\ lastExecutionTime q1 = Some T.
Proof.
  intros Hin Hr. cbn zeta. unfold completeExecution. rewrite Hin.
  unfold executeTrade. rewrite Hr. by qsimpl.
Qed.

Lemma completeExecution_split (now : Z) (outcome : VenueOutcome) (q : State) :
  completeExecution now outcome q = finishTurn (resumeExecution now outcome q).
Proof.
  unfold completeExecution, resumeExecution, finishTurn.
  destruct (inFlight q) as [trade|] eqn:Hin; [|by rewrite Hin].
  assert (inFlight (executeTrade now outcome trade q) = Some trade) as ->; [|done].
  unfold executeTrade.
  assert (forall q0, inFlight q0 = Some trade ->
            inFlight (handleRateLimitError now q0) = Some trade) as Hrl.
  { intros q0 H0. destruct (handleRateLimitError_effect now q0) as (_ & -> & _). done. }
  destruct outcome as [result|errorMessage].
  - destruct (rateLimited result); [|by qsimpl].
    qsimpl. by apply Hrl.
  - destruct (includes _ _); [|by qsimpl]. qsimpl. by apply Hrl.
Qed.

(** X19: an attempt on an instrument completes at [T] with a result that is
    not a rate-limit error.  While the caller reacts to its promise, before
    the [finally] block of the loop has run, the instrument is still pending
    and a new intent for it is turned away as already pending.  Once the
    [finally] block has run, a new intent is turned away with the seconds
    left of the cooldown until [T + 60000], and queued again from then
    on. *)
Theorem cooldown_blocks_readmission (T now : Z) (q : State) (trade : QueuedTrade)
    (r : TradeResult) (ct : ContractType) (amt dur : number) (unit : DurationUnit)
    (prio : number) :
  inFlight q = Some trade -> symbol trade ∈ pendingSymbols q ->
  rateLimited r = false -> (0 <= T)%Z ->
  let q0 := resumeExecution T (Returned r) q in
  let q1 := finishTurn q0 in
  let early := addTrade now (symbol trade) ct amt dur unit prio q0 in
  let q2 := addTrade now (symbol trade) ct amt dur unit prio q1 in
  q1 = completeExecution T (Returned r) q
  /\ (queue early = queue q0
      /\ resolutions early
         = resolutions q0 ++ [Rejected (nextPromise q0) debounceResult])
  /\ ((now < T + 60000)%Z ->
        queue q2 = queue q1
        /\ resolutions q2
           = resolutions q1
             ++ [Rejected (nextPromise q1) (cooldownResult (T + 60000 - now))])
  /\ ((T + 60000 <= now)%Z ->
        queue q2
        = sortQueue (queue q1 ++ [newTrade now (symbol trade) ct amt dur unit prio q1])
        /\ resolutions q2 = resolutions q1).
Proof.
  intros Hin Hsym Hr HT. cbn zeta. rewrite <- completeExecution_split.
  split; [done|]. split.
  { unfold resumeExecution. rewrite Hin. unfold executeTrade. rewrite Hr.
    unfold addTrade. cbn zeta. qsimpl.
    destruct (decide (symbol trade ∈ pendingSymbols q)); [|done]. by qsimpl. }
  destruct (completeExecution_returned T r q trade Hin Hr) as (_ & _ & _ & Hp & Hc & _).
  remember (completeExecution T (Returned r) q) as q1 eqn:Eq1. clear Eq1.
  assert (symbol trade ∉ pendingSymbols q1) as Hpend.
  { rewrite Hp. intros Hx. apply elem_of_difference in Hx as [_ Hx].
    apply Hx. by apply elem_of_singleton. }
  assert (symbolCooldowns q1 !! symbol trade = Some (T + 60000)%Z) as He
    by (by rewrite Hc, lookup_insert_eq).
  assert (isInCooldown now (symbol trade) q1 = (now <? T + 60000)%Z) as Hcool.
  { unfold isInCooldown. rewrite He.
    destruct (Z.eqb_spec (T + 60000) 0); [lia|done]. }
  split; intros Hnow.
  - destruct (addTrade_on_cooldown now (symbol trade) ct amt dur unit prio q1
                (T + 60000)%Z) as (H1 & _ & H3); try done.
    rewrite Hcool. by apply Z.ltb_lt.
  - rewrite addTrade_accepted; [by qsimpl|done|].
    rewrite Hcool. by apply Z.ltb_ge.
Qed.

Lemma cooldown_blocks_readmission_witness :
  resolutions
    (addTrade 3000 "R_10" CALL 1 5 unit_t 0
       (resumeExecution 3000 (Returned (failure "Market is closed")) executingA))
  = resolutions
      (resumeExecution 3000 (Returned (failure "Market is closed")) executingA)
    ++ [Rejected 2 debounceResult].
Proof.
  assert ("R_10" ∈ pendingSymbols executingA) as Hsym by (vm_compute; reflexivity).
  destruct (cooldown_blocks_readmission 3000 3000 executingA tradeA
              (failure "Market is closed") CALL 1 5 unit_t 0
              eq_refl Hsym eq_refl ltac:(lia)) as (_ & [_ H] & _).
  exact H.
Defined.

(** *** Backoff *)

Lemma addTrade_throttle (now : Z) (sym : string) (ct : ContractType)
    (amt dur : number) (unit : DurationUnit) (prio : number) (q : State) :
  let q' := addTrade now sym ct amt dur unit prio q in
  isThrottled q' = isThrottled q /\ throttleEndsAt q' = throttleEndsAt q
  /\ inFlight q' = inFlight q /\ isProcessing q' = isProcessing q
  /\ venueCalls q' = venueCalls q /\ lastExecutionTime q' = lastExecutionTime q.
Proof.
  cbn zeta. unfold addTrade. cbn zeta.
  destruct (decide _); [by qsimpl|].
  match goal with |- context [if ?b then _ else _] => destruct b end; by qsimpl.
Qed.

Lemma throttled_step (T : Z) (calls : list QueuedTrade) (q : State) (e : Event) :
  turnsBefore (T + RATE_LIMIT_BACKOFF_MS) e ->
  throttledSince T calls q -> throttledSince T calls (step q e).
Proof.
  intros He (H1 & H2 & H3 & H4 & H5 & H6).
  destruct e as [now sym ct amt dur unit prio|now|now outcome|];
    cbn [step turnsBefore] in *.
  - destruct (addTrade_throttle now sym ct amt dur unit prio q)
      as (E1 & E2 & E3 & E4 & E5 & E6).
    unfold throttledSince. by rewrite E1, E2, E3, E4, E5, E6.
  - unfold processLoop. rewrite H4. cbn [orb].
    destruct (bool_decide (queue q = [])); [done|].
    assert (throttleEnd q = (T + RATE_LIMIT_BACKOFF_MS)%Z) as ->
      by (unfold throttleEnd; by rewrite H2).
    by rewrite H1, (proj2 (Z.ltb_lt _ _) He).
  - unfold completeExecution. by rewrite H3.
  - destruct (clearQueue_effect q) as (_ & E2 & E3 & _ & _ & _ & _ & E8 & E9 & E10 & E11).
    unfold throttledSince. by rewrite E2, E3, E8, E9, E10, E11.
Qed.

(** X20: backoff: after the venue has answered the intent in flight with a
    rate-limit error at [T], no call reaches the venue while the turns of
    the loop come before [T + 5000], whatever intents are added or cleared
    meanwhile; the first turn from [T + 5000] on that finds an intent queued
    ends the throttle and hands that intent to the venue. *)
Theorem backoff_holds (T now : Z) (q : State) (trade : QueuedTrade) (r : TradeResult)
    (events : list Event) :
  inFlight q = Some trade -> rateLimited r = true -> (0 < T)%Z ->
  Forall (turnsBefore (T + 5000)) events ->
  let q1 := run events (completeExecution T (Returned r) q) in
  venueCalls q1 = venueCalls q
  /\ ((T + 5000 <= now)%Z -> forall next rest, queue q1 = next :: rest ->
        isThrottled (processLoop now q1) = false
        /\ venueCalls (processLoop now q1)
           = venueCalls q ++ [withStatus executing next]).
Proof.
  intros Hin Hr HT Hev. cbn zeta.
  assert (throttledSince T (venueCalls q) (completeExecution T (Returned r) q)) as H0.
  { unfold completeExecution. rewrite Hin. unfold executeTrade. rewrite Hr.
    match goal with
    | |- context [handleRateLimitError T ?q0] =>
        destruct (handleRateLimitError_effect T q0)
          as (_ & _ & _ & _ & _ & _ & _ & E8 & E9 & E10 & E11);
        remember (handleRateLimitError T q0) as q1 eqn:Eq1; clear Eq1
    end.
    unfold throttledSince. qsimpl. by rewrite E8, E9, E10, E11. }
  assert (throttledSince T (venueCalls q)
            (run events (completeExecution T (Returned r) q)))
    as (H1 & H2 & H3 & H4 & H5 & H6).
  { revert H0. generalize (completeExecution T (Returned r) q).
    unfold run. induction Hev as [|e events He Hev IH]; intros q0 H0; [done|].
    cbn [fold_left]. apply IH. by apply throttled_step. }
  remember (run events (completeExecution T (Returned r) q)) as q1 eqn:Eq1. clear Eq1.
  split; [done|]. intros Hnow next rest Hqueue.
  assert (throttleEnd q1 = (T + 5000)%Z) as Hend
    by (unfold throttleEnd; by rewrite H2).
  unfold processLoop. rewrite H4, Hqueue, Hend, H1. cbn [orb].
  rewrite bool_decide_eq_false_2 by done.
  rewrite (proj2 (Z.ltb_ge _ _) Hnow), (proj2 (Z.leb_le _ _) Hnow). cbn [andb].
  qsimpl. rewrite H6.
  destruct (Z.eqb_spec T 0) as [|_]; [lia|]. cbn [negb andb].
  unfold MIN_EXECUTION_INTERVAL_MS.
  rewrite (proj2 (Z.ltb_ge (now - T) 2000)) by lia.
  rewrite Hqueue. qsimpl. by rewrite H5.
Qed.

Lemma backoff_holds_witness :
  venueCalls
    (run [Add 4000 "R_50" CALL 1 5 unit_t 0; Turn 5000; Turn 7900]
       (completeExecution 3000 (Returned (failure "Rate limit exceeded")) executingA))
  = venueCalls executingA.
Proof.
  assert (Forall (turnsBefore (3000 + 5000))
            [Add 4000 "R_50" CALL 1 5 unit_t 0; Turn 5000; Turn 7900]) as Hev.
  { repeat (apply Forall_cons; split; [cbn; done || lia|]). apply Forall_nil_2. }
  destruct (backoff_holds 3000 8000 executingA tradeA (failure "Rate limit exceeded")
              [Add 4000 "R_50" CALL 1 5 unit_t 0; Turn 5000; Turn 7900]
              eq_refl eq_refl eq_refl Hev) as [H _].
  exact H.
Defined.
End QueueMore.

(** ** Signal engine: bounds, tallies and the life of an order *)
Module EngineMore.

Import Indicators Engine.

(** *** What each entry point leaves alone *)

Lemma updateActiveTrades_frame (tick : TickUpdate) (e : State) :
  let e' := updateActiveTrades tick e in
  priceHistory e' = priceHistory e /\ currentStake e' = currentStake e
  /\ orders e' = orders e /\ signals e' = signals e
  /\ tradeJournal e' = tradeJournal e /\ activeTrades e' = activeTrades e
  /\ symbolAdjustments e' = symbolAdjustments e
  /\ isRunning e' = isRunning e /\ tickRegistrations e' = tickRegistrations e
  /\ stats e' = stats_activeTradesCount (size (activeTrades e)) (stats e).
Proof.
  unfold updateActiveTrades, updateStats. cbn.
  generalize (map_to_list (activeTrades e)). intros l. revert e.
  induction l as [|x l IH]; intros e; [done|]. cbn.
  specialize (IH (set_trades (alter (markToMarket tick) x.2 (trades e)) e)).
  cbn in IH. exact IH.
Qed.

(** The probability before the per-instrument adjustment is the base 0.4
    plus the larger score, capped at 0.95; no score is negative. *)
Lemma score_nonneg (price : number) (ind : IndicatorResult) :
  let sc := scoreAverages price ind
              (scoreMACD ind
                 (scoreBollinger price ind
                    (scoreADX ind
                       (scoreRSI ind
                          {| longScore := 0; shortScore := 0; reasons := [] |})))) in
  0 <= longScore sc /\ 0 <= shortScore sc.
Proof.
  assert (forall sc x rs, 0 <= x -> 0 <= longScore sc /\ 0 <= shortScore sc ->
            0 <= longScore (addLong x rs sc) /\ 0 <= shortScore (addLong x rs sc)) as HL.
  { intros sc x rs Hx [H1 H2]. cbn. rewrite qadd_spec. split; lra. }
  assert (forall sc x rs, 0 <= x -> 0 <= longScore sc /\ 0 <= shortScore sc ->
            0 <= longScore (addShort x rs sc) /\ 0 <= shortScore (addShort x rs sc)) as HS.
  { intros sc x rs Hx [H1 H2]. cbn. rewrite qadd_spec. split; lra. }
  cbn zeta.
  assert (forall sc, 0 <= longScore sc /\ 0 <= shortScore sc ->
            0 <= longScore (scoreRSI ind sc) /\ 0 <= shortScore (scoreRSI ind sc)) as H1.
  { intros sc H. unfold scoreRSI. destruct (rsi ind); [|done].
    repeat destruct (Qltb _ _); (apply HL || apply HS); try done; lra. }
  assert (forall sc, 0 <= longScore sc /\ 0 <= shortScore sc ->
            0 <= longScore (scoreADX ind sc) /\ 0 <= shortScore (scoreADX ind sc)) as H2.
  { intros sc H. unfold scoreADX. destruct (adx ind) as [a|]; [|done].
    destruct (Qltb DERIV_CONFIG.ADX_TREND_THRESHOLD a) eqn:E; [|done].
    apply Qltb_lt in E. unfold DERIV_CONFIG.ADX_TREND_THRESHOLD in E.
    assert (0 <= Math_min 0.2 ((a - 25) / 100)) as Hb.
    { unfold Math_min. rewrite qdiv_spec, qsub_spec.
      apply Q.min_glb; [lra|]. apply Qle_shift_div_l; lra. }
    destruct (Qltb _ _); [by apply HL|by apply HS]. }
  assert (forall sc, 0 <= longScore sc /\ 0 <= shortScore sc ->
            0 <= longScore (scoreBollinger price ind sc)
            /\ 0 <= shortScore (scoreBollinger price ind sc)) as H3.
  { intros sc H. unfold scoreBollinger.
    destruct (bollingerUpper ind), (bollingerLower ind); try done.
    destruct (divLt _ _ _); [apply HL; [lra|done]|].
    destruct (divGt _ _ _); [apply HS; [lra|done]|done]. }
  assert (forall sc, 0 <= longScore sc /\ 0 <= shortScore sc ->
            0 <= longScore (scoreMACD ind sc) /\ 0 <= shortScore (scoreMACD ind sc)) as H4.
  { intros sc H. unfold scoreMACD. destruct (macd ind) as [[[m s] h]|]; [|done].
    destruct (_ && _); [apply HL; [lra|done]|].
    destruct (_ && _); [apply HS; [lra|done]|done]. }
  assert (forall sc, 0 <= longScore sc /\ 0 <= shortScore sc ->
            0 <= longScore (scoreAverages price ind sc)
            /\ 0 <= shortScore (scoreAverages price ind sc)) as H5.
  { intros sc H. unfold scoreAverages. destruct (sma ind), (ema ind); try done.
    destruct (_ && _); [apply HL; [lra|done]|].
    destruct (_ && _); [apply HS; [lra|done]|done]. }
  apply H5, H4, H3, H2, H1. cbn. lra.
Qed.

Lemma calculateTradeProbability_range (price : number) (ind : IndicatorResult) :
  0.4 <= (calculateTradeProbability price ind).1.1
  /\ (calculateTradeProbability price ind).1.1 <= 0.95.
Proof.
  unfold calculateTradeProbability. cbn zeta. cbn [fst].
  destruct (score_nonneg price ind) as [HL HS]. cbn zeta in HL, HS.
  set (sc := scoreAverages _ _ _) in *. unfold Math_min, Math_max.
  rewrite qadd_spec. split.
  - apply Q.min_glb; [lra|]. pose proof (Q.le_max_l (longScore sc) (shortScore sc)). lra.
  - apply Q.le_min_l.
Qed.

Lemma analyzeSymbol_effect (sqrt : number -> number) (now : Z) (sym : string)
    (price : number) (e : State) :
  0 <= adjustmentOf sym e ->
  let e' := analyzeSymbol sqrt now sym price e in
  priceHistory e' = priceHistory e /\ currentStake e' = currentStake e
  /\ tradeJournal e' = tradeJournal e /\ stats e' = stats e
  /\ isRunning e' = isRunning e /\ tickRegistrations e' = tickRegistrations e
  /\ (orders e' = orders e
      \/ exists o, orders e' = orders e ++ [o] /\ order_amount o = currentStake e)
  /\ (signals e' = signals e
      \/ exists sg, signals e' = signals e ++ [sg]
                    /\ DERIV_CONFIG.MIN_PROBABILITY <= probability sg
                    /\ probability sg <= 0.95).
Proof.
  intros Hadj. cbn zeta. unfold analyzeSymbol.
  destruct (isPaused (stats e)); [by auto 10|].
  match goal with
  | |- context [calculateTradeProbability ?p ?i] =>
      pose proof (calculateTradeProbability_range p i) as [Hlo Hhi];
      destruct (calculateTradeProbability p i) as [[p0 d] r]
  end.
  cbn [fst] in Hlo, Hhi.
  destruct (Qle_bool _ _) eqn:Hq; [|by auto 10].
  apply Qle_bool_iff in Hq.
  assert (Math_max 0 (Math_min 1 (p0 - orZero (symbolAdjustments e !! sym))) <= 0.95)
    as Hmax.
  { unfold adjustmentOf in Hadj. unfold Math_max, Math_min. rewrite qsub_spec.
    apply Q.max_lub; [lra|].
    pose proof (Q.le_min_r 1 (p0 - orZero (symbolAdjustments e !! sym))). lra. }
  cbn [activeTrades set_signals log set_logs].
  destruct (activeTrades e !! _).
  - cbn. repeat split; try done; [by left|]. right. eexists. split; [done|]. by cbn.
  - cbn. repeat split; try done.
    + right. eexists. split; [done|]. by cbn.
    + right. eexists. split; [done|]. by cbn.
Qed.

Lemma handleTick_effect (sqrt : number -> number) (now : Z) (tick : TickUpdate)
    (e : State) :
  0 <= adjustmentOf (tick_symbol tick) e ->
  let e' := handleTick sqrt now tick e in
  priceHistory e'
    = (if isRunning e then <[tick_symbol tick := pushed tick e]> (priceHistory e)
       else priceHistory e)
  /\ currentStake e' = currentStake e /\ tradeJournal e' = tradeJournal e
  /\ totalTrades (stats e') = totalTrades (stats e)
  /\ wins (stats e') = wins (stats e) /\ losses (stats e') = losses (stats e)
  /\ winRate (stats e') = winRate (stats e)
  /\ isRunning e' = isRunning e /\ tickRegistrations e' = tickRegistrations e
  /\ (orders e' = orders e
      \/ exists o, orders e' = orders e ++ [o] /\ order_amount o = currentStake e)
  /\ (signals e' = signals e
      \/ exists sg, signals e' = signals e ++ [sg]
                    /\ DERIV_CONFIG.MIN_PROBABILITY <= probability sg
                    /\ probability sg <= 0.95).
Proof.
  intros Hadj. cbn zeta. unfold handleTick.
  destruct (isRunning e) eqn:Hrun; cbn [negb]; [|by auto 15].
  fold (pushed tick e).
  match goal with
  | |- context [updateActiveTrades tick ?e0] =>
      pose proof (updateActiveTrades_frame tick e0)
        as (F1 & F2 & F3 & F4 & F5 & F6 & F7 & F8 & F9 & F10);
      remember (updateActiveTrades tick e0) as e1 eqn:Eq1; clear Eq1
  end.
  cbn in F1, F2, F3, F4, F5, F6, F7, F8, F9, F10.
  destruct (_ <=? _)%nat.
  - destruct (analyzeSymbol_effect sqrt now (tick_symbol tick) (quote tick) e1)
      as (A1 & A2 & A3 & A4 & A5 & A6 & A7 & A8).
    { unfold adjustmentOf in *. by rewrite F7. }
    rewrite A1, A2, A3, A4, A5, A6, F1, F2, F5, F8, F9, F10.
    rewrite F3, F2 in A7. rewrite F4 in A8. cbn. by repeat split.
  - rewrite F1, F2, F3, F4, F5, F8, F9, F10. cbn. repeat split; try done; by left.
Qed.

Lemma handleTick_adjustments_same (sqrt : number -> number) (now : Z)
    (tick : TickUpdate) (e : State) :
  symbolAdjustments (handleTick sqrt now tick e) = symbolAdjustments e.
Proof.
  unfold handleTick. destruct (isRunning e); cbn [negb]; [|done].
  match goal with
  | |- context [updateActiveTrades tick ?e0] =>
      pose proof (updateActiveTrades_frame tick e0) as (_ & _ & _ & _ & _ & _ & F7 & _);
      remember (updateActiveTrades tick e0) as e1 eqn:Eq1; clear Eq1
  end.
  cbn in F7. destruct (_ <=? _)%nat; [|done].
  unfold analyzeSymbol. destruct (isPaused (stats e1)); [done|].
  destruct (calculateTradeProbability _ _) as [[p d] r].
  destruct (Qle_bool _ _); [|done].
  destruct (activeTrades _ !! _); done.
Qed.

Lemma closeTrade_effect (now : Z) (tradeId : string) (ref : nat) (res : TradeOutcome)
    (pnl : number) (e : State) :
  activeTrades e !! tradeId = Some ref ->
  let e' := closeTrade now tradeId res pnl e in
  priceHistory e' = priceHistory e /\ currentStake e' = currentStake e
  /\ orders e' = orders e /\ signals e' = signals e
  /\ tradeJournal e' = tradeJournal e ++ [ref]
  /\ activeTrades e' = delete tradeId (activeTrades e)
  /\ totalTrades (stats e') = S (totalTrades (stats e))
  /\ wins (stats e')
     = (match res with win => S (wins (stats e)) | loss => wins (stats e) end)
  /\ losses (stats e')
     = (match res with win => losses (stats e) | loss => S (losses (stats e)) end)
  /\ winRate (stats e')
     = (QofNat (wins (stats e')) / QofNat (totalTrades (stats e')))%js.
Proof.
  intros Hk. cbn zeta. unfold closeTrade. rewrite Hk. cbn zeta.
  destruct (belowFloor _); destruct res; cbn; done.
Qed.

Lemma QofNat_le (a b : nat) : (a <= b)%nat -> QofNat a <= QofNat b.
Proof. intros H. unfold QofNat, Qle. cbn. lia. Qed.

(** *** The invariant *)

Lemma Sound_initial : Sound initial.
Proof.
  split.
  - intros sym h Hh. cbn in Hh.
    assert (h = []) as ->; [|cbn; lia].
    repeat (apply lookup_insert_Some in Hh as [[_ Hh]|[_ Hh]]; [done|]).
    by rewrite lookup_empty in Hh.
  - split; vm_compute; discriminate.
  - constructor.
  - constructor.
  - by repeat split.
  - intros sym. unfold adjustmentOf. cbn. rewrite lookup_empty. cbn. lra.
Qed.

Lemma withinLimits_clamp (x : number) :
  withinLimits
    (Math_max DERIV_CONFIG.DEFAULT_STAKE (Math_min DERIV_CONFIG.MAX_STAKE x)).
Proof.
  unfold withinLimits, Math_max, Math_min, DERIV_CONFIG.DEFAULT_STAKE,
    DERIV_CONFIG.MAX_STAKE.
  split; [apply Q.le_max_l|]. apply Q.max_lub; [lra|apply Q.le_min_l].
Qed.

Lemma handleTick_sound (sqrt : number -> number) (now : Z) (tick : TickUpdate)
    (e : State) :
  Sound e -> Sound (handleTick sqrt now tick e).
Proof.
  intros [H1 H2 H3 H4 (T1 & T2 & T3) H6].
  destruct (handleTick_effect sqrt now tick e (H6 _))
    as (E1 & E2 & E3 & E4 & E5 & E6 & E7 & _ & _ & E10 & E11).
  pose proof (handleTick_adjustments_same sqrt now tick e) as E12.
  remember (handleTick sqrt now tick e) as e' eqn:Eq. clear Eq.
  split.
  - intros sym h. rewrite E1. destruct (isRunning e); [|by apply H1].
    destruct (decide (sym = tick_symbol tick)) as [->|Hne].
    + rewrite lookup_insert_eq. intros [= <-]. unfold pushed. cbn zeta.
      destruct (Nat.ltb_spec HISTORY_SIZE
                  (length (default [] (priceHistory e !! tick_symbol tick)
                           ++ [quote tick]))) as [Hlt|Hge]; [|done].
      rewrite length_drop, length_app in *. cbn [length] in *.
      assert (length (default [] (priceHistory e !! tick_symbol tick))
              <= HISTORY_SIZE)%nat; [|lia].
      destruct (priceHistory e !! tick_symbol tick) as [h|] eqn:Hh; cbn.
      * by apply (H1 _ _ Hh).
      * lia.
    + rewrite lookup_insert_ne by done. apply H1.
  - by rewrite E2.
  - destruct E10 as [->|(o & -> & Ho)]; [done|].
    apply Forall_app. split; [done|]. constructor; [|constructor]. by rewrite Ho.
  - destruct E11 as [->|(sg & -> & Hsg)]; [done|].
    apply Forall_app. split; [done|]. by constructor.
  - unfold tallied. by rewrite E3, E4, E5, E6, E7.
  - intros sym. unfold adjustmentOf. rewrite E12. apply H6.
Qed.

Lemma step_sound (sqrt : number -> number) (now : Z) (ev : Event) (e : State) :
  Sound e -> Sound (step sqrt now ev e).
Proof.
  intros He.
  destruct ev as [| |tick|ref outcome|tradeId res pnl| |stk]; cbn [step].
  - unfold start. destruct (isRunning e); [done|].
    destruct He as [H1 H2 H3 H4 H5 H6]. by split.
  - unfold stop. destruct (isRunning e); cbn [negb]; [|done].
    destruct He as [H1 H2 H3 H4 H5 H6]. by split.
  - induction (tickRegistrations e) as [|n IH]; [done|].
    rewrite Nat.iter_succ. by apply handleTick_sound.
  - unfold executeTradeResume. destruct (trades e !! ref) as [tr|]; [|done].
    destruct He as [H1 H2 H3 H4 H5 H6].
    destruct outcome as [r|]; [destruct (Venue.success r)|]; by split.
  - destruct (activeTrades e !! tradeId) as [ref|] eqn:Hk;
      [|unfold closeTrade; by rewrite Hk].
    pose proof (EngineFacts.adjustmentsOk_step sqrt now
                  (ECloseTrade tradeId res pnl) e (adjustments_ok e He)) as Hadj.
    cbn [step] in Hadj.
    destruct He as [H1 H2 H3 H4 (T1 & T2 & T3) H6].
    destruct (closeTrade_effect now tradeId ref res pnl e Hk)
      as (E1 & E2 & E3 & E4 & E5 & _ & E7 & E8 & E9 & E10).
    remember (closeTrade now tradeId res pnl e) as e' eqn:Eq. clear Eq.
    split; rewrite ?E1, ?E2, ?E3, ?E4; try done.
    unfold tallied. rewrite E10, E5, E7, E8, E9, length_app. cbn [length].
    repeat split; destruct res; lia.
  - unfold runTimer. destruct (pauseTimers e) as [|due rest]; [done|].
    destruct (due <=? now)%Z; [|done].
    destruct He as [H1 H2 H3 H4 H5 H6]. by split.
  - destruct He as [H1 H2 H3 H4 H5 H6]. split; try done.
    apply withinLimits_clamp.
Qed.

Lemma reachable_sound (sqrt : number -> number) (e : State) :
  reachable sqrt e -> Sound e.
Proof. induction 1; [apply Sound_initial|by apply step_sound]. Qed.

Lemma after_reachable (sqrt : number -> number) (script : list (Z * Event)) :
  reachable sqrt (after sqrt script).
Proof.
  unfold after, run. generalize (reachable_initial sqrt). generalize initial.
  induction script as [|[now ev] script IH]; intros e He; [done|].
  cbn [fold_left]. apply IH. by constructor.
Qed.

(** X21: every signal the engine has emitted carries a probability between the
    entry threshold 0.75 and the cap 0.95: the adjustments learned from
    losses are never negative, so they can only lower it. *)
Theorem signals_within_bounds (sqrt : number -> number) (e : State) :
  reachable sqrt e ->
  Forall (fun sg => 0.75 <= probability sg /\ probability sg <= 0.95) (signals e).
Proof. intros He. by destruct (reachable_sound sqrt e He). Qed.

Lemma signals_within_bounds_witness :
  Forall (fun sg => 0.75 <= probability sg /\ probability sg <= 0.95)
    (signals (after (fun x => x) (fallingScript 31))).
Proof.
  apply (signals_within_bounds (fun x => x) (after (fun x => x) (fallingScript 31))).
  apply after_reachable.
Defined.

(** X22: no instrument's price history ever holds more than [HISTORY_SIZE]
    quotes. *)
Theorem price_history_bounded (sqrt : number -> number) (e : State) (sym : string)
    (h : list number) :
  reachable sqrt e -> priceHistory e !! sym = Some h -> (length h <= 100)%nat.
Proof. intros He. destruct (reachable_sound sqrt e He) as [H _ _ _ _ _]. apply H. Qed.

Lemma price_history_bounded_witness :
  let e := after (fun x => x) (fallingScript 105) in
  let newest := map (fun i => QofNat (200 - i)) (seq 6 100) in
  priceHistory e !! "R_10" = Some newest /\ (length newest <= 100)%nat.
Proof.
  cbn zeta.
  assert (priceHistory (after (fun x => x) (fallingScript 105)) !! "R_10"
          = Some (map (fun i => QofNat (200 - i)) (seq 6 100))) as Hh
    by (vm_compute; reflexivity).
  split; [exact Hh|].
  exact (price_history_bounded (fun x => x) (after (fun x => x) (fallingScript 105))
           "R_10" _ (after_reachable _ _) Hh).
Defined.

(** X23: the stake stays between the smallest and the largest stake of the
    configuration, whatever [setStake] is given, and so does the amount of
    every order handed to the venue. *)
Theorem stake_within_limits (sqrt : number -> number) (e : State) :
  reachable sqrt e ->
  (1 <= currentStake e /\ currentStake e <= 100)
  /\ Forall (fun o => 1 <= order_amount o /\ order_amount o <= 100) (orders e).
Proof. intros He. by destruct (reachable_sound sqrt e He). Qed.

Lemma stake_within_limits_witness :
  1 <= currentStake (after (fun x => x) [(1000%Z, ESetStake 5000)])
  /\ currentStake (after (fun x => x) [(1000%Z, ESetStake 5000)]) <= 100.
Proof.
  apply (stake_within_limits (fun x => x) (after (fun x => x) [(1000%Z, ESetStake 5000)])).
  apply after_reachable.
Defined.

(** X24: the statistics add up: the number of trades is the number of wins plus
    the number of losses and the length of the journal, and the win rate is
    wins over trades (0 before the first close), hence between 0 and 1. *)
Theorem statistics_tally (sqrt : number -> number) (e : State) :
  reachable sqrt e ->
  tallied e /\ 0 <= winRate (stats e) /\ winRate (stats e) <= 1.
Proof.
  intros He. destruct (reachable_sound sqrt e He) as [_ _ _ _ (T1 & T2 & T3) _].
  split; [done|]. rewrite T3.
  destruct (Nat.ltb_spec 0 (totalTrades (stats e))) as [Hpos|]; [|lra].
  assert (0 < QofNat (totalTrades (stats e))) as Hq
    by (pose proof (QofNat_pos _ Hpos); lra).
  rewrite qdiv_spec. split.
  - apply Qle_shift_div_l; [done|]. rewrite Qmult_0_l.
    unfold QofNat, Qle. cbn. lia.
  - apply Qle_shift_div_r; [done|]. rewrite Qmult_1_l. apply QofNat_le. lia.
Qed.

Lemma statistics_tally_witness :
  tallied (after (fun x => x)
             (fallingScript 31 ++ [(2000%Z, ECloseTrade "R_10_LONG_1030" loss (-1))])).
Proof.
  apply (statistics_tally (fun x => x)
           (after (fun x => x)
              (fallingScript 31 ++ [(2000%Z, ECloseTrade "R_10_LONG_1030" loss (-1))]))).
  apply after_reachable.
Defined.

(** X25: A position is closed once: a second [closeTrade] for the same
    identifier, with whatever result, finds nothing and changes nothing;
    the journal and the counters record the first close only. *)
Theorem closeTrade_once (t1 t2 : Z) (tradeId : string) (r1 r2 : TradeOutcome)
    (p1 p2 : number) (e : State) :
  closeTrade t2 tradeId r2 p2 (closeTrade t1 tradeId r1 p1 e)
  = closeTrade t1 tradeId r1 p1 e.
Proof.
  destruct (activeTrades e !! tradeId) as [ref|] eqn:Hk.
  - destruct (closeTrade_effect t1 tradeId ref r1 p1 e Hk)
      as (_ & _ & _ & _ & _ & E6 & _).
    remember (closeTrade t1 tradeId r1 p1 e) as e' eqn:Eq. clear Eq.
    unfold closeTrade. by rewrite E6, lookup_delete_eq.
  - assert (closeTrade t1 tradeId r1 p1 e = e) as ->
      by (unfold closeTrade; by rewrite Hk).
    unfold closeTrade. by rewrite Hk.
Qed.

(** *** The life of an order *)


(** *** Restarting *)

Lemma start_effect (now : Z) (e : State) :
  isRunning e = false ->
  isRunning (start now e) = true
  /\ tickRegistrations (start now e) = S (tickRegistrations e)
  /\ priceHistory (start now e) = priceHistory e
  /\ symbolAdjustments (start now e) = symbolAdjustments e.
Proof. intros H. unfold start. rewrite H. by cbn. Qed.

Lemma stop_effect (now : Z) (e : State) :
  isRunning e = true ->
  isRunning (stop now e) = false
  /\ tickRegistrations (stop now e) = tickRegistrations e
  /\ priceHistory (stop now e) = priceHistory e
  /\ symbolAdjustments (stop now e) = symbolAdjustments e.
Proof. intros H. unfold stop. rewrite H. by cbn. Qed.

(** X27: [stop] leaves the tick handler that [start] registered in place, and the
    next [start] registers another: after a restart the engine holds one
    handler more than before, and with two of them every tick is handled
    twice, so that its quote enters the price history twice. *)
Theorem restart_doubles_ticks (sqrt : number -> number) (t1 t2 t3 now : Z)
    (tick : TickUpdate) (e : State) (h : list number) :
  reachable sqrt e -> isRunning e = false -> tickRegistrations e = 0%nat ->
  default [] (priceHistory e !! tick_symbol tick) = h -> (length h + 2 <= 100)%nat ->
  tickRegistrations (restarted t1 t2 t3 e) = 2%nat
  /\ priceHistory (step sqrt now (ETick tick) (restarted t1 t2 t3 e)) !! tick_symbol tick
     = Some (h ++ [quote tick; quote tick]).
Proof.
  intros He Hrun Hreg Hh Hlen. unfold restarted.
  destruct (start_effect t1 e Hrun) as (A1 & A2 & A3 & A4).
  destruct (stop_effect t2 _ A1) as (B1 & B2 & B3 & B4).
  destruct (start_effect t3 _ B1) as (C1 & C2 & C3 & C4).
  remember (start t3 (stop t2 (start t1 e))) as e3 eqn:Eq. clear Eq.
  rewrite C2, B2, A2, Hreg. split; [done|].
  assert (priceHistory e3 = priceHistory e) as HP by (by rewrite C3, B3, A3).
  assert (symbolAdjustments e3 = symbolAdjustments e) as HA by (by rewrite C4, B4, A4).
  pose proof (reachable_sound sqrt e He) as [_ _ _ _ _ Hadj].
  cbn [step]. rewrite C2, B2, A2, Hreg. cbn [Nat.iter nat_rect].
  assert (forall e0 h0, isRunning e0 = true ->
            symbolAdjustments e0 = symbolAdjustments e ->
            default [] (priceHistory e0 !! tick_symbol tick) = h0 ->
            (length h0 + 1 <= 100)%nat ->
            let e' := handleTick sqrt now tick e0 in
            isRunning e' = true /\ symbolAdjustments e' = symbolAdjustments e
            /\ priceHistory e' !! tick_symbol tick = Some (h0 ++ [quote tick])) as Hone.
  { intros e0 h0 R0 A0 H0 L0. cbn zeta.
    destruct (handleTick_effect sqrt now tick e0) as (E1 & _ & _ & _ & _ & _ & _ & E8 & _).
    { unfold adjustmentOf. rewrite A0. apply Hadj. }
    rewrite E8, handleTick_adjustments_same, E1, R0, lookup_insert_eq.
    repeat split; try done. unfold pushed. cbn zeta. rewrite H0.
    destruct (Nat.ltb_spec HISTORY_SIZE (length (h0 ++ [quote tick]))) as [Hlt|]; [|done].
    rewrite length_app in Hlt. cbn in Hlt. unfold HISTORY_SIZE in Hlt. lia. }
  destruct (Hone e3 h C1 HA) as (R1 & A1' & P1); [by rewrite HP|lia|].
  destruct (Hone (handleTick sqrt now tick e3) (h ++ [quote tick]) R1 A1')
    as (_ & _ & P2).
  { by rewrite P1. }
  { rewrite length_app. cbn. lia. }
  by rewrite P2, <- app_assoc.
Qed.

Lemma restart_doubles_ticks_witness :
  priceHistory
    (step (fun x => x) 4000
       (ETick {| tick_symbol := "R_10"; quote := 7; epoch := 1 |})
       (restarted 1000 2000 3000 initial)) !! "R_10"
  = Some [7; 7].
Proof.
  destruct (restart_doubles_ticks (fun x => x) 1000 2000 3000 4000
              {| tick_symbol := "R_10"; quote := 7; epoch := 1 |} initial []
              (reachable_initial _) eq_refl eq_refl eq_refl) as [_ H].
  - cbn. lia.
  - exact H.
Defined.
End EngineMore.

(** ** Market scanner *)
Module ScannerFacts.

Import Indicators Scanner.

Lemma rsiSignal_strength (rsi : option number) :
  0 <= (rsiSignal rsi).2 /\ (rsiSignal rsi).2 <= 100
  /\ ((rsiSignal rsi).1 = neutral -> (rsiSignal rsi).2 = 0)
  /\ ((rsiSignal rsi).1 <> neutral -> 0 < (rsiSignal rsi).2).
Proof.
  assert (forall t : number, 0 < t ->
            0 <= Math_min 100 t /\ Math_min 100 t <= 100 /\ 0 < Math_min 100 t) as Hmin.
  { intros t Ht. unfold Math_min. repeat split.
    - apply Q.min_glb; lra.
    - apply Q.le_min_l.
    - apply Q.min_glb_lt; lra. }
  unfold rsiSignal. destruct rsi as [r|]; [|cbn; repeat split; (done || lra)].
  destruct (Qltb r 30) eqn:E1; [|destruct (Qltb 70 r) eqn:E2]; cbn [fst snd].
  - apply Qltb_lt in E1.
    destruct (Hmin ((30 - r) * 3)%js) as (H1 & H2 & H3).
    { pose proof (qmul_spec (30 - r)%js 3) as Hm. pose proof (qsub_spec 30 r) as Hs.
      lra. }
    by repeat split.
  - apply Qltb_lt in E2.
    destruct (Hmin ((r - 70) * 3)%js) as (H1 & H2 & H3).
    { pose proof (qmul_spec (r - 70)%js 3) as Hm. pose proof (qsub_spec r 70) as Hs.
      lra. }
    by repeat split.
  - repeat split; (done || lra).
Qed.

Lemma lastN_suffix {A} (n : nat) (xs : list A) :
  xs = take (length xs - n) xs ++ lastN n xs
  /\ length (lastN n xs) = Nat.min n (length xs).
Proof.
  unfold lastN. split; [by rewrite take_drop|]. rewrite length_drop. lia.
Qed.

(** X28: the card a tick leaves behind: the strength is between 0 and 100, it is
    0 exactly on a neutral signal, the price is the quote, the history is
    the old history followed by the quote, cut back at the front to its
    newest 50 entries, so that the quote is its last entry, and RSI and ADX
    are shown only from 15 and 28 quotes on. *)
Theorem refreshed_card (sqrt : number -> number) (quote : number)
    (existing : MarketData) :
  0 <= strength (refresh sqrt quote existing)
  /\ strength (refresh sqrt quote existing) <= 100
  /\ (signal (refresh sqrt quote existing) = neutral
      <-> strength (refresh sqrt quote existing) == 0)
  /\ price (refresh sqrt quote existing) = quote
  /\ (length (history (refresh sqrt quote existing)) <= 50)%nat
  /\ (is_Some (rsi (refresh sqrt quote existing)) ->
        (15 <= length (history (refresh sqrt quote existing)))%nat)
  /\ (is_Some (adx (refresh sqrt quote existing)) ->
        (28 <= length (history (refresh sqrt quote existing)))%nat)
  /\ history existing ++ [quote]
     = take (length (history existing) + 1 - 50) (history existing ++ [quote])
       ++ history (refresh sqrt quote existing)
  /\ length (history (refresh sqrt quote existing))
     = Nat.min 50 (length (history existing) + 1)
  /\ last (history (refresh sqrt quote existing)) = Some quote.
Proof.
  unfold refresh. cbn zeta. cbn [strength signal price history rsi adx].
  set (h := lastN 50 (history existing ++ [quote])).
  assert (length h <= 50)%nat as Hlen
    by (unfold h, lastN; rewrite length_drop; lia).
  destruct (lastN_suffix 50 (history existing ++ [quote])) as [Hcut Hmin].
  fold h in Hcut, Hmin. rewrite length_app in Hcut, Hmin. cbn [length] in Hcut, Hmin.
  assert (last h = Some quote) as Hlast.
  { unfold h, lastN. rewrite drop_app_le by (rewrite length_app; cbn [length]; lia).
    apply last_snoc. }
  set (r := if (15 <=? length h)%nat then calculateRSI h 14 else None).
  destruct (rsiSignal_strength r) as (R1 & R2 & R3 & R4).
  assert (0 <= (bandSignal quote
                  (if (20 <=? length h)%nat
                   then calculateBollingerBands sqrt h 20 2 else None)
                  (rsiSignal r)).2
          /\ (bandSignal quote
                (if (20 <=? length h)%nat
                 then calculateBollingerBands sqrt h 20 2 else None)
                (rsiSignal r)).2 <= 100
          /\ ((bandSignal quote
                 (if (20 <=? length h)%nat
                  then calculateBollingerBands sqrt h 20 2 else None)
                 (rsiSignal r)).1 = neutral
              <-> (bandSignal quote
                     (if (20 <=? length h)%nat
                      then calculateBollingerBands sqrt h 20 2 else None)
                     (rsiSignal r)).2 == 0)) as (B1 & B2 & B3).
  { generalize (if (20 <=? length h)%nat
                then calculateBollingerBands sqrt h 20 2 else None).
    intros bollinger. unfold bandSignal.
    assert ((rsiSignal r).1 = neutral <-> (rsiSignal r).2 == 0) as Hn.
    { split; [by intros ->%R3|]. intros Hz.
      destruct ((rsiSignal r).1) eqn:E; [| |done];
        (assert (0 < (rsiSignal r).2) by (apply R4; congruence)); lra. }
    assert (0 <= Math_max (rsiSignal r).2 70 /\ Math_max (rsiSignal r).2 70 <= 100
            /\ ~ Math_max (rsiSignal r).2 70 == 0) as (M1 & M2 & M3).
    { unfold Math_max. pose proof (Q.le_max_r (rsiSignal r).2 70).
      repeat split; [lra|apply Q.max_lub; lra|lra]. }
    destruct bollinger as [b|]; [|done].
    destruct (Qle_bool quote (lower b)); [|destruct (Qle_bool (upper b) quote)];
      cbn [fst snd]; try done; repeat split; done. }
  split; [done|]. split; [done|]. split; [exact B3|]. split; [done|].
  split; [done|]. split; [|split; [|split; [|split]]].
  - unfold r. destruct (Nat.leb_spec 15 (length h)); [done|]. by intros [? ?].
  - destruct (Nat.leb_spec 28 (length h)); [done|]. by intros [? ?].
  - exact Hcut.
  - exact Hmin.
  - exact Hlast.
Qed.
End ScannerFacts.
